(** * omega-miya, [omega_miya/web_resource/pixiv/helper.py]

    A shallow embedding of the pixiv helper functions and the properties
    the specification states about them.

    Python values are embedded as follows.  A [str] is a [string]; its
    characters are the code points U+0000 to U+00FF, on which the character
    classes of [re] are tabulated exactly.  An [int] is a [Z].  [None] is
    the [None] of an [option].  A call that may raise returns a [result]:
    [Ok v] for a returned value, [Raise e] for an exception.  The labels
    the composers draw in Chinese stand in their UTF-8 encoding; they are
    drawn and measured, never inspected. *)

From Stdlib Require Import ZArith Ascii String DecimalString DecimalPos.
From stdpp Require Import base option list gmap strings.

Local Open Scope Z_scope.

(** ** Python values, exceptions and the exception monad *)

Module py.

Inductive exception :=
| TypeError
| ValueError
| AttributeError
| KeyError (key : string)
| ValidationError
| UnidentifiedImageError
| OSError
| TransportError (why : string)
| PixivNetworkError (msg : string).

Inductive result (A : Type) :=
| Ok (v : A)
| Raise (e : exception).
Global Arguments Ok {A} v.
Global Arguments Raise {A} e.

Definition bind {A B} (c : result A) (f : A -> result B) : result B :=
  match c with
  | Ok v => f v
  | Raise e => Raise e
  end.

(** [x.attr] or [x.method()] on an [x] that may be [None]. *)
Definition deref {A} (x : option A) : result A :=
  match x with
  | Some v => Ok v
  | None => Raise AttributeError
  end.

(** [for x in l: ...] with a body that may raise, collecting what each
    round appends: the first exception leaves the loop. *)
Fixpoint for_each {A B} (f : A -> result B) (l : list A) : result (list B) :=
  match l with
  | [] => Ok []
  | x :: l' =>
      match f x with
      | Raise e => Raise e
      | Ok y =>
          match for_each f l' with
          | Raise e => Raise e
          | Ok ys => Ok (y :: ys)
          end
      end
  end.

(** [for index, x in enumerate(l): ...] with a body that updates a
    value [st] and may raise. *)
Fixpoint for_enumerate {A S} (body : Z -> A -> S -> result S) (index : Z)
    (l : list A) (st : S) : result S :=
  match l with
  | [] => Ok st
  | x :: l' =>
      match body index x st with
      | Raise e => Raise e
      | Ok st' => for_enumerate body (index + 1) l' st'
      end
  end.

Definition newline : ascii := ascii_of_nat 10.
Definition NL : string := String newline "".

(** [len(s)] *)
Definition len (s : string) : Z := Z.of_nat (String.length s).

(** [s[:n]] for a string [s]: the first [n] characters when [n >= 0],
    all but the last [-n] characters when [n < 0]. *)
Definition slice_to (s : string) (n : Z) : string :=
  if 0 <=? n then String.substring 0 (Z.to_nat n) s
  else String.substring 0 (String.length s - Z.to_nat (- n)) s.

(** [str(n)] for an [int]. *)
Definition str_of_int (n : Z) : string :=
  NilZero.string_of_int (Z.to_int n).

(** [str.isspace] on one character *)
Definition is_space (c : ascii) : bool :=
  let n := nat_of_ascii c in
  ((9 <=? n) && (n <=? 13) || (28 <=? n) && (n <=? 32) || (n =? 133) || (n =? 160))%nat.

Fixpoint lstrip (s : string) : string :=
  match s with
  | String c s' => if is_space c then lstrip s' else s
  | EmptyString => EmptyString
  end.

Fixpoint rstrip (s : string) : string :=
  match s with
  | EmptyString => EmptyString
  | String c s' =>
      match rstrip s' with
      | EmptyString => if is_space c then EmptyString else String c EmptyString
      | r => String c r
      end
  end.

(** [s.strip()] *)
Definition strip (s : string) : string := rstrip (lstrip s).

Fixpoint replace_from (old new : string) (skip : nat) (s : string) : string :=
  match s with
  | EmptyString => EmptyString
  | String c s' =>
      match skip with
      | S n => replace_from old new n s'
      | O =>
          if String.prefix old s
          then new +:+ replace_from old new (String.length old - 1) s'
          else String c (replace_from old new 0 s')
      end
  end.

(** [s.replace(old, new)] for a non-empty [old]: the occurrences of
    [old] are replaced from left to right, without overlap. *)
Definition replace (s old new : string) : string := replace_from old new 0 s.

(** An operation on [str] given a value that may be [None]. *)
Definition require_str (x : option string) : result string :=
  match x with
  | Some s => Ok s
  | None => Raise TypeError
  end.

(** [l[:n]] for a list *)
Definition list_slice_to {A} (l : list A) (n : Z) : list A :=
  if 0 <=? n then take (Z.to_nat n) l
  else take (length l - Z.to_nat (- n)) l.

(** [int(p / q)] for integers [p] and [q]: the quotient truncated towards
    zero.  (The float quotient of Python truncates to the same integer
    as long as [p] stays below 2^50 in absolute value, far above any
    picture size.) *)
Definition int_div (p q : Z) : Z := Z.quot p q.

(** Plain bytes. *)
Definition bytes := list Byte.byte.

Definition is_digit (c : ascii) : bool :=
  let n := nat_of_ascii c in (48 <=? n)%nat && (n <=? 57)%nat.

Definition digit_value (c : ascii) : Z := Z.of_nat (nat_of_ascii c) - 48.

Fixpoint all_chars (p : ascii -> bool) (s : string) : bool :=
  match s with
  | EmptyString => true
  | String c s' => p c && all_chars p s'
  end.

Fixpoint digits_value (acc : Z) (s : string) : Z :=
  match s with
  | EmptyString => acc
  | String c s' => digits_value (10 * acc + digit_value c) s'
  end.

(** [sys.get_int_max_str_digits()]: the longest run of digits [int]
    converts (CPython 3.10.7 and later, by default). *)
Definition int_max_str_digits : Z := 4300.

(** [int(s)] on the text of a group of decimal digits; a run of more
    than [int_max_str_digits] digits is a [ValueError].  ([int] in Python
    also accepts a sign, surrounding blanks and underscores; no caller
    below passes such text.) *)
Definition int (s : option string) : result Z :=
  match s with
  | None => Raise TypeError
  | Some EmptyString => Raise ValueError
  | Some s =>
      if all_chars is_digit s then
        if int_max_str_digits <? len s then Raise ValueError
        else Ok (digits_value 0 s)
      else Raise ValueError
  end.

End py.

Global Instance result_ret : MRet py.result := @py.Ok.
Global Instance result_bind : MBind py.result := fun A B f c => py.bind c f.

(** ** The fragment of [re] the helpers use

    A backtracking matcher in continuation-passing style: alternatives are
    tried in the order [re] tries them (a greedy quantifier first takes
    the longer match, a lazy one the shorter), and the first complete match
    is the result. *)

Module re.

Inductive regex :=
| Lit (l : string)                      (* literal text *)
| Cls (p : ascii -> bool)               (* one character of a class *)
| Bol                                   (* ^ *)
| Eol                                   (* $ *)
| Cat (r1 r2 : regex)
| Alt (r1 r2 : regex)                   (* r1|r2 *)
| Opt (r : regex)                       (* r? *)
| Star (greedy : bool) (p : ascii -> bool)  (* c* and c*? on a class c *)
| Group (n : nat) (r : regex)           (* the n-th (...) *)
| Lookahead (r : regex).                (* (?=r) *)

(** [c+] and [c+?] *)
Definition Plus (greedy : bool) (p : ascii -> bool) : regex :=
  Cat (Cls p) (Star greedy p).

Definition seq (rs : list regex) : regex := foldr Cat (Lit "") rs.

(** [.] : any character but a newline. *)
Definition dot (c : ascii) : bool := negb (Ascii.eqb c py.newline).

(** [\d] *)
Definition digit : ascii -> bool := py.is_digit.

(** [\w] : letters, digits, the underscore; above U+007F the letters and
    numeric characters of Latin-1. *)
Definition word (c : ascii) : bool :=
  let n := nat_of_ascii c in
  ((48 <=? n) && (n <=? 57) || (65 <=? n) && (n <=? 90) || (97 <=? n) && (n <=? 122)
   || (n =? 95)
   || (n =? 170) || (n =? 178) || (n =? 179) || (n =? 181) || (n =? 185) || (n =? 186)
   || (188 <=? n) && (n <=? 190)
   || (192 <=? n) && (n <=? 214) || (216 <=? n) && (n <=? 246) || (248 <=? n))%nat.

(** [\s] *)
Definition space : ascii -> bool := py.is_space.

Fixpoint strip_prefix (l s : string) : option string :=
  match l, s with
  | EmptyString, _ => Some s
  | String a l', String b s' => if Ascii.eqb a b then strip_prefix l' s' else None
  | String _ _, EmptyString => None
  end.

Definition at_end (s : string) : bool :=
  match s with
  | EmptyString => true
  | String c EmptyString => Ascii.eqb c py.newline
  | _ => false
  end.

Abbreviation captures := (gmap nat string).

Section Matcher.
Context {R : Type}.

(** A continuation takes the position reached, the text that remains
    there and the groups captured so far. *)
Definition cont := nat -> string -> captures -> option R.

Fixpoint star_lazy (p : ascii -> bool) (k : cont) (i : nat) (s : string)
    (caps : captures) : option R :=
  match k i s caps with
  | Some x => Some x
  | None =>
      match s with
      | String c s' => if p c then star_lazy p k (S i) s' caps else None
      | EmptyString => None
      end
  end.

Fixpoint star_greedy (p : ascii -> bool) (k : cont) (i : nat) (s : string)
    (caps : captures) : option R :=
  match s with
  | String c s' =>
      if p c then
        match star_greedy p k (S i) s' caps with
        | Some x => Some x
        | None => k i s caps
        end
      else k i s caps
  | EmptyString => k i s caps
  end.

End Matcher.
Global Arguments cont R : clear implicits.

Fixpoint run {R : Type} (r : regex) (i : nat) (s : string) (caps : captures)
      (k : cont R) : option R :=
    match r with
    | Lit l =>
        match strip_prefix l s with
        | Some s' => k (i + String.length l)%nat s' caps
        | None => None
        end
    | Cls p =>
        match s with
        | String c s' => if p c then k (S i) s' caps else None
        | EmptyString => None
        end
    | Bol => if (i =? 0)%nat then k i s caps else None
    | Eol => if at_end s then k i s caps else None
    | Cat r1 r2 => run r1 i s caps (fun j s' caps' => run r2 j s' caps' k)
    | Alt r1 r2 =>
        match run r1 i s caps k with
        | Some x => Some x
        | None => run r2 i s caps k
        end
    | Opt r1 =>
        match run r1 i s caps k with
        | Some x => Some x
        | None => k i s caps
        end
    | Star true p => star_greedy p k i s caps
    | Star false p => star_lazy p k i s caps
    | Group n r1 =>
        run r1 i s caps
          (fun j s' caps' => k j s' (<[n := String.substring 0 (j - i) s]> caps'))
    | Lookahead r1 =>
        match run r1 i s caps (fun _ _ caps' => Some caps') with
        | Some caps' => k i s caps'
        | None => None
        end
    end.

(** The paths of the matcher, stated as a relation: from position [i]
    with [s] left to read, [r] can reach position [j] with [s'] left. *)
Fixpoint matches (r : regex) (i : nat) (s : string) (caps : captures)
    (j : nat) (s' : string) (caps' : captures) : Prop :=
  match r with
  | Lit l => s = l +:+ s' ∧ j = (i + String.length l)%nat ∧ caps' = caps
  | Cls p => (∃ c, s = String c s' ∧ p c = true) ∧ j = S i ∧ caps' = caps
  | Bol => i = 0%nat ∧ s' = s ∧ j = i ∧ caps' = caps
  | Eol => at_end s = true ∧ s' = s ∧ j = i ∧ caps' = caps
  | Cat r1 r2 =>
      ∃ j1 s1 caps1, matches r1 i s caps j1 s1 caps1 ∧ matches r2 j1 s1 caps1 j s' caps'
  | Alt r1 r2 => matches r1 i s caps j s' caps' ∨ matches r2 i s caps j s' caps'
  | Opt r1 => matches r1 i s caps j s' caps' ∨ (s' = s ∧ j = i ∧ caps' = caps)
  | Star _ p =>
      (∃ a, s = a +:+ s' ∧ py.all_chars p a = true ∧ j = (i + String.length a)%nat)
      ∧ caps' = caps
  | Group n r1 =>
      ∃ caps1, matches r1 i s caps j s' caps1
               ∧ caps' = <[n := String.substring 0 (j - i) s]> caps1
  | Lookahead r1 =>
      run r1 i s caps (fun _ _ c => Some c) = Some caps' ∧ s' = s ∧ j = i
  end.

(** A match object: its span and the text of its groups. *)
Record Match := { m_start : nat; m_end : nat; m_groups : captures }.

(** [m.group(n)] : [None] when the group took no part in the match. *)
Definition group (m : Match) (n : nat) : option string := m_groups m !! n.

Definition match_at (r : regex) (i : nat) (s : string) : option Match :=
  run r i s ∅ (fun j _ caps => Some {| m_start := i; m_end := j; m_groups := caps |}).

Fixpoint search_from (r : regex) (i : nat) (s : string) : option Match :=
  match match_at r i s with
  | Some m => Some m
  | None =>
      match s with
      | String _ s' => search_from r (S i) s'
      | EmptyString => None
      end
  end.

(** [re.search(r, text)] *)
Definition search (r : regex) (text : string) : option Match :=
  search_from r 0 text.

(** The scan of [re.sub]: at position [i], outside a match ([skip = 0]),
    the pattern is tried; a match is replaced by [repl] and its text
    skipped.  (A match of the empty text is replaced and the scan moves
    one character on; the patterns below match no empty text.) *)
Fixpoint sub_from (r : regex) (repl : string) (i skip : nat) (s : string) : string :=
  match skip with
  | S n =>
      match s with
      | String _ s' => sub_from r repl (S i) n s'
      | EmptyString => EmptyString
      end
  | O =>
      match match_at r i s with
      | Some m =>
          match (m_end m - i)%nat, s with
          | S n, String _ s' => repl +:+ sub_from r repl (S i) n s'
          | _, String c s' => repl +:+ String c (sub_from r repl (S i) 0 s')
          | _, EmptyString => repl
          end
      | None =>
          match s with
          | String c s' => String c (sub_from r repl (S i) 0 s')
          | EmptyString => EmptyString
          end
      end
  end.

(** [re.sub(r, repl, text)]; a [text] that is [None] is a [TypeError]. *)
Definition sub (r : regex) (repl : string) (text : option string) : py.result string :=
  match text with
  | Some s => py.Ok (sub_from r repl 0 0 s)
  | None => py.Raise py.TypeError
  end.

End re.

(** ** Collaborators outside the sources

    [helper.py] imports [HttpFetcher], [semaphore_gather], [BeautifulSoup],
    [PIL] and the pydantic models; their code is not part of the sources.
    What the helpers use of them is modelled here. *)

(** *** [bs4]: the parsed document *)

Module bs4.

(** An element with its attributes as written in the markup, or a run
    of text. *)
#[warnings="-register-all"]
Inductive Tag :=
| Element (name : string) (attrs : gmap string string) (contents : list Tag)
| NavigableString (text : string).

(** What a search asks of one attribute: a value, or [True] for any. *)
Inductive criterion :=
| Is (value : string)
| Present.

(** The values of a [class] attribute: its text cut at white space. *)
Fixpoint split_whitespace (word : string) (s : string) : list string :=
  match s with
  | EmptyString => match word with EmptyString => [] | _ => [word] end
  | String c s' =>
      if py.is_space c
      then match word with
           | EmptyString => split_whitespace EmptyString s'
           | _ => word :: split_whitespace EmptyString s'
           end
      else split_whitespace (word +:+ String c EmptyString) s'
  end.

(** [class] is held as a list of values; a search matches one of the
    values or all of them joined by blanks.  Every other attribute the
    helpers search for holds one string. *)
Definition attr_matches (name : string) (value : option string) (c : criterion) : bool :=
  match value, c with
  | None, _ => false
  | Some _, Present => true
  | Some v, Is x =>
      if String.eqb name "class" then
        let values := split_whitespace "" v in
        existsb (String.eqb x) values || String.eqb (String.concat " " values) x
      else String.eqb v x
  end.

Definition tag_matches (name : string) (attrs : list (string * criterion)) (t : Tag) : bool :=
  match t with
  | Element n a _ =>
      String.eqb n name && forallb (fun kc => attr_matches kc.1 (a !! kc.1) kc.2) attrs
  | NavigableString _ => false
  end.

(** The nodes below [t] in document order, each with the sibling that
    stands before it. *)
Fixpoint descendants (t : Tag) : list (Tag * option Tag) :=
  match t with
  | Element _ _ cs =>
      (fix below (prev : option Tag) (cs : list Tag) : list (Tag * option Tag) :=
         match cs with
         | [] => []
         | c :: cs' => (c, prev) :: descendants c ++ below (Some c) cs'
         end) None cs
  | NavigableString _ => []
  end.

(** [t.find_all(name=..., attrs=...)], keeping [previous_sibling] *)
Definition find_all_with_previous (t : Tag) (name : string)
    (attrs : list (string * criterion)) : list (Tag * option Tag) :=
  List.filter (fun tp => tag_matches name attrs tp.1) (descendants t).

(** [t.find_all(name=..., attrs=...)] *)
Definition find_all (t : Tag) (name : string) (attrs : list (string * criterion)) : list Tag :=
  (find_all_with_previous t name attrs).*1.

(** [t.find(name=..., attrs=...)], and [t.a] for [find t "a" []] *)
Definition find (t : Tag) (name : string) (attrs : list (string * criterion)) : option Tag :=
  head (find_all t name attrs).

(** [x.find(name=..., attrs=...)] on the [previous_sibling] [x] of a
    node: [None] has no [find], and the [find] of a run of text is
    [str.find], which takes no such arguments. *)
Definition find_in_sibling (x : option Tag) (name : string)
    (attrs : list (string * criterion)) : py.result (option Tag) :=
  match x with
  | None => py.Raise py.AttributeError
  | Some (NavigableString _) => py.Raise py.TypeError
  | Some t => py.Ok (find t name attrs)
  end.

Definition attrs_of (t : Tag) : gmap string string :=
  match t with
  | Element _ a _ => a
  | NavigableString _ => ∅
  end.

(** [t.attrs.get(key)] and [t.get(key, None)] *)
Definition get (t : Tag) (key : string) : option string := attrs_of t !! key.

(** [t.attrs[key]] *)
Definition item (t : Tag) (key : string) : py.result string :=
  match attrs_of t !! key with
  | Some v => py.Ok v
  | None => py.Raise (py.KeyError key)
  end.

Fixpoint strings (t : Tag) : list string :=
  match t with
  | Element _ _ cs => flat_map strings cs
  | NavigableString s => [s]
  end.

(** [t.get_text()] *)
Definition get_text (t : Tag) : string := String.concat "" (strings t).

(** [t.get_text(strip=True)] *)
Definition get_text_strip (t : Tag) : string :=
  String.concat ""
    (List.filter (fun x => negb (String.eqb x "")) (map py.strip (strings t))).

End bs4.

(** *** [PIL]: pictures as the calls that build them *)

Module PIL.

Definition color := list Z.

(** [ImageFont.truetype(file, size)] *)
Record FreeTypeFont := truetype { font_file : string; font_size : Z }.

#[warnings="-register-all"]
Inductive Image :=
| New (mode : string) (size : Z * Z) (fill : color)          (* Image.new *)
| Open (data : py.bytes)                                     (* Image.open *)
| Resize (im : Image) (size : Z * Z)
| Convert (im : Image) (mode : string)
| RoundedRectangle (im : Image) (xy : Z * Z * Z * Z) (radius : Z) (fill : color)
| Ellipse (im : Image) (xy : Z * Z * Z * Z) (fill : color)
| Rectangle (im : Image) (xy : (Z * Z) * (Z * Z)) (fill : color) (width : Z)
| Text (im : Image) (xy : Z * Z) (font : FreeTypeFont) (text : string) (fill : color)
| MultilineText (im : Image) (xy : Z * Z) (font : FreeTypeFont) (text : string)
    (fill : color)
| Paste (im : Image) (src : Image) (box : Z * Z) (mask : option Image).

(** [im.size], given the size of a decoded picture *)
Fixpoint size (decoded_size : py.bytes -> option (Z * Z)) (im : Image) : Z * Z :=
  match im with
  | New _ sz _ => sz
  | Open data => default (0, 0) (decoded_size data)
  | Resize _ sz => sz
  | Convert im' _ => size decoded_size im'
  | RoundedRectangle im' _ _ _ => size decoded_size im'
  | Ellipse im' _ _ => size decoded_size im'
  | Rectangle im' _ _ _ => size decoded_size im'
  | Text im' _ _ _ _ => size decoded_size im'
  | MultilineText im' _ _ _ _ => size decoded_size im'
  | Paste im' _ _ _ => size decoded_size im'
  end.

(** [Image.new(mode, size, color)]: a negative side is a [ValueError]. *)
Definition new (mode : string) (size : Z * Z) (fill : color) : py.result Image :=
  if (size.1 <? 0) || (size.2 <? 0) then py.Raise py.ValueError
  else py.Ok (New mode size fill).

(** [im.resize(size)], given the size of a decoded picture: a picture
    that has the size asked for is copied; for any other a side that is
    not positive is a [ValueError]. *)
Definition resize (decoded_size : py.bytes -> option (Z * Z)) (im : Image)
    (new_size : Z * Z) : py.result Image :=
  if decide (size decoded_size im = new_size) then py.Ok (Resize im new_size)
  else if (new_size.1 <=? 0) || (new_size.2 <=? 0) then py.Raise py.ValueError
  else py.Ok (Resize im new_size).

(** The pictures pasted onto [im] without a mask, first to last, each
    with its box. *)
Fixpoint tiles (im : Image) : list (Image * (Z * Z)) :=
  match im with
  | New _ _ _ | Open _ => []
  | Resize im' _ | Convert im' _ => tiles im'
  | RoundedRectangle im' _ _ _ | Ellipse im' _ _ | Rectangle im' _ _ _
  | Text im' _ _ _ _ | MultilineText im' _ _ _ _ => tiles im'
  | Paste im' src box None => tiles im' ++ [(src, box)]
  | Paste im' _ _ (Some _) => tiles im'
  end.

End PIL.

(** *** The world around the helpers *)

Module model.

(** What [HttpFetcher.get_bytes] returns. *)
Module fetcher.
Record HttpFetcherBytesResult := { status : Z; result : py.bytes }.
End fetcher.

(** [model/artwork.py]; [PreviewImageThumbs] and [PreviewImageModel] of
    [omega_miya.utils.image_utils] by the fields [helper.py] gives them. *)
Module artwork.
Record PixivArtworkPreviewRequestModel := { desc_text : string; request_url : string }.
Record PixivArtworkPreviewBody := { thumb_desc_text : string; preview_thumb : py.bytes }.
Record PixivArtworkPreviewModel :=
  { preview_name : string; count : Z; previews : list PixivArtworkPreviewBody }.
End artwork.

(** [model/user.py], by the keys [parse_user_searching_result_page]
    fills. *)
Module user.
Record PixivUserSearchingBody :=
  { user_id : string; user_name : string; user_head_url : string;
    user_illust_count : string; user_desc : string;
    illusts_thumb_urls : list string }.
Record PixivUserSearchingModel :=
  { search_name : string; count : string; users : list PixivUserSearchingBody }.
End user.

(** [model/pixivision.py], by the keys [parse_pixivision_article_page]
    fills; a value read with [attrs.get] may be [None]. *)
Module pixivision.
Record PixivisionArticleTag :=
  { tag_id : string; tag_name : option string; tag_url : string }.
Record PixivisionArticleArtwork :=
  { artwork_id : option Z; artwork_user : string; artwork_title : string;
    artwork_url : option string; image_url : option string }.
Record PixivisionArticle :=
  { title : string; description : string; eyecatch_image : option string;
    artwork_list : list PixivisionArticleArtwork;
    tags_list : list PixivisionArticleTag }.
End pixivision.

End model.

(** [omega_miya.local_resource]: a file of the temporary folder, here by
    its name and the bytes written to it. *)
Module local_resource.
Record TmpResource := { file_name : string; content : py.bytes }.
End local_resource.

(** Everything the helpers reach for outside their arguments: the remote
    site, the parser, the decoder and the encoder of pictures, the fonts,
    the validation of the pydantic models, the configuration, the folder
    of the files and the clock. *)
Record Env := {
  (** [HttpFetcher(timeout=45, headers=..., cookies=...).get_bytes(url, params)] *)
  get_bytes : string -> option (list (string * string)) ->
              py.result model.fetcher.HttpFetcherBytesResult;
  (** [BeautifulSoup(content, 'lxml')] *)
  BeautifulSoup : string -> bs4.Tag;
  (** [Image.open(BytesIO(data))] followed by [load()]: the size of the
      picture, or the exception raised, [UnidentifiedImageError] for data
      that is no picture, [OSError] for a picture that is cut short *)
  image_open : py.bytes -> py.result (Z * Z);
  (** [ImageFont.truetype(file, size)]: the exception it raises, if any
      (a file that is missing, a size that FreeType refuses) *)
  font_error : PIL.FreeTypeFont -> option py.exception;
  (** whether [ImageDraw] draws into the box [(x0, y0, x1, y1)]: every
      release does for [x0 <= x1] and [y0 <= y1]; the later ones answer
      any other box with a [ValueError] *)
  draws : Z * Z * Z * Z -> bool;
  (** [im.save(bf, format)] and [bf.getvalue()]: the bytes of the file, or
      the exception of the encoder (JPEG takes no picture that is empty
      or has a side above 65500) *)
  save : PIL.Image -> string -> py.result py.bytes;
  (** [default_preview_img_folder(name).async_open('wb')] and [write] *)
  write : string -> py.bytes -> py.result unit;
  (** [font.getsize(text)] and [font.getsize_multiline(text)] *)
  getsize : PIL.FreeTypeFont -> string -> Z * Z;
  getsize_multiline : PIL.FreeTypeFont -> string -> Z * Z;
  (** [TextUtils(text).split_multiline(width, font).text] *)
  split_multiline : string -> Z -> PIL.FreeTypeFont -> string;
  (** [PixivUserSearchingModel.parse_obj], [PixivisionArticle.parse_obj] *)
  validate_user_searching : model.user.PixivUserSearchingModel ->
                            py.result model.user.PixivUserSearchingModel;
  validate_article : model.pixivision.PixivisionArticle ->
                     py.result model.pixivision.PixivisionArticle;
  (** [int(width / pixiv_resource_config.user_searching_card_ratio)] *)
  card_height : Z -> Z;
  (** [pixiv_resource_config.user_searching_card_num] *)
  user_searching_card_num : Z;
  (** [pixiv_resource_config.default_font_file.resolve_path] *)
  default_font_file : string;
  (** [datetime.now().strftime('%Y-%m-%d-%H-%M-%S')] *)
  now : string
}.

(** The size of the picture in [data], when it decodes. *)
Definition decoded_size (env : Env) (data : py.bytes) : option (Z * Z) :=
  match image_open env data with
  | py.Ok size => Some size
  | py.Raise _ => None
  end.

(** *** [omega_miya.utils.process_utils] *)

Module process_utils.

(** Modelled from the spec: [semaphore_gather], of
    [omega_miya/utils/process_utils.py], which is not among the sources.
    The specification (4.3, 5) has all tasks of a batch issued together
    under a cap of [semaphore_num] tasks in flight, every task owning its
    result slot, and the slots delivered in the order of the tasks, not
    of their completion.  A slot holds what its task returned or the
    exception it raised; with [filter_exception] the slots that hold an
    exception are removed and the others keep their order. *)
Definition semaphore_gather {A} (tasks : list (py.result A)) (semaphore_num : Z)
    (filter_exception : bool) : list (py.result A) :=
  if filter_exception
  then List.filter (fun slot => match slot with py.Ok _ => true | py.Raise _ => false end)
         tasks
  else tasks.

End process_utils.

(** ** [helper.py] *)

Module helper.
Import py re.

(** [r'^https?://.*?pixiv\.net/(artworks|i)/(\d+?)$'] *)
Definition url_new_strict : regex :=
  seq [Bol; Lit "http"; Opt (Lit "s"); Lit "://"; Star false dot; Lit "pixiv.net/";
       Group 1 (Alt (Lit "artworks") (Lit "i")); Lit "/"; Group 2 (Plus false digit); Eol].

(** [r'^https?://.*?pixiv\.net.*?illust_id=(\d+?)(&mode=\w+?)?$'] *)
Definition url_old_strict : regex :=
  seq [Bol; Lit "http"; Opt (Lit "s"); Lit "://"; Star false dot; Lit "pixiv.net";
       Star false dot; Lit "illust_id="; Group 1 (Plus false digit);
       Opt (Group 2 (Cat (Lit "&mode=") (Plus false word))); Eol].

(** [r'https?://.*?pixiv\.net/(artworks|i)/(\d+)'] *)
Definition url_new_loose : regex :=
  seq [Lit "http"; Opt (Lit "s"); Lit "://"; Star false dot; Lit "pixiv.net/";
       Group 1 (Alt (Lit "artworks") (Lit "i")); Lit "/"; Group 2 (Plus true digit)].

(** [r'https?://.*?pixiv\.net.*?illust_id=(\d+)'] *)
Definition url_old_loose : regex :=
  seq [Lit "http"; Opt (Lit "s"); Lit "://"; Star false dot; Lit "pixiv.net";
       Star false dot; Lit "illust_id="; Group 1 (Plus true digit)].

Definition parse_pid_from_url (text : string) (url_mode : bool) : result (option Z) :=
  if url_mode then
    match search url_new_strict text with
    | Some url_new => pid ← int (group url_new 2); Ok (Some pid)
    | None =>
        match search url_old_strict text with
        | Some url_old => pid ← int (group url_old 1); Ok (Some pid)
        | None => Ok None
        end
    end
  else
    match search url_new_loose text with
    | Some url_new => pid ← int (group url_new 2); Ok (Some pid)
    | None =>
        match search url_old_loose text with
        | Some url_old => pid ← int (group url_old 1); Ok (Some pid)
        | None => Ok None
        end
    end.

(** *** Fetching *)

Definition _get_pixiv_resource (env : Env) (url : string)
    (params : option (list (string * string))) : result bytes :=
  _content ← get_bytes env url params;
  if negb (model.fetcher.status _content =? 200)
  then Raise (PixivNetworkError
                ("PixivNetworkError, status code "
                   +:+ str_of_int (model.fetcher.status _content)))
  else Ok (model.fetcher.result _content).

(** *** Markup extractors *)

Import bs4.

(** One round of the comprehension over [user_illust_elms]: the
    [data-src] of the link of the item, [None] when it has none. *)
Definition illust_thumb_url (user_illust_elm : Tag) : result (option string) :=
  a ← deref (find user_illust_elm "a" []);
  Ok (get a "data-src").

Definition illusts_thumb_urls_of (user_illust_elms : list Tag) : result (list string) :=
  found ← for_each illust_thumb_url user_illust_elms;
  Ok (omap id (found : list (option string))).

Definition CRLF : string := String (ascii_of_nat 13) (String (ascii_of_nat 10) "").

(** The body of the loop over [users_bs]. *)
Definition parse_user (user_bs : Tag) : result model.user.PixivUserSearchingBody :=
  user_head_elm ← deref (find user_bs "a"
      [("class", Is "_user-icon size-128 cover-texture ui-scroll-view");
       ("target", Is "_blank"); ("title", Present); ("data-filter", Is "lazy-image")]);
  user_head_url ← item user_head_elm "data-src";
  user_name_elm ← deref (find user_bs "h1" []);
  user_name_a ← deref (find user_name_elm "a" []);
  let user_name := get_text user_name_a in
  href ← item user_name_a "href";
  let user_id := replace href "/users/" "" in
  user_illust_count_elm ← deref (find user_bs "dl" [("class", Is "meta inline-list")]);
  dd ← deref (find user_illust_count_elm "dd" []);
  dd_a ← deref (find dd "a" []);
  let user_illust_count := get_text dd_a in
  user_desc_elm ← deref (find user_bs "p" [("class", Is "caption")]);
  let user_desc := replace (get_text user_desc_elm) CRLF " " in
  let user_illust_elms := find_all user_bs "li" [("class", Is "action-open-thumbnail")] in
  illusts_thumb_urls ← illusts_thumb_urls_of user_illust_elms;
  Ok {| model.user.user_id := user_id;
        model.user.user_name := user_name;
        model.user.user_head_url := user_head_url;
        model.user.user_illust_count := user_illust_count;
        model.user.user_desc := user_desc;
        model.user.illusts_thumb_urls := illusts_thumb_urls |}.

Definition parse_user_searching_result_page (env : Env) (content : string)
    : result model.user.PixivUserSearchingModel :=
  let search_page_bs := BeautifulSoup env content in
  title_bs ← deref (find search_page_bs "div" [("class", Is "column-header")]);
  title_h1 ← deref (find title_bs "h1" [("class", Is "column-title")]);
  let title := get_text title_h1 in
  count_span ← deref (find title_bs "span" [("class", Is "count-badge")]);
  let count := get_text count_span in
  let users_bs := find_all search_page_bs "li" [("class", Is "user-recommendation-item")] in
  user_list ← for_each parse_user users_bs;
  validate_user_searching env
    {| model.user.search_name := title;
       model.user.count := count;
       model.user.users := user_list |}.

(** [r'^/zh/t/(?=\d+)'] *)
Definition tag_id_prefix : regex :=
  seq [Bol; Lit "/zh/t/"; Lookahead (Plus true digit)].

(** The body of the loop over [tag_tag]. *)
Definition parse_tag (root_url : string) (tag : Tag)
    : result model.pixivision.PixivisionArticleTag :=
  let tag_name := get tag "data-gtm-label" in
  let tag_rela_url := get tag "href" in
  tag_id ← re.sub tag_id_prefix "" tag_rela_url;
  rela ← require_str tag_rela_url;
  let tag_url := root_url +:+ rela in
  Ok {| model.pixivision.tag_id := tag_id;
        model.pixivision.tag_name := tag_name;
        model.pixivision.tag_url := tag_url |}.

(** The body of the loop over [article_illusts]; [item] comes with its
    [previous_sibling]. *)
Definition parse_artwork (item_prev : Tag * option Tag)
    : result model.pixivision.PixivisionArticleArtwork :=
  let item := item_prev.1 in
  let artwork_info := item_prev.2 in
  user_p ← find_in_sibling artwork_info "p" [("class", Is "am__work__user-name")];
  user_p ← deref user_p;
  user_a ← deref (find user_p "a"
      [("class", Is "author-img-container inner-link"); ("target", Is "_blank")]);
  let artwork_user_name := get_text user_a in
  title_h3 ← find_in_sibling artwork_info "h3" [("class", Is "am__work__title")];
  title_h3 ← deref title_h3;
  let artwork_title := get_text title_h3 in
  link ← deref (find item "a" [("class", Is "inner-link")]);
  let artwork_url := get link "href" in
  text ← require_str artwork_url;
  artwork_id ← parse_pid_from_url text true;
  img ← deref (find item "img" [("class", Is "am__work__illust")]);
  let image_url := get img "src" in
  Ok {| model.pixivision.artwork_id := artwork_id;
        model.pixivision.artwork_user := artwork_user_name;
        model.pixivision.artwork_title := artwork_title;
        model.pixivision.artwork_url := artwork_url;
        model.pixivision.image_url := image_url |}.

Definition parse_pixivision_article_page (env : Env) (content root_url : string)
    : result model.pixivision.PixivisionArticle :=
  let page_bs := BeautifulSoup env content in
  article_main ← deref (find page_bs "div" [("class", Is "_article-main")]);
  title_h1 ← deref (find article_main "h1" [("class", Is "am__title")]);
  let article_title := get_text_strip title_h1 in
  description_div ← deref (find article_main "div"
      [("class", Is "am__description _medium-editor-text")]);
  let article_description := get_text_strip description_div in
  let article_eyecatch :=
    find article_main "div" [("class", Is "_article-illust-eyecatch")] in
  article_eyecatch_image ←
    match article_eyecatch with
    | None => Ok None
    | Some eyecatch => img ← deref (find eyecatch "img" []); Ok (get img "src")
    end;
  let tag_tag :=
    match find page_bs "ul" [("class", Is "_tag-list")] with
    | None => []
    | Some tag_ul => find_all tag_ul "a" []
    end in
  tags_list ← for_each (parse_tag root_url) tag_tag;
  article_body ← deref (find article_main "div" [("class", Is "am__body")]);
  let feature_article_body :=
    find article_body "div" [("class", Is "_feature-article-body")] in
  article_description ←
    match feature_article_body with
    | Some _ =>
        paragraph ← deref (find article_main "div"
            [("class", Is "fab__paragraph _medium-editor-text")]);
        Ok (get_text_strip paragraph)
    | None => Ok article_description
    end;
  let article_illusts :=
    find_all_with_previous article_body "div" [("class", Is "am__work__main")] in
  artwork_list ← for_each parse_artwork article_illusts;
  validate_article env
    {| model.pixivision.title := article_title;
       model.pixivision.description := article_description;
       model.pixivision.eyecatch_image := article_eyecatch_image;
       model.pixivision.artwork_list := artwork_list;
       model.pixivision.tags_list := tags_list |}.

(** *** Card and grid composers *)

Import PIL.

(** ['UID：'], ['插画投稿数：'], ['Pixiv 用户搜索：'] and [' - 共'];
    characters beyond U+00FF stand in their UTF-8 encoding. *)
Definition uid_label : string := "UID：".
Definition illust_count_label : string := "插画投稿数：".
Definition search_title_label : string := "Pixiv 用户搜索：".
Definition search_total_label : string := " - 共".

(** [Image.open(BytesIO(data))] followed by [load()] *)
Definition open_image (env : Env) (data : bytes) : result Image :=
  _size ← image_open env data;
  Ok (Open data).

(** [ImageFont.truetype(file, size)] *)
Definition truetype (env : Env) (file : string) (size : Z) : result FreeTypeFont :=
  match font_error env (PIL.truetype file size) with
  | Some e => Raise e
  | None => Ok (PIL.truetype file size)
  end.

(** [ImageDraw.Draw(im).rounded_rectangle(xy, radius, fill)],
    [ImageDraw.Draw(im).ellipse(xy, fill)] and
    [ImageDraw.Draw(im).rectangle(xy, fill, width)] *)
Definition rounded_rectangle (env : Env) (im : Image) (xy : Z * Z * Z * Z) (radius : Z)
    (fill : color) : result Image :=
  if draws env xy then Ok (RoundedRectangle im xy radius fill) else Raise ValueError.
Definition ellipse (env : Env) (im : Image) (xy : Z * Z * Z * Z) (fill : color)
    : result Image :=
  if draws env xy then Ok (Ellipse im xy fill) else Raise ValueError.
Definition rectangle (env : Env) (im : Image) (xy : (Z * Z) * (Z * Z)) (fill : color)
    (width : Z) : result Image :=
  if draws env (xy.1.1, xy.1.2, xy.2.1, xy.2.2) then Ok (Rectangle im xy fill width)
  else Raise ValueError.

(** The lengths [_handle_generate_card] derives from the width. *)
Definition card_user_head_width (env : Env) (width : Z) : Z :=
  int_div (card_height env width * 5) 6.
Definition card_thumb_img_width (env : Env) (width : Z) : Z :=
  card_user_head_width env width.
Definition card_spacing_width (env : Env) (width : Z) : Z :=
  int_div (card_height env width - card_user_head_width env width) 2.
(** the width of head picture and texts, where the first preview starts *)
Definition card_thumbs_left (env : Env) (width : Z) : Z :=
  card_spacing_width env width * 6 + card_user_head_width env width
    + int_div (3 * card_height env width) 2.

(** One round of the loop over [user_illusts_thumb[:4]]. *)
Definition paste_illust_thumb (env : Env) (width : Z) (_index : Z)
    (_illusts_thumb : result bytes) (_background : Image) : result Image :=
  let _thumb_img_width := card_thumb_img_width env width in
  let _spacing_width := card_spacing_width env width in
  let left := card_thumbs_left env width in
  _thumb_img ←
    match _illusts_thumb with
    | Raise _ =>
        PIL.new "RGB" (_thumb_img_width, _thumb_img_width) [127; 127; 127]
    | Ok data =>
        _thumb_img ← open_image env data;
        _thumb_img ← PIL.resize (decoded_size env) _thumb_img
                       (_thumb_img_width, _thumb_img_width);
        Ok (Convert _thumb_img "RGB")
    end;
  _background ←
    rectangle env _background
      ((left + _index * (_thumb_img_width + _spacing_width)
          - int_div _thumb_img_width 80,
        _spacing_width - int_div _thumb_img_width 80),
       (left + _index * (_thumb_img_width + _spacing_width) + _thumb_img_width
          + int_div _thumb_img_width 96,
        _spacing_width + _thumb_img_width + int_div _thumb_img_width 96))
      [224; 224; 224] 0;
  Ok (Paste _background _thumb_img
        (left + _index * (_thumb_img_width + _spacing_width), _spacing_width) None).

Definition _handle_generate_card (env : Env) (user : model.user.PixivUserSearchingBody)
    (width : Z) (user_head : bytes) (user_illusts_thumb : list (result bytes))
    : result Image :=
  let _height := card_height env width in
  let _font_main_size := int_div _height 8 in
  let _font_desc_size := int_div _height 12 in
  _font_main ← truetype env (default_font_file env) _font_main_size;
  _font_desc ← truetype env (default_font_file env) _font_desc_size;
  _background ← PIL.new "RGB" (width, _height) [255; 255; 255];
  let _user_head_width := card_user_head_width env width in
  let _spacing_width := card_spacing_width env width in
  _background ←
    rounded_rectangle env _background
      (int_div _spacing_width 4, int_div _spacing_width 4,
       int_div (4 * width - _spacing_width) 4, int_div (4 * _height - _spacing_width) 4)
      (int_div _height 12) [228; 250; 255];
  _user_head_img ← open_image env user_head;
  _user_head_img ← PIL.resize (decoded_size env) _user_head_img
                     (_user_head_width, _user_head_width);
  let _user_head_img := Convert _user_head_img "RGBA" in
  _user_head_mask ←
    PIL.new "RGBA" (_user_head_width, _user_head_width) [255; 255; 255; 0];
  _user_head_mask ←
    ellipse env _user_head_mask (0, 0, _user_head_width, _user_head_width) [0; 0; 0; 255];
  let _background :=
    Paste _background _user_head_img (_spacing_width * 2, _spacing_width)
      (Some _user_head_mask) in
  let _background :=
    Text _background (_spacing_width * 4 + _user_head_width, int_div (3 * _spacing_width) 2)
      _font_main (model.user.user_name user) [0; 0; 0] in
  let _name_text_h := (getsize env _font_main (model.user.user_name user)).2 in
  let _uid_text := uid_label +:+ model.user.user_id user in
  let _uid_text_h := (getsize env _font_desc _uid_text).2 in
  let _background :=
    Text _background
      (_spacing_width * 4 + _user_head_width, _name_text_h + int_div (7 * _spacing_width) 4)
      _font_desc _uid_text [37; 143; 184] in
  let _count_text := illust_count_label +:+ model.user.user_illust_count user in
  let _count_text_h := (getsize env _font_desc _count_text).2 in
  let _background :=
    Text _background
      (_spacing_width * 4 + _user_head_width,
       _name_text_h + _uid_text_h + int_div (9 * _spacing_width) 4)
      _font_desc _count_text [37; 143; 184] in
  let _desc_text :=
    split_multiline env (model.user.user_desc user) (int_div (3 * _height) 2) _font_desc in
  let _background :=
    MultilineText _background
      (_spacing_width * 4 + _user_head_width,
       _name_text_h + _uid_text_h + _count_text_h + int_div (11 * _spacing_width) 4)
      _font_desc _desc_text [0; 0; 0] in
  for_enumerate (paste_illust_thumb env width) 0 (take 4 user_illusts_thumb) _background.

Definition _generate_user_searching_result_card (env : Env)
    (user : model.user.PixivUserSearchingBody) (width : Z) : result Image :=
  user_head ← _get_pixiv_resource env (model.user.user_head_url user) None;
  let user_illusts_thumb :=
    process_utils.semaphore_gather
      (map (fun url => _get_pixiv_resource env url None)
         (model.user.illusts_thumb_urls user))
      10 false in
  _handle_generate_card env user width user_head user_illusts_thumb.

(** One round of the loop over [cards]. *)
Definition paste_card (_spacing_width _title_text_h _card_height : Z) (_index : Z)
    (_card : result Image) (_background : Image) : result Image :=
  match _card with
  | Ok card =>
      Ok (Paste _background card
            (_spacing_width,
             _spacing_width * 2 + _title_text_h + (_card_height + _spacing_width) * _index)
            None)
  | Raise _ => Raise TypeError
  end.

(** [_background] of [_handle_generate_image], as it is when the loop
    over the cards is left. *)
Definition _background_of_cards (env : Env)
    (searching : model.user.PixivUserSearchingModel) (width : Z)
    (cards : list (result Image)) : result Image :=
  let _card_height := card_height env width in
  let _spacing_width := int_div _card_height 12 in
  let _font_title_size := int_div _card_height 6 in
  _font_title ← truetype env (default_font_file env) _font_title_size;
  let _title_text :=
    search_title_label +:+ model.user.search_name searching
      +:+ search_total_label +:+ model.user.count searching in
  let _title_text_h := (getsize_multiline env _font_title _title_text).2 in
  let _height :=
    (_card_height + _spacing_width) * Z.of_nat (length cards)
      + _title_text_h + 3 * _spacing_width in
  _background ← PIL.new "RGB" (width + _spacing_width * 2, _height) [255; 255; 255];
  let _background :=
    Text _background (_spacing_width * 2, _spacing_width) _font_title _title_text
      [37; 143; 184] in
  for_enumerate (paste_card _spacing_width _title_text_h _card_height) 0 cards _background.

Definition _handle_generate_image (env : Env)
    (searching : model.user.PixivUserSearchingModel) (width : Z)
    (cards : list (result Image)) : result bytes :=
  _background ← _background_of_cards env searching width cards;
  save env _background "JPEG".

Definition generate_user_searching_result_image (env : Env)
    (searching : model.user.PixivUserSearchingModel) (width : Z)
    : result local_resource.TmpResource :=
  let users :=
    list_slice_to (model.user.users searching) (user_searching_card_num env) in
  let tasks := map (fun user => _generate_user_searching_result_card env user width) users in
  let cards := process_utils.semaphore_gather tasks 10 true in
  image_content ← _handle_generate_image env searching width cards;
  let image_file_name :=
    "preview_search_user_" +:+ model.user.search_name searching +:+ "_" +:+ now env
      +:+ ".jpg" in
  _ ← write env image_file_name image_content;
  Ok {| local_resource.file_name := image_file_name;
        local_resource.content := image_content |}.

(** *** Preview requests *)

Definition _request_preview_body (env : Env)
    (request : model.artwork.PixivArtworkPreviewRequestModel)
    : result model.artwork.PixivArtworkPreviewBody :=
  _request_data ← _get_pixiv_resource env (model.artwork.request_url request) None;
  Ok {| model.artwork.thumb_desc_text := model.artwork.desc_text request;
        model.artwork.preview_thumb := _request_data |}.

(** [PixivArtworkPreviewModel(preview_name=..., count=..., previews=...)]:
    a slot that holds an exception is no preview body, and the
    validation of the model refuses it. *)
Definition PixivArtworkPreviewModel (preview_name : string) (count : Z)
    (previews : list (result model.artwork.PixivArtworkPreviewBody))
    : result model.artwork.PixivArtworkPreviewModel :=
  bodies ← for_each (fun slot =>
                       match slot with
                       | Ok body => Ok body
                       | Raise _ => Raise ValidationError
                       end) previews;
  Ok {| model.artwork.preview_name := preview_name;
        model.artwork.count := count;
        model.artwork.previews := bodies |}.

Definition _request_preview_model (env : Env) (preview_name : string)
    (requests : list model.artwork.PixivArtworkPreviewRequestModel)
    : result model.artwork.PixivArtworkPreviewModel :=
  let _tasks := map (_request_preview_body env) requests in
  let _requests_data := process_utils.semaphore_gather _tasks 30 true in
  let count := Z.of_nat (length _requests_data) in
  PixivArtworkPreviewModel preview_name count _requests_data.

(** A [pid] is an [int] or a [str]. *)
Inductive int_or_str :=
| Int (n : Z)
| Str (s : string).

(** [f"{pid}"] *)
Definition format_value (pid : int_or_str) : string :=
  match pid with
  | Int n => str_of_int n
  | Str s => s
  end.

(** [num_lmt] is a keyword argument with the default 13. *)
Definition num_lmt_default : Z := 13.

Definition format_artwork_preview_desc (pid : int_or_str) (title uname : string)
    (num_lmt : Z) : string :=
  let pid_text := "Pid: " +:+ format_value pid in
  let title_text :=
    if len title >? num_lmt then slice_to title num_lmt +:+ "..." else title in
  let author_text := "Author: " +:+ uname in
  let author_text :=
    if len author_text >? num_lmt then slice_to author_text num_lmt +:+ "..."
    else author_text in
  pid_text +:+ NL +:+ title_text +:+ NL +:+ author_text.

End helper.

(** ** The URL shapes the specification names

    These two definitions follow the words of the specification, not the
    code: a path-style page URL and a legacy query-string page URL. *)

Module url_shape.

(** [{scheme}://{...}pixiv.net/{artworks|i}/{id}] *)
Definition path_style (scheme host kind id : string) : string :=
  scheme +:+ "://" +:+ host +:+ "pixiv.net/" +:+ kind +:+ "/" +:+ id.


Definition scheme_ok (scheme : string) : Prop := scheme = "http" ∨ scheme = "https".
Definition kind_ok (kind : string) : Prop := kind = "artworks" ∨ kind = "i".
(** no line break inside a URL *)
Definition one_line (s : string) : Prop := py.all_chars re.dot s = true.
Definition id_ok (id : string) : Prop := id ≠ "" ∧ py.all_chars re.digit id = true.
Definition tail_ok (tail : string) : Prop :=
  tail = "" ∨ ∃ w, tail = "&mode=" +:+ w ∧ w ≠ "" ∧ py.all_chars re.word w = true.

End url_shape.

(** ** Words of the specification, and a sample world

    The definitions of [spec] follow the words of the specification;
    [sample] is a small world on which the helpers are run. *)

Module spec.
Import py.

(** [ceil(a / b)] *)
Definition ceil_div (a b : Z) : Z := (a + b - 1) / b.

(** The user-search grid puts one card on a row. *)
Definition cards_per_row : Z := 1.

(** The fetch of the picture of a request succeeded. *)
Definition fetched (env : Env) (request : model.artwork.PixivArtworkPreviewRequestModel)
    : bool :=
  match helper._get_pixiv_resource env (model.artwork.request_url request) None with
  | Ok _ => true
  | Raise _ => false
  end.

(** What a request becomes in the batch: its body when the fetch
    succeeded, nothing when it failed. *)
Definition preview_of (env : Env)
    (request : model.artwork.PixivArtworkPreviewRequestModel)
    : option model.artwork.PixivArtworkPreviewBody :=
  match helper._get_pixiv_resource env (model.artwork.request_url request) None with
  | Ok data =>
      Some {| model.artwork.thumb_desc_text := model.artwork.desc_text request;
              model.artwork.preview_thumb := data |}
  | Raise _ => None
  end.

(** The tile the card shows for a slot of the gathered previews: a grey
    square for a slot that holds an exception, the fetched picture
    brought to the same square otherwise. *)
Definition thumb_tile (env : Env) (width : Z) (slot : result bytes) : PIL.Image :=
  let w := helper.card_thumb_img_width env width in
  match slot with
  | Raise _ => PIL.New "RGB" (w, w) [127; 127; 127]
  | Ok data => PIL.Convert (PIL.Resize (PIL.Open data) (w, w)) "RGB"
  end.

(** The box of the tile at [index]: the tiles stand side by side, one
    tile and one spacing apart. *)
Definition thumb_box (env : Env) (width : Z) (index : Z) : Z * Z :=
  (helper.card_thumbs_left env width
     + index * (helper.card_thumb_img_width env width
                + helper.card_spacing_width env width),
   helper.card_spacing_width env width).

Fixpoint thumb_tiles (env : Env) (width : Z) (index : Z) (slots : list (result bytes))
    : list (PIL.Image * (Z * Z)) :=
  match slots with
  | [] => []
  | slot :: slots' =>
      (thumb_tile env width slot, thumb_box env width index)
        :: thumb_tiles env width (index + 1) slots'
  end.

(** The [data-src] of the link of a preview item, when it has both. *)
Definition thumb_data_src (user_illust_elm : bs4.Tag) : option string :=
  match bs4.find user_illust_elm "a" [] with
  | Some a => bs4.get a "data-src"
  | None => None
  end.

(** A character that is not [c]. *)
Definition no_char (c : ascii) : ascii → bool := fun x => negb (Ascii.eqb x c).

(** [first] is the text of the first [n] characters of [s]. *)
Definition first_chars (n : Z) (s first : string) : Prop :=
  ∃ rest, s = first +:+ rest ∧ len first = n.

(** [s], cut after [n] characters and closed by three dots when it is
    longer. *)
Definition truncated (n : Z) (s line : string) : Prop :=
  (len s <= n → line = s)
  ∧ (n < len s → ∃ first, first_chars n s first ∧ line = first +:+ "...").

Fixpoint count_char (c : ascii) (s : string) : nat :=
  match s with
  | EmptyString => 0
  | String x s' => (if Ascii.eqb x c then 1 else 0) + count_char c s'
  end.

End spec.

Module sample.
Import py.

(** A remote site: a URL that begins with [ok] is served, one that
    begins with [gone] is answered 404, any other request times out. *)
Definition site (url : string) (params : option (list (string * string)))
    : result model.fetcher.HttpFetcherBytesResult :=
  if String.prefix "ok" url
  then Ok {| model.fetcher.status := 200; model.fetcher.result := [Byte.x89; Byte.x50] |}
  else if String.prefix "gone" url
  then Ok {| model.fetcher.status := 404; model.fetcher.result := [] |}
  else Raise (TransportError "timeout").

(** The world around a parsed document [doc]; the card ratio is 27/4. *)
Definition env (doc : bs4.Tag) : Env :=
  {| get_bytes := site;
     BeautifulSoup := fun _ => doc;
     image_open := fun _ => Ok (128, 128);
     font_error := fun _ => None;
     draws := fun xy => (xy.1.1.1 <=? xy.1.2) && (xy.1.1.2 <=? xy.2);
     save := fun im _ =>
       let size := PIL.size (fun _ => Some (128, 128)) im in
       if (0 <? size.1) && (0 <? size.2) then Ok [Byte.xff; Byte.xd8]
       else Raise ValueError;
     write := fun _ _ => Ok tt;
     getsize := fun font text => (PIL.font_size font * len text, PIL.font_size font);
     getsize_multiline := fun font text => (PIL.font_size font * len text, PIL.font_size font);
     split_multiline := fun text _ _ => text;
     validate_user_searching := Ok;
     validate_article := Ok;
     card_height := fun width => int_div (width * 4) 27;
     user_searching_card_num := 8;
     default_font_file := "fzzxhk.ttf";
     now := "2022-04-08-02-15-00" |}.

Definition no_doc : bs4.Tag := bs4.NavigableString "".

Definition el (name : string) (attrs : list (string * string))
    (contents : list bs4.Tag) : bs4.Tag :=
  bs4.Element name (list_to_map attrs) contents.
Definition txt (s : string) : bs4.Tag := bs4.NavigableString s.

(** One entry of a user-search page; the second of its three preview
    items has a link without [data-src]. *)
Definition user_item : bs4.Tag :=
  el "li" [("class", "user-recommendation-item")]
    [ el "a" [("class", "_user-icon size-128 cover-texture ui-scroll-view");
              ("target", "_blank"); ("title", "Ailitonia");
              ("data-filter", "lazy-image"); ("data-src", "ok/head.jpg")] [];
      el "h1" [] [el "a" [("href", "/users/1234567")] [txt "Ailitonia"]];
      el "dl" [("class", "meta inline-list")] [el "dd" [] [el "a" [] [txt "42"]]];
      el "p" [("class", "caption")] [txt "illustrator"];
      el "ul" []
        [ el "li" [("class", "action-open-thumbnail")]
            [el "a" [("data-src", "ok/1.jpg")] []];
          el "li" [("class", "action-open-thumbnail")] [el "a" [] []];
          el "li" [("class", "action-open-thumbnail")]
            [el "a" [("data-src", "ok/3.jpg")] []] ] ].

Definition search_page : bs4.Tag :=
  el "html" []
    [ el "body" []
        [ el "div" [("class", "column-header")]
            [ el "h1" [("class", "column-title")] [txt "Ailitonia"];
              el "span" [("class", "count-badge")] [txt "1"] ];
          el "ul" [] [user_item] ] ].

(** The artwork block of an article. *)
Definition work : bs4.Tag :=
  el "div" [("class", "am__work")]
    [ el "div" [("class", "am__work__info")]
        [ el "p" [("class", "am__work__user-name")]
            [el "a" [("class", "author-img-container inner-link"); ("target", "_blank")]
               [txt "artist"]];
          el "h3" [("class", "am__work__title")] [txt "work"] ];
      el "div" [("class", "am__work__main")]
        [ el "a" [("class", "inner-link"); ("href", "https://www.pixiv.net/artworks/12345")]
            [el "img" [("class", "am__work__illust"); ("src", "ok/12345.jpg")] []] ] ].

(** An article page with the given body and tag links. *)
Definition article (body tags : list bs4.Tag) : bs4.Tag :=
  el "html" []
    [ el "body" []
        [ el "div" [("class", "_article-main")]
            [ el "h1" [("class", "am__title")] [txt " Title "];
              el "div" [("class", "am__description _medium-editor-text")]
                [txt "standard text"];
              el "div" [("class", "am__body")] body ];
          el "ul" [("class", "_tag-list")] tags ] ].

Definition tag_link : bs4.Tag :=
  el "a" [("data-gtm-label", "girl"); ("href", "/zh/t/27")] [txt "girl"].
(** a tag link without [href] *)
Definition tag_no_href : bs4.Tag := el "a" [("data-gtm-label", "sky")] [txt "sky"].

Definition standard_article : bs4.Tag := article [work] [tag_link].
Definition feature_article : bs4.Tag :=
  article
    [ el "div" [("class", "_feature-article-body")]
        [el "div" [("class", "fab__paragraph _medium-editor-text")] [txt "feature text"]] ]
    [tag_link].
Definition article_with_bad_tag : bs4.Tag := article [work] [tag_link; tag_no_href].

(** A user with five previews, of which the second is gone and the
    fourth times out. *)
Definition user : model.user.PixivUserSearchingBody :=
  {| model.user.user_id := "1234567";
     model.user.user_name := "Ailitonia";
     model.user.user_head_url := "ok/head.jpg";
     model.user.user_illust_count := "42";
     model.user.user_desc := "illustrator";
     model.user.illusts_thumb_urls :=
       ["ok/1.jpg"; "gone/2.jpg"; "ok/3.jpg"; "slow/4.jpg"; "ok/5.jpg"] |}.

(** A card of a show page of pixivision, with one tag. *)
Definition show_card : bs4.Tag :=
  el "li" [("class", "article-card-container")]
    [ el "article" [("class", "_article-card spotlight")]
        [ el "div" [("class", "arc__thumbnail-container")]
            [ el "a" [("href", "/zh/a/7000")]
                [ el "div"
                    [("class", "_thumbnail");
                     ("style", "background-image:  url(https://i.pximg.net/c/a.jpg)")]
                    [] ] ];
          el "div" [("class", "arc__title-and-tags")]
            [ el "h2" [("class", "arc__title")]
                [ el "a" [("href", "/zh/a/7000"); ("data-gtm-label", "7000")]
                    [txt " Spring "] ];
              el "ul" [("class", "_tag-list")]
                [el "li" [("class", "tls__list-item-container")] [tag_link]] ] ] ].

(** a card whose [_thumbnail] block has no [style] *)
Definition show_card_no_style : bs4.Tag :=
  el "li" [("class", "article-card-container")]
    [ el "div" [("class", "_thumbnail")] [];
      el "h2" [("class", "arc__title")]
        [el "a" [("href", "/zh/a/7001"); ("data-gtm-label", "7001")] [txt "Summer"]];
      el "ul" [("class", "_tag-list")] [] ].

(** A show page with the given cards. *)
Definition show_page (cards : list bs4.Tag) : bs4.Tag :=
  el "html" [] [el "body" [] [el "ul" [("class", "main-column-container")] cards]].

End sample.

(** ** The rest of [helper.py] *)

Module helper_rest.
Import py re bs4 helper.

(** [r'^background-image:\s\surl\((.+)\)$'] *)
Definition thumbnail_style : regex :=
  seq [Bol; Lit "background-image:"; Cls space; Cls space; Lit "url(";
       Group 1 (Plus true dot); Lit ")"; Eol].

(** The two lines that read the thumbnail of a card from the [style] of
    its [_thumbnail] block: [re.search] of a [None] is a [TypeError], and
    [group] of no match an [AttributeError]. *)
Definition card_thumbnail (style : option string) : result (option string) :=
  thumbnail ← require_str style;
  found ← deref (search thumbnail_style thumbnail);
  Ok (group found 1).

(** A card of the show page, by the keys [parse_pixivision_show_page]
    fills. *)
Record illustration := {
  aid : option string;
  title : string;
  thumbnail : option string;
  url : string;
  tags : list model.pixivision.PixivisionArticleTag
}.

(** The body of the loop over [tag_tag] of a card. *)
Definition parse_card_tag (root_url : string) (tag : Tag)
    : result model.pixivision.PixivisionArticleTag :=
  let tag_name := get_text_strip tag in
  tag_a ← deref (find tag "a" []);
  let tag_rela_url := get tag_a "href" in
  tag_id ← re.sub tag_id_prefix "" tag_rela_url;
  rela ← require_str tag_rela_url;
  let tag_url := root_url +:+ rela in
  Ok {| model.pixivision.tag_id := tag_id;
        model.pixivision.tag_name := Some tag_name;
        model.pixivision.tag_url := tag_url |}.

(** The body of the loop over [illustration_cards]. *)
Definition parse_card (root_url : string) (card : Tag) : result illustration :=
  title_h2 ← deref (find card "h2" [("class", Is "arc__title")]);
  title_a ← deref (find title_h2 "a" []);
  let aid := get title_a "data-gtm-label" in
  thumbnail_div ← deref (find card "div" [("class", Is "_thumbnail")]);
  thumbnail ← card_thumbnail (get thumbnail_div "style");
  href ← require_str (get title_a "href");
  let url := root_url +:+ href in
  let title := get_text_strip title_h2 in
  tag_ul ← deref (find card "ul" [("class", Is "_tag-list")]);
  let tag_tag := find_all tag_ul "li" [] in
  tag_list ← for_each (parse_card_tag root_url) tag_tag;
  Ok {| aid := aid; title := title; thumbnail := thumbnail; url := url;
        tags := tag_list |}.

(** [parse_pixivision_show_page]; [parse_obj] stands for
    [PixivisionIllustrationList.parse_obj], whose model is not among the
    sources. *)
Definition parse_pixivision_show_page {M : Type}
    (parse_obj : list illustration -> result M) (env : Env) (content root_url : string)
    : result M :=
  let page_bs := BeautifulSoup env content in
  let illustration_cards :=
    find_all page_bs "li" [("class", Is "article-card-container")] in
  result_list ← for_each (parse_card root_url) illustration_cards;
  parse_obj result_list.

(** [PixivSearchingData] and [PixivSearchingResultModel] of
    [model/searching.py], by the fields [helper.py] reads. *)
Record PixivSearchingData := {
  id : int_or_str;
  searching_title : string;
  userName : string;
  searching_url : string
}.
Record PixivSearchingResultModel := { searching_result : list PixivSearchingData }.

(** The request list of [emit_preview_model_from_searching_model]. *)
Definition searching_request_list (searching_model : PixivSearchingResultModel)
    : list model.artwork.PixivArtworkPreviewRequestModel :=
  map (fun data =>
         {| model.artwork.desc_text :=
              format_artwork_preview_desc (id data) (searching_title data) (userName data)
                num_lmt_default;
            model.artwork.request_url := searching_url data |})
    (searching_result searching_model).

Definition emit_preview_model_from_searching_model (env : Env) (searching_name : string)
    (searching_model : PixivSearchingResultModel)
    : result model.artwork.PixivArtworkPreviewModel :=
  let request_list := searching_request_list searching_model in
  _request_preview_model env searching_name request_list.

End helper_rest.

(** ** [model/artwork.py] *)

Module artwork_py.
Import py.

Record PixivTagTranslation := { en : string }.
Record PixivTag := { tag : string; translation : option PixivTagTranslation }.
Record PixivArtworkTags := {
  tags : list PixivTag;
  authorId : option Z;
  isLocked : option bool;
  writable : option bool
}.

(** [PixivArtworkTags.all_tags] *)
Definition all_tags (self : PixivArtworkTags) : list string :=
  let _tags := map tag (tags self) in
  _tags ++ omap (fun x => en <$> translation x) (tags self).

Record PixivArtworkPageUrl := {
  original : string;
  regular : string;
  small : string;
  thumb_mini : string
}.
Record PixivArtworkAllPages := {
  all_original : list string;
  all_regular : list string;
  all_small : list string;
  all_thumb_mini : list string
}.
Record PixivArtworkPageUrlContent := {
  urls : PixivArtworkPageUrl;
  width : Z;
  height : Z
}.
Record PixivArtworkPageModel := {
  body : list PixivArtworkPageUrlContent;
  error : bool;
  message : string
}.

(** [{index: x.urls for index, x in enumerate(body)}], built from
    [index] on: every round stores its pair in the dict. *)
Fixpoint index_dict (index : Z) (body : list PixivArtworkPageUrlContent)
    (d : gmap Z PixivArtworkPageUrl) : gmap Z PixivArtworkPageUrl :=
  match body with
  | [] => d
  | x :: body' => index_dict (index + 1) body' (<[index := urls x]> d)
  end.

(** [PixivArtworkPageModel.index_page] *)
Definition index_page (self : PixivArtworkPageModel)
    : result (gmap Z PixivArtworkPageUrl) :=
  if error self then Raise ValueError
  else Ok (index_dict 0 (body self) ∅).

(** [PixivArtworkPageModel.type_page]; the urls of a validated page model
    pass the validation of [PixivArtworkAllPages] again. *)
Definition type_page (self : PixivArtworkPageModel) : result PixivArtworkAllPages :=
  if error self then Raise ValueError
  else Ok {| all_original := map (fun x => original (urls x)) (body self);
             all_regular := map (fun x => regular (urls x)) (body self);
             all_small := map (fun x => small (urls x)) (body self);
             all_thumb_mini := map (fun x => thumb_mini (urls x)) (body self) |}.

(** [PixivArtworkBody], by the field [parsed_description] reads. *)
Record PixivArtworkBody := { description : string }.

(** [[line_break.replaceWith('\n') for line_break in bs.findAll(name='br')]]:
    every [br] below [t] gives way to a run of text that holds one line
    break.  The list of the [br] is made before the first replacement and
    is in document order, so a [br] is replaced with all that it contains;
    replacing a [br] inside it afterwards changes the removed block
    only. *)
Fixpoint replace_line_breaks (t : bs4.Tag) : bs4.Tag :=
  match t with
  | bs4.Element name attrs contents =>
      bs4.Element name attrs
        (map (fun c => if bs4.tag_matches "br" [] c then bs4.NavigableString NL
                       else replace_line_breaks c)
           contents)
  | bs4.NavigableString text => bs4.NavigableString text
  end.

(** [PixivArtworkBody.parsed_description] *)
Definition parsed_description (env : Env) (self : PixivArtworkBody) : string :=
  let _description_bs := BeautifulSoup env (description self) in
  let _description_bs := replace_line_breaks _description_bs in
  bs4.get_text _description_bs.

End artwork_py.

Import py re helper.

(** * Properties *)

(** ** Strings *)

Section StringFacts.
Implicit Types (a b s : string) (c : ascii) (p q : ascii -> bool).

Lemma append_nil_l s : "" +:+ s = s.
Proof. reflexivity. Qed.

Lemma append_cons c a b : String c a +:+ b = String c (a +:+ b).
Proof. reflexivity. Qed.

Lemma append_nil_r s : s +:+ "" = s.
Proof. induction s as [|c s IH]; [done | by rewrite append_cons, IH]. Qed.

Lemma append_assoc a b s : (a +:+ b) +:+ s = a +:+ (b +:+ s).
Proof. induction a as [|c a IH]; [done | by rewrite !append_cons, IH]. Qed.

Lemma length_append a b :
  String.length (a +:+ b) = (String.length a + String.length b)%nat.
Proof. induction a as [|c a IH]; [done | rewrite append_cons; simpl; by rewrite IH]. Qed.

Lemma append_inv_head a s1 s2 : a +:+ s1 = a +:+ s2 → s1 = s2.
Proof.
  induction a as [|c a IH]; [done | rewrite !append_cons; intros [= H]; auto].
Qed.

Lemma substring_0_append a b : String.substring 0 (String.length a) (a +:+ b) = a.
Proof.
  induction a as [|c a IH].
  - by destruct b.
  - rewrite append_cons. simpl. by rewrite IH.
Qed.

Lemma substring_0_length s : String.substring 0 (String.length s) s = s.
Proof. rewrite <- (append_nil_r s) at 2. apply substring_0_append. Qed.

Lemma strip_prefix_spec l s s' : strip_prefix l s = Some s' ↔ s = l +:+ s'.
Proof.
  revert s. induction l as [|c l IH]; intros s.
  - simpl. rewrite append_nil_l. split; congruence.
  - rewrite append_cons. destruct s as [|c' s]; simpl; [split; discriminate|].
    destruct (Ascii.eqb_spec c c') as [->|Hne].
    + rewrite IH. split; congruence.
    + split; [discriminate | congruence].
Qed.

Lemma strip_prefix_append l s : strip_prefix l (l +:+ s) = Some s.
Proof. by apply strip_prefix_spec. Qed.

Lemma at_end_spec s : at_end s = true ↔ s = "" ∨ s = NL.
Proof.
  destruct s as [|c [|c' s]]; simpl.
  - split; [by left | done].
  - unfold NL. destruct (Ascii.eqb_spec c newline) as [->|Hne].
    + split; [by right | done].
    + split; [done | intros [[=] | [=]]; done].
  - unfold NL. split; [done | intros [[=] | [=]]].
Qed.

Lemma all_chars_append p a b :
  all_chars p (a +:+ b) = all_chars p a && all_chars p b.
Proof.
  induction a as [|c a IH]; [done|].
  rewrite append_cons. simpl. by rewrite IH, andb_assoc.
Qed.

Lemma all_chars_impl p q s :
  (∀ c, p c = true → q c = true) → all_chars p s = true → all_chars q s = true.
Proof.
  intros Hpq. induction s as [|c s IH]; simpl; [done|].
  rewrite !andb_true_iff. intros [Hc Hs]. auto.
Qed.

(** A text splits in one way only at its last separator. *)
Lemma split_last_unique p q a b c1 c2 d1 d2 :
  a +:+ String c1 d1 = b +:+ String c2 d2 →
  all_chars p d1 = true → all_chars q d2 = true →
  p c2 = false → q c1 = false →
  a = b ∧ c1 = c2 ∧ d1 = d2.
Proof.
  intros Heq Hd1 Hd2 Hp Hq. revert b Heq.
  induction a as [|x a IH]; intros [|y b];
    rewrite ?append_cons, ?append_nil_l; intros [= Heq1 Heq2].
  - done.
  - subst. rewrite all_chars_append in Hd1. simpl in Hd1.
    rewrite Hp in Hd1. by rewrite andb_false_r in Hd1.
  - subst. rewrite all_chars_append in Hd2. simpl in Hd2.
    rewrite Hq in Hd2. by rewrite andb_false_r in Hd2.
  - subst. destruct (IH _ Heq2) as (-> & -> & ->). done.
Qed.
End StringFacts.

(** ** The matcher follows its relation *)

Section MatcherFacts.
Context {R : Type}.
Implicit Types (k : cont R) (caps : captures).

Lemma star_lazy_sound p k i s caps x :
  star_lazy p k i s caps = Some x →
  ∃ a s', s = a +:+ s' ∧ all_chars p a = true
          ∧ k (i + String.length a)%nat s' caps = Some x.
Proof.
  revert i. induction s as [|c s IH]; intros i; simpl.
  - destruct (k i "" caps) eqn:Hk; [|done]. intros [= ->].
    exists "", "". by rewrite Nat.add_0_r.
  - destruct (k i (String c s) caps) eqn:Hk.
    + intros [= ->]. exists "", (String c s). by rewrite Nat.add_0_r.
    + destruct (p c) eqn:Hp; [|done]. intros H.
      destruct (IH _ H) as (a & s' & -> & Ha & Hx).
      exists (String c a), s'. rewrite append_cons. simpl. rewrite Hp, Ha.
      by rewrite <- Nat.add_succ_comm.
Qed.

Lemma star_lazy_progress p k i a s' caps :
  all_chars p a = true →
  is_Some (k (i + String.length a)%nat s' caps) →
  is_Some (star_lazy p k i (a +:+ s') caps).
Proof.
  revert i. induction a as [|c a IH]; intros i;
    rewrite ?append_cons, ?append_nil_l; simpl.
  - rewrite Nat.add_0_r. intros _ [y Hy].
    destruct s'; simpl; by rewrite Hy.
  - rewrite andb_true_iff. intros [Hc Ha] Hk.
    destruct (k i (String c (a +:+ s')) caps); [done|].
    rewrite Hc. apply IH; [done|]. by rewrite Nat.add_succ_comm.
Qed.

Lemma star_greedy_sound p k i s caps x :
  star_greedy p k i s caps = Some x →
  ∃ a s', s = a +:+ s' ∧ all_chars p a = true
          ∧ k (i + String.length a)%nat s' caps = Some x.
Proof.
  revert i. induction s as [|c s IH]; intros i; simpl.
  - intros Hk. exists "", "". by rewrite Nat.add_0_r.
  - assert (k i (String c s) caps = Some x →
            ∃ a s', String c s = a +:+ s' ∧ all_chars p a = true
                    ∧ k (i + String.length a)%nat s' caps = Some x) as Hhere.
    { intros Hk. exists "", (String c s). by rewrite Nat.add_0_r. }
    destruct (p c) eqn:Hp; [|done].
    destruct (star_greedy p k (S i) s caps) eqn:Hg; [|done].
    intros [= ->]. destruct (IH _ Hg) as (a & s' & -> & Ha & Hx).
    exists (String c a), s'. rewrite append_cons. simpl. rewrite Hp, Ha.
    by rewrite <- Nat.add_succ_comm.
Qed.

Lemma star_greedy_progress p k i a s' caps :
  all_chars p a = true →
  is_Some (k (i + String.length a)%nat s' caps) →
  is_Some (star_greedy p k i (a +:+ s') caps).
Proof.
  revert i. induction a as [|c a IH]; intros i;
    rewrite ?append_cons, ?append_nil_l; simpl.
  - rewrite Nat.add_0_r. intros _ Hk.
    destruct s' as [|c s']; simpl; [done|].
    destruct (p c); [|done].
    by destruct (star_greedy p k (S i) s' caps).
  - rewrite andb_true_iff. intros [Hc Ha] Hk. rewrite Hc.
    destruct (IH (S i)) as [x ->]; [done | by rewrite Nat.add_succ_comm | done].
Qed.
End MatcherFacts.

(** Every result of the matcher comes from a path of the relation. *)
Lemma run_sound r : ∀ R i s caps (k : cont R) x,
  run r i s caps k = Some x →
  ∃ j s' caps', matches r i s caps j s' caps' ∧ k j s' caps' = Some x.
Proof.
  induction r as [l|p| | |r1 IH1 r2 IH2|r1 IH1 r2 IH2|r1 IH1|g p|n r1 IH1|r1 IH1];
    intros R i s caps k x; simpl.
  - destruct (strip_prefix l s) as [s'|] eqn:Hl; [|done].
    apply strip_prefix_spec in Hl. eauto 10.
  - destruct s as [|c s]; [done|]. destruct (p c) eqn:Hp; [|done]. eauto 10.
  - destruct (Nat.eqb_spec i 0); [|done]. eauto 10.
  - destruct (at_end s) eqn:He; [|done]. eauto 10.
  - intros H. apply IH1 in H as (j1 & s1 & c1 & H1 & H).
    apply IH2 in H as (j & s' & c' & H2 & H). eauto 10.
  - destruct (run r1 i s caps k) eqn:H1.
    + intros [= ->]. apply IH1 in H1 as (j & s' & c' & H1 & H). eauto 10.
    + intros H2. apply IH2 in H2 as (j & s' & c' & H2 & H). eauto 10.
  - destruct (run r1 i s caps k) eqn:H1.
    + intros [= ->]. apply IH1 in H1 as (j & s' & c' & H1 & H). eauto 10.
    + eauto 10.
  - destruct g; intros H;
      [apply star_greedy_sound in H | apply star_lazy_sound in H];
      destruct H as (a & s' & -> & Ha & H); eauto 10.
  - intros H. apply IH1 in H as (j & s' & c' & H1 & H). eauto 10.
  - destruct (run r1 i s caps _) eqn:H1; [|done]. eauto 10.
Qed.

(** A path of the relation whose continuation succeeds makes the matcher
    succeed (on that path or on one it tries before). *)
Lemma run_progress r : ∀ R i s caps j s' caps' (k : cont R),
  matches r i s caps j s' caps' →
  is_Some (k j s' caps') →
  is_Some (run r i s caps k).
Proof.
  induction r as [l|p| | |r1 IH1 r2 IH2|r1 IH1 r2 IH2|r1 IH1|g p|n r1 IH1|r1 IH1];
    intros R i s caps j s' caps' k; simpl.
  - intros (-> & -> & ->) Hk. by rewrite strip_prefix_append.
  - intros ((c & -> & Hp) & -> & ->) Hk. by rewrite Hp.
  - intros (-> & -> & -> & ->) Hk. done.
  - intros (He & -> & -> & ->) Hk. by rewrite He.
  - intros (j1 & s1 & c1 & H1 & H2) Hk.
    eapply IH1; [done|]. eapply IH2; done.
  - intros [H1|H2] Hk.
    + destruct (IH1 _ _ _ _ _ _ _ k H1 Hk) as [x ->]. done.
    + destruct (run r1 i s caps k); [done|]. eapply IH2; done.
  - intros [H1|(-> & -> & ->)] Hk.
    + destruct (IH1 _ _ _ _ _ _ _ k H1 Hk) as [x ->]. done.
    + by destruct (run r1 i s caps k).
  - intros ((a & -> & Ha & ->) & ->) Hk.
    destruct g; [by apply star_greedy_progress | by apply star_lazy_progress].
  - intros (c1 & H1 & ->) Hk. eapply IH1; done.
  - intros (H1 & -> & ->) Hk. by rewrite H1.
Qed.

(** ** [parse_pid_from_url] *)

Ltac inv_matches :=
  repeat match goal with
    | H : ∃ _, _ |- _ => destruct H as [? H]
    | H : _ ∧ _ |- _ => destruct H as [? ?]
    | H : _ ∨ _ |- _ => destruct H as [H|H]
    end; subst.

Lemma substring_group n a b :
  n = String.length a → String.substring 0 n (a +:+ b) = a.
Proof. intros ->. apply substring_0_append. Qed.

Ltac solve_group :=
  rewrite lookup_insert_eq; f_equal;
  lazymatch goal with
  | |- String.substring 0 _ ?s = ?a =>
      change s with (a +:+ _) || idtac
  end;
  apply substring_group; simpl; lia.

Ltac pick_url sch kind :=
  match goal with
  | Hd : digit ?d = true, Hds : all_chars digit ?ds = true,
    Hp : all_chars dot ?pre = true |- _ =>
      exists sch, pre, kind, (String d ds)
  end.

Lemma url_new_strict_inv text j s' caps' :
  matches url_new_strict 0 text ∅ j s' caps' →
  ∃ sch pre kind ds,
    text = sch +:+ "://" +:+ pre +:+ "pixiv.net/" +:+ kind +:+ "/" +:+ ds +:+ s'
    ∧ url_shape.scheme_ok sch
    ∧ ds ≠ "" ∧ all_chars digit ds = true ∧ at_end s' = true
    ∧ caps' !! 2%nat = Some ds.
Proof.
  unfold url_new_strict, seq, Plus. simpl. intros H. inv_matches.
  1: pick_url "https" "artworks".
  2: pick_url "http" "artworks".
  3: pick_url "https" "i".
  4: pick_url "http" "i".
  all: split; [reflexivity|].
  all: split; [first [by left | by right]|].
  all: split; [done|].
  all: split; [by simpl; apply andb_true_iff|].
  all: split; [done|].
  all: rewrite lookup_insert_eq; f_equal.
  all: lazymatch goal with |- _ = ?a => apply (substring_group _ a s') end; simpl; lia.
Qed.

Ltac intro_matches :=
  repeat first [ progress split_and! | eexists ];
  try first [ reflexivity | eassumption
            | solve [left; intro_matches] | solve [right; intro_matches] ].

Lemma url_new_strict_intro sch pre kind ds s' :
  sch = "http" ∨ sch = "https" → all_chars dot pre = true →
  kind = "artworks" ∨ kind = "i" → ds ≠ "" → all_chars digit ds = true →
  at_end s' = true →
  ∃ j caps',
    matches url_new_strict 0
      (sch +:+ "://" +:+ pre +:+ "pixiv.net/" +:+ kind +:+ "/" +:+ ds +:+ s')
      ∅ j s' caps'.
Proof.
  intros Hsch Hpre Hkind Hne Hds Hs'.
  destruct ds as [|d ds]; [done|]. simpl in Hds. apply andb_true_iff in Hds as [Hd Hds].
  unfold url_new_strict, seq, Plus. simpl.
  destruct Hsch as [-> | ->], Hkind as [-> | ->]; intro_matches.
Qed.

Lemma url_old_strict_inv text j s' caps' :
  matches url_old_strict 0 text ∅ j s' caps' →
  ∃ sch pre mid ds tail,
    text = sch +:+ "://" +:+ pre +:+ "pixiv.net" +:+ mid +:+ "illust_id=" +:+ ds
             +:+ tail +:+ s'
    ∧ url_shape.scheme_ok sch
    ∧ ds ≠ "" ∧ all_chars digit ds = true
    ∧ (tail = "" ∨ ∃ w, tail = "&mode=" +:+ w ∧ w ≠ "" ∧ all_chars word w = true)
    ∧ at_end s' = true
    ∧ caps' !! 1%nat = Some ds.
Proof.
  unfold url_old_strict, seq, Plus. simpl. intros H. inv_matches.
  all: match goal with
       | Hp : all_chars dot ?pre = true, Hm : all_chars dot ?mid = true,
         Hd : digit ?d = true, Hds : all_chars digit ?ds = true |- _ =>
           match goal with
           | |- ∃ _ _ _ _ _, "http" +:+ "s" +:+ "://" +:+ pre +:+ "pixiv.net" +:+ mid +:+ _ = _ ∧ _ =>
               exists "https", pre, mid, (String d ds)
           | |- ∃ _ _ _ _ _, "http" +:+ "://" +:+ pre +:+ "pixiv.net" +:+ mid +:+ _ = _ ∧ _ =>
               exists "http", pre, mid, (String d ds)
           end
       end.
  all: try match goal with
       | Hc : word ?c = true, Hw : all_chars word ?w = true |- _ =>
           exists ("&mode=" +:+ String c w)
       end.
  all: try (exists "").
  all: split; [reflexivity|].
  all: split; [first [by left | by right]|].
  all: split; [done|].
  all: split; [by simpl; apply andb_true_iff|].
  all: split;
    [first [ by left
           | right; eexists; split; [reflexivity|];
             split; [done | by simpl; apply andb_true_iff] ]|].
  all: split; [done|].
  all: rewrite ?(lookup_insert_ne _ 2%nat 1%nat) by done.
  all: rewrite lookup_insert_eq; f_equal.
  all: lazymatch goal with
       | |- String.substring 0 _ (String ?d (?ds +:+ ?rest)) = _ =>
           apply (substring_group _ (String d ds) rest)
       end; simpl; lia.
Qed.


Local Abbreviation no_char := spec.no_char.

Lemma no_char_self c : no_char c c = false.
Proof. unfold spec.no_char. by rewrite Ascii.eqb_refl. Qed.

Lemma class_no_char (p : ascii → bool) c x : p c = false → p x = true → no_char c x = true.
Proof.
  unfold spec.no_char. intros Hc Hx. destruct (Ascii.eqb_spec x c) as [->|]; [congruence | done].
Qed.

Lemma all_chars_no_char (p : ascii → bool) c s :
  p c = false → all_chars p s = true → all_chars (no_char c) s = true.
Proof. intros Hc. apply all_chars_impl. intros x. by apply class_no_char. Qed.

Lemma at_end_no_char c s : c ≠ newline → at_end s = true → all_chars (no_char c) s = true.
Proof.
  intros Hc [-> | ->]%at_end_spec; [done|]. simpl. unfold spec.no_char.
  destruct (Ascii.eqb_spec newline c); [congruence | done].
Qed.

Lemma digit_word c : digit c = true → word c = true.
Proof.
  unfold digit, is_digit, word. intros H. apply andb_true_iff in H as [H1 H2].
  rewrite H1, H2. done.
Qed.

(** A text of word characters ends on no line break. *)
Lemma word_text_end a s' :
  all_chars word (a +:+ s') = true → at_end s' = true → s' = "".
Proof.
  intros Hw [-> | ->]%at_end_spec; [done|].
  rewrite all_chars_append in Hw. apply andb_true_iff in Hw as [_ Hw]. done.
Qed.

Lemma int_digits_cases ds :
  url_shape.id_ok ds →
  int (Some ds)
  = if int_max_str_digits <? len ds then Raise ValueError else Ok (digits_value 0 ds).
Proof. intros [Hne Hds]. unfold int, digit in *. destruct ds; [done|]. by rewrite Hds. Qed.

Lemma int_digits ds :
  ds ≠ "" → all_chars digit ds = true → len ds <= int_max_str_digits →
  int (Some ds) = Ok (digits_value 0 ds).
Proof.
  intros Hne Hds Hlen. rewrite int_digits_cases by done.
  destruct (Z.ltb_spec int_max_str_digits (len ds)); [lia | done].
Qed.

(** The conversion of a matched group: the id, or a [ValueError] for a
    run of digits beyond the limit of [int]. *)
Lemma int_group ds :
  url_shape.id_ok ds →
  ((pid ← int (Some ds); Ok (Some pid)) = Ok (Some (digits_value 0 ds))
   ∧ len ds <= int_max_str_digits)
  ∨ ((pid ← int (Some ds); Ok (Some pid)) = (Raise ValueError : result (option Z))
     ∧ int_max_str_digits < len ds).
Proof.
  intros Hds. rewrite int_digits_cases by done.
  destruct (Z.ltb_spec int_max_str_digits (len ds)); [by right | by left].
Qed.

Lemma search_from_anchored r i s : search_from (Cat Bol r) (S i) s = None.
Proof. revert i. induction s as [|c s IH]; intros i; simpl; [done | apply IH]. Qed.

(** A pattern that begins with [^] matches at the start of the text or
    nowhere. *)
Lemma search_anchored r text : search (Cat Bol r) text = match_at (Cat Bol r) 0 text.
Proof.
  unfold search. destruct text as [|c s]; simpl.
  - by destruct (match_at _ _ _).
  - destruct (match_at _ _ _); [done | apply search_from_anchored].
Qed.

Lemma match_at_sound r text m :
  match_at r 0 text = Some m →
  ∃ j s', matches r 0 text ∅ j s' (m_groups m).
Proof.
  unfold match_at. intros (j & s' & caps' & Hm & [= <-])%run_sound. eauto.
Qed.

Lemma match_at_progress r text j s' caps' :
  matches r 0 text ∅ j s' caps' → is_Some (match_at r 0 text).
Proof. intros Hm. unfold match_at. eapply run_progress; done. Qed.

Lemma url_new_strict_search text m :
  search url_new_strict text = Some m →
  ∃ sch pre kind ds s',
    text = sch +:+ "://" +:+ pre +:+ "pixiv.net/" +:+ kind +:+ "/" +:+ ds +:+ s'
    ∧ url_shape.scheme_ok sch
    ∧ ds ≠ "" ∧ all_chars digit ds = true ∧ at_end s' = true
    ∧ group m 2 = Some ds.
Proof.
  unfold url_new_strict, seq. simpl foldr. rewrite search_anchored.
  intros (j & s' & Hm)%match_at_sound.
  apply url_new_strict_inv in Hm as (sch & pre & kind & ds & Hm). eauto 10.
Qed.

Lemma url_old_strict_search text m :
  search url_old_strict text = Some m →
  ∃ sch pre mid ds tail s',
    text = sch +:+ "://" +:+ pre +:+ "pixiv.net" +:+ mid +:+ "illust_id=" +:+ ds
             +:+ tail +:+ s'
    ∧ url_shape.scheme_ok sch
    ∧ ds ≠ "" ∧ all_chars digit ds = true ∧ url_shape.tail_ok tail ∧ at_end s' = true
    ∧ group m 1 = Some ds.
Proof.
  unfold url_old_strict, seq. simpl foldr. rewrite search_anchored.
  intros (j & s' & Hm)%match_at_sound.
  apply url_old_strict_inv in Hm as (sch & pre & mid & ds & tail & Hm). eauto 10.
Qed.

Lemma url_new_strict_found sch pre kind ds :
  url_shape.scheme_ok sch → url_shape.one_line pre → url_shape.kind_ok kind →
  url_shape.id_ok ds →
  is_Some (search url_new_strict (url_shape.path_style sch pre kind ds)).
Proof.
  intros Hsch Hpre Hkind [Hne Hds].
  destruct (url_new_strict_intro sch pre kind ds "" Hsch Hpre Hkind Hne Hds eq_refl)
    as (j & caps' & Hm).
  rewrite append_nil_r in Hm. apply match_at_progress in Hm.
  revert Hm. unfold url_new_strict, seq. simpl foldr. by rewrite search_anchored.
Qed.


(** *** The id of a URL of either shape is determined by the text *)

Lemma path_assoc a b c d e t :
  a +:+ b +:+ c +:+ d +:+ e +:+ "/" +:+ t = (a +:+ b +:+ c +:+ d +:+ e) +:+ String "/" t.
Proof. by rewrite !append_assoc. Qed.


Lemma legacy_mode_assoc a b c d e ds t :
  a +:+ b +:+ c +:+ d +:+ e +:+ "illust_id=" +:+ ds +:+ "&mode=" +:+ t
  = (a +:+ b +:+ c +:+ d +:+ e +:+ "illust_id=" +:+ ds +:+ "&mode") +:+ String "=" t.
Proof. by rewrite !append_assoc. Qed.

Lemma digits_then_end c ds s' :
  c ≠ newline → digit c = false →
  all_chars digit ds = true → at_end s' = true →
  all_chars (no_char c) (ds +:+ s') = true.
Proof.
  intros Hc Hd Hds Hs'. rewrite all_chars_append.
  rewrite (all_chars_no_char digit) by done. by rewrite at_end_no_char.
Qed.


Lemma all_digit_word s : all_chars digit s = true → all_chars word s = true.
Proof. apply all_chars_impl, digit_word. Qed.

Lemma path_id_unique sch pre kind ds sch' pre' kind' ds' s' :
  url_shape.path_style sch pre kind ds
  = sch' +:+ "://" +:+ pre' +:+ "pixiv.net/" +:+ kind' +:+ "/" +:+ ds' +:+ s' →
  url_shape.id_ok ds → all_chars digit ds' = true → at_end s' = true →
  ds' = ds.
Proof.
  unfold url_shape.path_style. rewrite !path_assoc. intros Heq [Hne Hds] Hds' Hs'.
  apply (split_last_unique (no_char "/") (no_char "/")) in Heq as (_ & _ & ->);
    [| by apply (all_chars_no_char digit) | by apply digits_then_end
     | apply no_char_self | apply no_char_self ].
  apply all_digit_word in Hds. apply word_text_end in Hds as ->; [|done].
  by rewrite append_nil_r.
Qed.

Lemma ends_differ a b c1 c2 : c1 ≠ c2 → a +:+ String c1 "" = b +:+ String c2 "" → False.
Proof.
  intros Hne Heq.
  by apply (split_last_unique (λ _, false) (λ _, false)) in Heq as (_ & ? & _).
Qed.




(** *** The decimal text of an id *)






(** *** Strict mode on the two shapes *)

(** Strict mode hands the digits of a page URL of path style to [int]. *)
Lemma strict_path_int sch host kind id :
  url_shape.scheme_ok sch → url_shape.one_line host → url_shape.kind_ok kind →
  url_shape.id_ok id →
  parse_pid_from_url (url_shape.path_style sch host kind id) true
  = (pid ← int (Some id); Ok (Some pid)).
Proof.
  intros Hsch Hhost Hkind Hid.
  destruct (url_new_strict_found sch host kind id) as [m Hm]; [done..|].
  unfold parse_pid_from_url. rewrite Hm.
  apply url_new_strict_search in Hm
    as (sch' & pre' & kind' & ds' & s' & Heq & _ & Hne & Hds' & Hs' & ->).
  by apply path_id_unique in Heq as ->.
Qed.

Lemma strict_path_id sch host kind id :
  url_shape.scheme_ok sch → url_shape.one_line host → url_shape.kind_ok kind →
  url_shape.id_ok id → len id <= int_max_str_digits →
  parse_pid_from_url (url_shape.path_style sch host kind id) true
  = Ok (Some (digits_value 0 id)).
Proof.
  intros Hsch Hhost Hkind Hid Hlen. rewrite strict_path_int by done.
  destruct Hid as [? ?]. by rewrite int_digits.
Qed.


(** The order of the two attempts, on any text: the digits of the first
    pattern that matches go to [int]. *)
Lemma strict_order text :
  match search url_new_strict text with
  | Some url_new =>
      ∃ ds, group url_new 2 = Some ds ∧ url_shape.id_ok ds ∧ len ds <= len text
            ∧ parse_pid_from_url text true = (pid ← int (Some ds); Ok (Some pid))
  | None =>
      match search url_old_strict text with
      | Some url_old =>
          ∃ ds, group url_old 1 = Some ds ∧ url_shape.id_ok ds ∧ len ds <= len text
                ∧ parse_pid_from_url text true = (pid ← int (Some ds); Ok (Some pid))
      | None => parse_pid_from_url text true = Ok None
      end
  end.
Proof.
  unfold parse_pid_from_url.
  destruct (search url_new_strict text) as [m|] eqn:Hnew.
  { apply url_new_strict_search in Hnew
      as (sch' & pre' & kind' & ds' & s' & Heq & _ & Hne & Hds' & Hs' & Hg).
    exists ds'. rewrite Hg. split_and!; [done..| |done].
    rewrite Heq. unfold len. rewrite !length_append. lia. }
  destruct (search url_old_strict text) as [m|] eqn:Hold; [|done].
  apply url_old_strict_search in Hold
    as (sch' & pre' & mid' & ds' & tail' & s' & Heq & _ & Hne & Hds' & _ & Hs' & Hg).
  exists ds'. rewrite Hg. split_and!; [done..| |done].
  rewrite Heq. unfold len. rewrite !length_append. lia.
Qed.

(** Strict mode finds nothing in a text that does not begin with the
    scheme. *)
Lemma strict_needs_scheme text :
  strip_prefix "http" text = None → parse_pid_from_url text true = Ok None.
Proof.
  intros Hpre. pose proof (strict_order text) as Ho.
  assert (∀ sch rest, url_shape.scheme_ok sch → text = sch +:+ rest → False) as Hno.
  { intros sch rest [-> | ->] ->; by rewrite ?append_cons in Hpre. }
  destruct (search url_new_strict text) as [m|] eqn:Hnew.
  { apply url_new_strict_search in Hnew as (sch & ? & ? & ? & ? & Heq & Hsch & _).
    exfalso. eauto. }
  destruct (search url_old_strict text) as [m|] eqn:Hold; [|done].
  apply url_old_strict_search in Hold as (sch & ? & ? & ? & ? & ? & Heq & Hsch & _).
  exfalso. eauto.
Qed.



(** C1 as the specification states it fails: a text in which
    [pixiv.net] stands in the path of another host is matched in strict
    mode too. *)
Lemma strict_accepts_pixiv_net_in_path :
  parse_pid_from_url "https://x.example/pixiv.net/artworks/12345" true = Ok (Some 12345)
  ∧ parse_pid_from_url "https://x.example/pixiv.net/artworks/12345" true ≠ Ok None.
Proof. split; [vm_compute; reflexivity | vm_compute; discriminate]. Qed.

(** C1, as the code has it: strict mode ties the match to the two ends
    of the text, not to the boundary between host and path.  A URL
    [scheme://host/path...pixiv.net/artworks/{id}] (or [/i/{id}]) on one
    line, with [pixiv.net] inside the path of another host and an id of
    no more digits than [int] converts (4300), yields its id in strict
    mode; for ["https://x.example/pixiv.net/artworks/12345"]
    loose mode yields 12345 as well.  What strict mode refuses is text
    around the URL: a text that does not begin with [http] yields [None],
    as ["see https://www.pixiv.net/artworks/12345 ok"] does, from which
    loose mode still reads 12345. *)
Theorem parse_pid_from_url_strict_whole_text sch host path kind id :
  url_shape.scheme_ok sch → url_shape.one_line host → url_shape.one_line path →
  url_shape.kind_ok kind → url_shape.id_ok id → len id <= int_max_str_digits →
  parse_pid_from_url (url_shape.path_style sch (host +:+ "/" +:+ path) kind id) true
    = Ok (Some (digits_value 0 id))
  ∧ parse_pid_from_url "https://x.example/pixiv.net/artworks/12345" false
    = Ok (Some 12345)
  ∧ (∀ text, strip_prefix "http" text = None → parse_pid_from_url text true = Ok None)
  ∧ parse_pid_from_url "see https://www.pixiv.net/artworks/12345 ok" true = Ok None
  ∧ parse_pid_from_url "see https://www.pixiv.net/artworks/12345 ok" false
    = Ok (Some 12345).
Proof.
  intros Hsch Hhost Hpath Hkind Hid Hlen. split_and!.
  - apply strict_path_id; [done | | done | done | done].
    unfold url_shape.one_line in *. rewrite !all_chars_append, Hhost, Hpath. done.
  - vm_compute. reflexivity.
  - apply strict_needs_scheme.
  - by apply strict_needs_scheme.
  - vm_compute. reflexivity.
Qed.

Lemma parse_pid_from_url_strict_whole_text_witness :
  parse_pid_from_url "https://x.example/pixiv.net/artworks/12345" true = Ok (Some 12345).
Proof.
  destruct (parse_pid_from_url_strict_whole_text "https" "x.example" "" "artworks" "12345")
    as (Hstrict & _).
  - by right.
  - reflexivity.
  - reflexivity.
  - by left.
  - split; [discriminate | reflexivity].
  - vm_compute. discriminate.
  - exact Hstrict.
Defined.

(** ** [format_artwork_preview_desc] *)

Lemma substring_0_split k s :
  (k ≤ String.length s)%nat →
  ∃ rest, s = String.substring 0 k s +:+ rest
          ∧ String.length (String.substring 0 k s) = k.
Proof.
  revert k. induction s as [|c s IH]; intros [|k] Hk; simpl in *.
  - by exists "".
  - lia.
  - by exists (String c s).
  - destruct (IH k) as (rest & Hs & Hlen); [lia|].
    exists rest. rewrite append_cons, <- Hs. simpl. by rewrite Hlen.
Qed.

Lemma truncated_slice n s :
  0 <= n →
  spec.truncated n s (if len s >? n then slice_to s n +:+ "..." else s).
Proof.
  intros Hn. unfold spec.truncated, spec.first_chars, len, slice_to.
  destruct (Z.gtb_spec (Z.of_nat (String.length s)) n) as [Hgt|Hle].
  - split; [lia|]. intros _.
    destruct (Z.leb_spec 0 n); [|lia].
    destruct (substring_0_split (Z.to_nat n) s) as (rest & Hs & Hlen); [lia|].
    exists (String.substring 0 (Z.to_nat n) s). split; [|done].
    exists rest. split; [done | lia].
  - split; [done | lia].
Qed.

Lemma count_char_append c a b :
  spec.count_char c (a +:+ b) = (spec.count_char c a + spec.count_char c b)%nat.
Proof.
  induction a as [|x a IH]; [done|]. rewrite append_cons. simpl. rewrite IH. lia.
Qed.

Lemma count_char_absent c s :
  all_chars (no_char c) s = true → spec.count_char c s = 0%nat.
Proof.
  induction s as [|x s IH]; simpl; [done|].
  unfold spec.no_char at 1. intros [Hx Hs]%andb_true_iff.
  apply negb_true_iff in Hx. rewrite Hx. auto.
Qed.

Lemma all_chars_substring p k s :
  all_chars p s = true → all_chars p (String.substring 0 k s) = true.
Proof.
  revert k. induction s as [|c s IH]; intros [|k]; simpl; try done.
  intros [Hc Hs]%andb_true_iff. rewrite Hc. simpl. auto.
Qed.

Lemma no_char_ne c x : x ≠ c → no_char c x = true.
Proof. intros Hne. unfold spec.no_char. by destruct (Ascii.eqb_spec x c). Qed.

Lemma count_char_line c n s :
  "."%char ≠ c →
  all_chars (no_char c) s = true →
  spec.count_char c (if len s >? n then slice_to s n +:+ "..." else s) = 0%nat.
Proof.
  intros Hc Hs. apply count_char_absent.
  destruct (len s >? n); [|done].
  rewrite all_chars_append. unfold slice_to.
  assert (all_chars (no_char c) "..." = true) as ->
    by (simpl; by rewrite !no_char_ne).
  destruct (0 <=? n); by rewrite all_chars_substring.
Qed.

(** C10: for every pid, title and uname, and every limit that is not
    negative (13 unless the caller says otherwise),
    [format_artwork_preview_desc] returns three texts joined by line
    breaks: ['Pid: {pid}']; the title, unchanged when it has at most
    [num_lmt] characters and else its first [num_lmt] characters followed
    by ['...']; and ['Author: {uname}'], cut in the same way when the whole
    line has more than [num_lmt] characters.  When the three inputs hold no
    line break, the result has exactly two, that is three lines. *)
Theorem format_artwork_preview_desc_lines pid title uname num_lmt :
  0 <= num_lmt →
  ∃ title_text author_text,
    format_artwork_preview_desc pid title uname num_lmt
    = ("Pid: " +:+ format_value pid) +:+ NL +:+ title_text +:+ NL +:+ author_text
    ∧ spec.truncated num_lmt title title_text
    ∧ spec.truncated num_lmt ("Author: " +:+ uname) author_text
    ∧ (all_chars (no_char newline) (format_value pid) = true →
       all_chars (no_char newline) title = true →
       all_chars (no_char newline) uname = true →
       spec.count_char newline (format_artwork_preview_desc pid title uname num_lmt)
       = 2%nat).
Proof.
  intros Hn. unfold format_artwork_preview_desc.
  eexists _, _. split; [by rewrite append_assoc|].
  split; [by apply truncated_slice|].
  split; [by apply truncated_slice|].
  intros Hpid Htitle Huname.
  rewrite !count_char_append.
  rewrite (count_char_line newline num_lmt title) by done.
  rewrite (count_char_line newline num_lmt ("Author: " +:+ uname))
    by (by rewrite ?all_chars_append, ?Huname).
  rewrite (count_char_absent newline (format_value pid)) by done.
  reflexivity.
Qed.

Lemma format_artwork_preview_desc_lines_witness :
  0 <= num_lmt_default
  ∧ format_artwork_preview_desc (Int 96574020) "A title of more than thirteen characters"
      "Ailitonia" num_lmt_default
    = "Pid: 96574020" +:+ NL +:+ "A title of mo..." +:+ NL +:+ "Author: Ailit...".
Proof.
  split; [done|].
  destruct (format_artwork_preview_desc_lines (Int 96574020)
              "A title of more than thirteen characters" "Ailitonia" num_lmt_default)
    as (title_text & author_text & Heq & _); [done|].
  reflexivity.
Defined.

(** ** [_get_pixiv_resource] *)

(** C4: [_get_pixiv_resource] returns the bytes of the response exactly
    when the remote answers with status 200; for any other status it
    raises [PixivNetworkError] with the status in its message and returns
    nothing. *)
Theorem _get_pixiv_resource_status env url params :
  (∀ data, _get_pixiv_resource env url params = Ok data
           ↔ ∃ _content, get_bytes env url params = Ok _content
                         ∧ model.fetcher.status _content = 200
                         ∧ model.fetcher.result _content = data)
  ∧ (∀ _content, get_bytes env url params = Ok _content →
       model.fetcher.status _content ≠ 200 →
       _get_pixiv_resource env url params
       = Raise (PixivNetworkError
                  ("PixivNetworkError, status code "
                     +:+ str_of_int (model.fetcher.status _content)))).
Proof.
  unfold _get_pixiv_resource. split.
  - intros data. destruct (get_bytes env url params) as [c|e]; simpl.
    + destruct (Z.eqb_spec (model.fetcher.status c) 200) as [H200|Hne]; simpl.
      * split; [intros [= <-]; eauto | intros (c' & [= <-] & _ & <-); done].
      * split; [done | intros (c' & [= <-] & ? & _); done].
    + split; [done | intros (c' & ? & _); done].
  - intros c -> Hne. simpl.
    by destruct (Z.eqb_spec (model.fetcher.status c) 200).
Qed.

Lemma _get_pixiv_resource_status_witness :
  _get_pixiv_resource (sample.env sample.no_doc) "gone/1.jpg" None
  = Raise (PixivNetworkError "PixivNetworkError, status code 404")
  ∧ _get_pixiv_resource (sample.env sample.no_doc) "ok/1.jpg" None
    = Ok [Byte.x89; Byte.x50].
Proof.
  destruct (_get_pixiv_resource_status (sample.env sample.no_doc) "gone/1.jpg" None)
    as [_ Hraise].
  destruct (_get_pixiv_resource_status (sample.env sample.no_doc) "ok/1.jpg" None)
    as [Hok _].
  split.
  - apply (Hraise {| model.fetcher.status := 404; model.fetcher.result := [] |});
      [reflexivity | discriminate].
  - apply Hok. eexists. split; [reflexivity|]. split; reflexivity.
Defined.

(** ** [_request_preview_model] *)

Section PreviewBatch.
Variable env : Env.

Local Abbreviation preview_of := (spec.preview_of env).

Lemma _request_preview_body_cases request :
  (∃ body, _request_preview_body env request = Ok body
           ∧ preview_of request = Some body)
  ∨ (∃ e, _request_preview_body env request = Raise e ∧ preview_of request = None).
Proof.
  unfold _request_preview_body, spec.preview_of.
  destruct (_get_pixiv_resource env _ None); simpl; eauto.
Qed.

Lemma gathered_previews requests :
  for_each (λ slot : result model.artwork.PixivArtworkPreviewBody,
              match slot with Ok body => Ok body | Raise _ => Raise ValidationError end)
    (process_utils.semaphore_gather (map (_request_preview_body env) requests) 30 true)
  = Ok (omap preview_of requests).
Proof.
  unfold process_utils.semaphore_gather.
  induction requests as [|r requests IH]; [done|]. simpl map.
  destruct (_request_preview_body_cases r) as [(body & Hb & Hp) | (e & Hb & Hp)];
    simpl; rewrite Hb, Hp; simpl; by rewrite IH.
Qed.

Lemma gathered_length requests :
  length (process_utils.semaphore_gather (map (_request_preview_body env) requests) 30 true)
  = length (omap preview_of requests).
Proof.
  unfold process_utils.semaphore_gather.
  induction requests as [|r requests IH]; [done|]. simpl map.
  destruct (_request_preview_body_cases r) as [(body & Hb & Hp) | (e & Hb & Hp)];
    simpl; rewrite Hb, Hp; simpl; by rewrite IH.
Qed.

Lemma previews_texts requests :
  model.artwork.thumb_desc_text <$> omap preview_of requests
  = model.artwork.desc_text <$> List.filter (spec.fetched env) requests.
Proof.
  induction requests as [|r requests IH]; csimpl; [done|].
  unfold spec.preview_of at 1, spec.fetched at 1.
  destruct (_get_pixiv_resource env _ None); csimpl; by rewrite IH.
Qed.

Lemma filter_sublist {A} (p : A → bool) (l : list A) : List.filter p l `sublist_of` l.
Proof.
  induction l as [|x l IH]; simpl; [done|].
  destruct (p x); by constructor.
Qed.
End PreviewBatch.

(** The batch, in closed form. *)
Lemma preview_batch_returned env preview_name requests :
  _request_preview_model env preview_name requests
  = Ok {| model.artwork.preview_name := preview_name;
          model.artwork.count :=
            Z.of_nat (length (omap (spec.preview_of env) requests));
          model.artwork.previews := omap (spec.preview_of env) requests |}.
Proof.
  unfold _request_preview_model, PixivArtworkPreviewModel.
  by rewrite gathered_previews, gathered_length.
Qed.

(** C2: for every sequence of requests, [_request_preview_model] returns
    a batch whose [count] is the length of [previews], and [previews] holds,
    in the order of the input, one body for every request whose fetch
    succeeded (its [desc_text] with the fetched bytes) and none for the
    others: the requests kept are a subsequence of the input. *)
Theorem _request_preview_model_stable env preview_name requests :
  ∃ batch,
    _request_preview_model env preview_name requests = Ok batch
    ∧ model.artwork.count batch = Z.of_nat (length (model.artwork.previews batch))
    ∧ model.artwork.previews batch = omap (spec.preview_of env) requests
    ∧ model.artwork.thumb_desc_text <$> model.artwork.previews batch
      = model.artwork.desc_text <$> List.filter (spec.fetched env) requests
    ∧ List.filter (spec.fetched env) requests `sublist_of` requests.
Proof.
  rewrite preview_batch_returned. eexists. split; [reflexivity|]. simpl.
  split_and!; [done | done | apply previews_texts | apply filter_sublist].
Qed.

(** C7: when every fetch of the batch fails, and so when the batch is
    empty, [_request_preview_model] returns a batch with [count = 0] and no
    previews; it raises nothing. *)
Theorem _request_preview_model_all_failed env preview_name requests :
  (∀ request, request ∈ requests →
     ∃ e, _get_pixiv_resource env (model.artwork.request_url request) None = Raise e) →
  _request_preview_model env preview_name requests
  = Ok {| model.artwork.preview_name := preview_name;
          model.artwork.count := 0;
          model.artwork.previews := [] |}
  ∧ _request_preview_model env preview_name []
    = Ok {| model.artwork.preview_name := preview_name;
            model.artwork.count := 0;
            model.artwork.previews := [] |}.
Proof.
  intros Hfail. split; [|reflexivity].
  assert (omap (spec.preview_of env) requests = []) as Hnone.
  { induction requests as [|r requests IH]; csimpl; [done|].
    destruct (Hfail r) as [e He]; [by left|].
    unfold spec.preview_of at 1. rewrite He. apply IH.
    intros r' Hr'. apply Hfail. by right. }
  by rewrite preview_batch_returned, Hnone.
Qed.

Lemma _request_preview_model_all_failed_witness :
  _request_preview_model (sample.env sample.no_doc) "ranking"
    [ {| model.artwork.desc_text := "Pid: 1"; model.artwork.request_url := "gone/1.jpg" |};
      {| model.artwork.desc_text := "Pid: 2"; model.artwork.request_url := "slow/2.jpg" |} ]
  = Ok {| model.artwork.preview_name := "ranking";
          model.artwork.count := 0;
          model.artwork.previews := [] |}.
Proof.
  apply _request_preview_model_all_failed.
  intros request Hin.
  apply list_elem_of_In in Hin. simpl in Hin.
  destruct Hin as [<- | [<- | []]]; eexists; reflexivity.
Defined.

(** ** The grid of user cards *)

Lemma gather_filtered_ok {A} (tasks : list (result A)) n :
  Forall (λ slot, ∃ v, slot = Ok v) (process_utils.semaphore_gather tasks n true).
Proof.
  unfold process_utils.semaphore_gather.
  induction tasks as [|[v|e] tasks IH]; simpl; [done | | done].
  constructor; eauto.
Qed.

Lemma paste_cards_size decoded sw th ch cards : ∀ index bg,
  Forall (λ slot, ∃ card, slot = Ok card) cards →
  ∃ bg', for_enumerate (paste_card sw th ch) index cards bg = Ok bg'
         ∧ PIL.size decoded bg' = PIL.size decoded bg.
Proof.
  induction cards as [|slot cards IH]; intros index bg Hok; simpl; [eauto|].
  apply Forall_cons in Hok as [[card ->] Hok]. simpl.
  destruct (IH (index + 1) (PIL.Paste bg card
              (sw, sw * 2 + th + (ch + sw) * index) None) Hok) as (bg' & -> & Hsize).
  eauto.
Qed.

Lemma new_cases mode size fill :
  (PIL.new mode size fill = Ok (PIL.New mode size fill) ∧ 0 <= size.1 ∧ 0 <= size.2)
  ∨ (PIL.new mode size fill = Raise ValueError ∧ (size.1 < 0 ∨ size.2 < 0)).
Proof.
  unfold PIL.new.
  destruct (Z.ltb_spec size.1 0), (Z.ltb_spec size.2 0); simpl;
    first [right; split; [done | lia] | left; split; [done | lia]].
Qed.

Lemma truetype_cases env file size :
  (truetype env file size = Ok (PIL.truetype file size)
   ∧ font_error env (PIL.truetype file size) = None)
  ∨ (∃ e, truetype env file size = Raise e
          ∧ font_error env (PIL.truetype file size) = Some e).
Proof. unfold truetype. destruct (font_error env _); eauto. Qed.

(** The canvas of the grid: what it takes for it to be made, and its
    size. *)
Lemma _background_of_cards_cases env searching width cards :
  let _card_height := card_height env width in
  let _spacing_width := int_div _card_height 12 in
  let _font_title := PIL.truetype (default_font_file env) (int_div _card_height 6) in
  let _title_text :=
    search_title_label +:+ model.user.search_name searching
      +:+ search_total_label +:+ model.user.count searching in
  let _title_text_h := (getsize_multiline env _font_title _title_text).2 in
  let _height :=
    (_card_height + _spacing_width) * Z.of_nat (length cards)
      + _title_text_h + 3 * _spacing_width in
  Forall (λ slot, ∃ card, slot = Ok card) cards →
  (font_error env _font_title = None → 0 <= width + _spacing_width * 2 → 0 <= _height →
   ∃ _background, _background_of_cards env searching width cards = Ok _background)
  ∧ ∀ _background,
      _background_of_cards env searching width cards = Ok _background →
      PIL.size (decoded_size env) _background = (width + _spacing_width * 2, _height)
      ∧ font_error env _font_title = None
      ∧ 0 <= width + _spacing_width * 2 ∧ 0 <= _height.
Proof.
  intros _card_height _spacing_width _font_title _title_text _title_text_h _height Hcards.
  unfold _background_of_cards.
  fold _card_height _spacing_width.
  destruct (truetype_cases env (default_font_file env) (int_div _card_height 6))
    as [[-> Hfont] | (e & -> & Hfont)]; fold _font_title in Hfont; simpl.
  2: { split; [congruence | done]. }
  fold _font_title _title_text _title_text_h _height.
  destruct (new_cases "RGB" (width + _spacing_width * 2, _height) [255; 255; 255])
    as [(-> & Hw & Hh) | (-> & Hneg)]; simpl in *.
  2: { split; [lia | done]. }
  edestruct (paste_cards_size (decoded_size env) _spacing_width _title_text_h _card_height
               cards 0) as (bg' & Hbg & Hsize); [done|].
  rewrite Hbg. split; [eauto|]. intros ? [= <-]. by rewrite Hsize.
Qed.

(** C9: the height of the canvas of [generate_user_searching_result_image]
    is a header height, the measured height of the title plus three
    spacings, plus [rows * (card_height + spacing)], where [rows] is
    [ceil(card_count / cards_per_row)] and the cards counted are those that
    were rendered; with one card on a row, [rows] is the number of cards.
    The canvas is made when the font of the title loads and neither side
    of the canvas is negative; the file is returned when the encoder takes
    the canvas and the bytes are written, and every file returned holds
    the encoding of a canvas of that height. *)
Theorem grid_canvas_height env searching width :
  let cards :=
    process_utils.semaphore_gather
      (map (λ user, _generate_user_searching_result_card env user width)
         (list_slice_to (model.user.users searching) (user_searching_card_num env)))
      10 true in
  let _card_height := card_height env width in
  let _spacing_width := int_div _card_height 12 in
  let _font_title := PIL.truetype (default_font_file env) (int_div _card_height 6) in
  let _title_text :=
    search_title_label +:+ model.user.search_name searching
      +:+ search_total_label +:+ model.user.count searching in
  let _title_text_h := (getsize_multiline env _font_title _title_text).2 in
  let header_height := _title_text_h + 3 * _spacing_width in
  let rows := spec.ceil_div (Z.of_nat (length cards)) spec.cards_per_row in
  let _height := header_height + rows * (_card_height + _spacing_width) in
  let image_file_name :=
    "preview_search_user_" +:+ model.user.search_name searching +:+ "_" +:+ now env
      +:+ ".jpg" in
  rows = Z.of_nat (length cards)
  ∧ (font_error env _font_title = None →
     0 <= width + _spacing_width * 2 → 0 <= _height →
     ∃ _background,
       _background_of_cards env searching width cards = Ok _background
       ∧ PIL.size (decoded_size env) _background = (width + _spacing_width * 2, _height)
       ∧ ∀ image_content,
           save env _background "JPEG" = Ok image_content →
           write env image_file_name image_content = Ok () →
           generate_user_searching_result_image env searching width
           = Ok {| local_resource.file_name := image_file_name;
                   local_resource.content := image_content |})
  ∧ (∀ file,
       generate_user_searching_result_image env searching width = Ok file →
       ∃ _background,
         _background_of_cards env searching width cards = Ok _background
         ∧ (PIL.size (decoded_size env) _background).2 = _height
         ∧ save env _background "JPEG" = Ok (local_resource.content file)).
Proof.
  intros cards _card_height _spacing_width _font_title _title_text _title_text_h
    header_height rows _height image_file_name.
  assert (rows = Z.of_nat (length cards)) as Hrows.
  { unfold rows, spec.ceil_div, spec.cards_per_row. rewrite Z.div_1_r. lia. }
  assert (_height = (_card_height + _spacing_width) * Z.of_nat (length cards)
                    + _title_text_h + 3 * _spacing_width) as Hheight.
  { unfold _height, header_height. rewrite Hrows. lia. }
  destruct (_background_of_cards_cases env searching width cards) as [Hmade Hsize];
    [apply gather_filtered_ok|].
  fold _card_height _spacing_width _font_title _title_text _title_text_h in Hmade, Hsize.
  rewrite <- Hheight in Hmade, Hsize.
  unfold generate_user_searching_result_image, _handle_generate_image.
  fold cards image_file_name.
  split_and!; [done | |].
  - intros Hfont Hw Hh. destruct (Hmade Hfont Hw Hh) as [_background Hbg].
    exists _background. destruct (Hsize _ Hbg) as (Hsz & _).
    split_and!; [done..|]. intros image_content Hsave Hwrite.
    rewrite Hbg. simpl. rewrite Hsave. simpl. by rewrite Hwrite.
  - intros file.
    destruct (_background_of_cards env searching width cards) as [_background|]
      eqn:Hbg; simpl; [|done].
    destruct (save env _background "JPEG") as [image_content|] eqn:Hsave; simpl; [|done].
    destruct (write env image_file_name image_content); simpl; [|done].
    intros [= <-]. exists _background. destruct (Hsize _ eq_refl) as (Hsz & _).
    split_and!; [done | by rewrite Hsz | done].
Qed.

Lemma grid_canvas_height_witness :
  ∃ file,
    generate_user_searching_result_image (sample.env sample.no_doc)
      {| model.user.search_name := "Ailitonia"; model.user.count := "1";
         model.user.users := [sample.user] |} 1600 = Ok file.
Proof.
  destruct (grid_canvas_height (sample.env sample.no_doc)
    {| model.user.search_name := "Ailitonia"; model.user.count := "1";
       model.user.users := [sample.user] |} 1600) as (_ & Hmade & _).
  destruct Hmade as (_background & Hbg & _ & Hfile);
    [reflexivity | by vm_compute | by vm_compute |].
  eexists. apply (Hfile [Byte.xff; Byte.xd8]); [|reflexivity].
  vm_compute in Hbg. injection Hbg as <-. reflexivity.
Defined.

(** ** The user card *)

Lemma open_image_cases env data :
  (∃ size, image_open env data = Ok size ∧ open_image env data = Ok (PIL.Open data))
  ∨ (∃ e, image_open env data = Raise e ∧ open_image env data = Raise e).
Proof. unfold open_image. destruct (image_open env data); simpl; eauto. Qed.

Lemma resize_positive decoded im w :
  0 < w → PIL.resize decoded im (w, w) = Ok (PIL.Resize im (w, w)).
Proof.
  intros Hw. unfold PIL.resize. case_decide; [done|]. simpl.
  destruct (Z.leb_spec w 0); [lia | done].
Qed.

Lemma resize_ok decoded im size im' :
  PIL.resize decoded im size = Ok im' → im' = PIL.Resize im size.
Proof.
  unfold PIL.resize. case_decide; [by intros [= <-]|].
  destruct (_ || _); [done | by intros [= <-]].
Qed.

(** A box in which [ImageDraw] draws whatever the release. *)
Lemma rectangle_ordered env im x0 y0 x1 y1 fill width :
  (∀ x0 y0 x1 y1, x0 <= x1 → y0 <= y1 → draws env (x0, y0, x1, y1) = true) →
  x0 <= x1 → y0 <= y1 →
  rectangle env im ((x0, y0), (x1, y1)) fill width
  = Ok (PIL.Rectangle im ((x0, y0), (x1, y1)) fill width).
Proof. intros Hdraws Hx Hy. unfold rectangle. simpl. by rewrite Hdraws. Qed.

Lemma rectangle_ok env im xy fill width im' :
  rectangle env im xy fill width = Ok im' → im' = PIL.Rectangle im xy fill width.
Proof. unfold rectangle. destruct (draws env _); [by intros [= <-] | done]. Qed.

(** One round of the loop over the previews, when it is left without an
    exception: the frame is drawn and the tile of the slot pasted in its
    box; a slot that holds bytes holds a picture that decodes. *)
Lemma paste_illust_thumb_ok env width index slot bg bg1 :
  paste_illust_thumb env width index slot bg = Ok bg1 →
  (∃ frame,
     bg1 = PIL.Paste (PIL.Rectangle bg frame [224; 224; 224] 0)
             (spec.thumb_tile env width slot) (spec.thumb_box env width index) None)
  ∧ ∀ data, slot = Ok data → ∃ size, image_open env data = Ok size.
Proof.
  unfold paste_illust_thumb, spec.thumb_tile, spec.thumb_box.
  destruct slot as [data|e]; simpl.
  - destruct (open_image_cases env data) as [(size & Hsize & ->) | (e & _ & ->)];
      simpl; [|done].
    destruct (PIL.resize _ _ _) as [resized|] eqn:Hresize; simpl; [|done].
    apply resize_ok in Hresize as ->.
    destruct (rectangle env bg _ _ _) as [framed|] eqn:Hframe; simpl; [|done].
    apply rectangle_ok in Hframe as ->. intros [= <-].
    split; [by eexists | intros ? [= <-]; eauto].
  - destruct (new_cases "RGB" (card_thumb_img_width env width, card_thumb_img_width env width)
                [127; 127; 127]) as [(-> & _) | (-> & _)]; simpl; [|done].
    destruct (rectangle env bg _ _ _) as [framed|] eqn:Hframe; simpl; [|done].
    apply rectangle_ok in Hframe as ->. intros [= <-].
    split; [by eexists | done].
Qed.

Lemma quot_nonneg a b : 0 <= a → 0 < b → 0 <= int_div a b.
Proof. intros. apply Z.quot_pos; lia. Qed.

(** One round of the loop returns when the preview is a square with a
    side, the picture of the slot decodes and the frame is drawn. *)
Lemma paste_illust_thumb_returned env width index slot bg :
  (∀ x0 y0 x1 y1, x0 <= x1 → y0 <= y1 → draws env (x0, y0, x1, y1) = true) →
  0 < card_thumb_img_width env width →
  (∀ data, slot = Ok data → ∃ size, image_open env data = Ok size) →
  ∃ bg1, paste_illust_thumb env width index slot bg = Ok bg1.
Proof.
  intros Hdraws Hw Hdec. unfold paste_illust_thumb.
  set (w := card_thumb_img_width env width) in *.
  pose proof (quot_nonneg w 80 ltac:(lia) ltac:(lia)) as H80.
  pose proof (quot_nonneg w 96 ltac:(lia) ltac:(lia)) as H96.
  assert (∃ _thumb_img,
            match slot with
            | Ok data =>
                _thumb_img ← open_image env data;
                _thumb_img ← PIL.resize (decoded_size env) _thumb_img (w, w);
                Ok (PIL.Convert _thumb_img "RGB")
            | Raise _ => PIL.new "RGB" (w, w) [127; 127; 127]
            end = Ok _thumb_img) as [_thumb_img ->].
  { destruct slot as [data|e].
    - destruct (Hdec data eq_refl) as [size Hsize].
      destruct (open_image_cases env data) as [(? & _ & ->) | (e & He & _)];
        [|congruence].
      simpl. rewrite resize_positive by done. simpl. eauto.
    - destruct (new_cases "RGB" (w, w) [127; 127; 127]) as [(-> & _) | (_ & Hneg)];
        simpl in *; [eauto | lia]. }
  simpl. rewrite rectangle_ordered; [simpl; eauto | done | lia | lia].
Qed.

Lemma paste_thumbs_tiles env width slots : ∀ index bg card,
  for_enumerate (paste_illust_thumb env width) index slots bg = Ok card →
  PIL.tiles card = PIL.tiles bg ++ spec.thumb_tiles env width index slots.
Proof.
  induction slots as [|slot slots IH]; intros index bg card; simpl.
  - intros [= <-]. by rewrite app_nil_r.
  - destruct (paste_illust_thumb env width index slot bg) as [bg1|e] eqn:Hone; [|done].
    intros Hrest. apply IH in Hrest. rewrite Hrest.
    apply paste_illust_thumb_ok in Hone as [[frame ->] _]. simpl.
    by rewrite <- app_assoc.
Qed.

Lemma thumb_tiles_length env width slots : ∀ index,
  length (spec.thumb_tiles env width index slots) = length slots.
Proof. induction slots as [|slot slots IH]; intros index; simpl; [done | by rewrite IH]. Qed.

Lemma thumb_tiles_lookup env width slots : ∀ index (i : nat),
  spec.thumb_tiles env width index slots !! i
  = (λ slot, (spec.thumb_tile env width slot,
              spec.thumb_box env width (index + Z.of_nat i))) <$> slots !! i.
Proof.
  induction slots as [|slot slots IH]; intros index [|i]; simpl; try done.
  - by rewrite Z.add_0_r.
  - rewrite IH. by replace (index + 1 + Z.of_nat i) with (index + Z.of_nat (S i)) by lia.
Qed.

Lemma thumb_tile_size env width slot :
  PIL.size (decoded_size env) (spec.thumb_tile env width slot)
  = (card_thumb_img_width env width, card_thumb_img_width env width).
Proof. by destruct slot. Qed.

Lemma paste_thumbs_returned env width slots : ∀ index bg,
  (∀ x0 y0 x1 y1, x0 <= x1 → y0 <= y1 → draws env (x0, y0, x1, y1) = true) →
  0 < card_thumb_img_width env width →
  (∀ data, Ok data ∈ slots → ∃ size, image_open env data = Ok size) →
  ∃ card, for_enumerate (paste_illust_thumb env width) index slots bg = Ok card.
Proof.
  induction slots as [|slot slots IH]; intros index bg Hdraws Hw Hdec; simpl; [eauto|].
  destruct (paste_illust_thumb_returned env width index slot bg Hdraws Hw) as [bg1 ->].
  { intros data ->. apply Hdec. by left. }
  apply IH; [done..|]. intros data Hin. apply Hdec. by right.
Qed.

(** The card before the previews are pasted: what was made on the way,
    and that nothing is pasted on it without a mask. *)
Lemma card_before_previews env user width card :
  _generate_user_searching_result_card env user width = Ok card →
  ∃ user_head size _background,
    _get_pixiv_resource env (model.user.user_head_url user) None = Ok user_head
    ∧ image_open env user_head = Ok size
    ∧ PIL.tiles _background = []
    ∧ PIL.size (decoded_size env) _background = (width, card_height env width)
    ∧ 0 <= width ∧ 0 <= card_height env width
    ∧ for_enumerate (paste_illust_thumb env width) 0
        (take 4 (map (λ url, _get_pixiv_resource env url None)
                   (model.user.illusts_thumb_urls user))) _background
      = Ok card.
Proof.
  unfold _generate_user_searching_result_card, _handle_generate_card,
    process_utils.semaphore_gather.
  destruct (_get_pixiv_resource env (model.user.user_head_url user) None)
    as [user_head|e]; simpl; [|done].
  destruct (truetype env _ (int_div _ 8)) as [_font_main|]; simpl; [|done].
  destruct (truetype env _ (int_div _ 12)) as [_font_desc|]; simpl; [|done].
  destruct (new_cases "RGB" (width, card_height env width) [255; 255; 255])
    as [(-> & Hwidth & Hheight) | (-> & _)]; simpl in *; [|done].
  destruct (rounded_rectangle env _ _ _ _) as [rounded|] eqn:Hrounded; simpl; [|done].
  assert (rounded = PIL.RoundedRectangle
            (PIL.New "RGB" (width, card_height env width) [255; 255; 255])
            (int_div (card_spacing_width env width) 4,
             int_div (card_spacing_width env width) 4,
             int_div (4 * width - card_spacing_width env width) 4,
             int_div (4 * card_height env width - card_spacing_width env width) 4)
            (int_div (card_height env width) 12) [228; 250; 255]) as ->.
  { revert Hrounded. unfold rounded_rectangle.
    destruct (draws env _); [by intros [= <-] | done]. }
  destruct (open_image_cases env user_head) as [(size & Hsize & ->) | (e & _ & ->)];
    simpl; [|done].
  destruct (PIL.resize _ _ _) as [resized|]; simpl; [|done].
  destruct (PIL.new "RGBA" _ _) as [mask|]; simpl; [|done].
  destruct (ellipse env mask _ _) as [masked|]; simpl; [|done].
  intros Hloop. eexists user_head, size, _.
  split_and!; [done | done | | | done | done | exact Hloop].
  - done.
  - done.
Qed.

Lemma card_tiles env user width card :
  _generate_user_searching_result_card env user width = Ok card →
  PIL.tiles card
  = spec.thumb_tiles env width 0
      (take 4 (map (λ url, _get_pixiv_resource env url None)
                 (model.user.illusts_thumb_urls user))).
Proof.
  intros (user_head & size & bg & _ & _ & Hnone & _ & _ & _ & Hloop)%card_before_previews.
  apply paste_thumbs_tiles in Hloop. by rewrite Hloop, Hnone.
Qed.

(** The card is returned when the fonts load, the rounded frame and the
    frames of the previews are drawn, the pictures have a side, and the
    head picture and the fetched previews decode. *)
Lemma card_returned env user width user_head :
  _get_pixiv_resource env (model.user.user_head_url user) None = Ok user_head →
  (∃ size, image_open env user_head = Ok size) →
  (∀ data,
     Ok data ∈ take 4 (map (λ url, _get_pixiv_resource env url None)
                         (model.user.illusts_thumb_urls user)) →
     ∃ size, image_open env data = Ok size) →
  font_error env (PIL.truetype (default_font_file env) (int_div (card_height env width) 8))
  = None →
  font_error env (PIL.truetype (default_font_file env) (int_div (card_height env width) 12))
  = None →
  (∀ x0 y0 x1 y1, x0 <= x1 → y0 <= y1 → draws env (x0, y0, x1, y1) = true) →
  0 < card_thumb_img_width env width →
  card_spacing_width env width <= 2 * width →
  ∃ card, _generate_user_searching_result_card env user width = Ok card.
Proof.
  intros Hhead [size Hsize] Hthumbs Hmain Hdesc Hdraws Hw Hsp.
  unfold _generate_user_searching_result_card, _handle_generate_card,
    process_utils.semaphore_gather.
  rewrite Hhead. simpl. unfold truetype. rewrite Hmain, Hdesc. simpl.
  unfold card_thumb_img_width in Hw.
  set (h := card_height env width) in *.
  set (w := card_user_head_width env width) in *.
  set (sp := card_spacing_width env width) in *.
  assert (0 <= h ∧ 0 <= sp ∧ w + 2 * sp <= h) as (Hh & Hsp0 & Hfit).
  { unfold sp, w, card_spacing_width, card_user_head_width, int_div in *. fold h in Hw |- *.
    assert (0 <= h) as Hh.
    { destruct (Z.le_gt_cases 0 h) as [|Hneg]; [done|].
      assert (h * 5 ÷ 6 <= 0); [|lia]. apply Z.quot_le_upper_bound; lia. }
    assert (6 * (h * 5 ÷ 6) <= h * 5) by (apply Z.mul_quot_le; lia).
    assert (0 <= (h - h * 5 ÷ 6) ÷ 2) by (apply Z.quot_pos; lia).
    assert (2 * ((h - h * 5 ÷ 6) ÷ 2) <= h - h * 5 ÷ 6) by (apply Z.mul_quot_le; lia).
    lia. }
  destruct (new_cases "RGB" (width, h) [255; 255; 255]) as [(-> & _) | (_ & Hneg)];
    simpl in *; [|lia].
  unfold rounded_rectangle. rewrite Hdraws; [simpl | |].
  2, 3: unfold int_div; apply Z.quot_le_mono; lia.
  destruct (open_image_cases env user_head) as [(? & _ & ->) | (e & He & _)];
    [|congruence].
  simpl. rewrite resize_positive by done. simpl.
  destruct (new_cases "RGBA" (w, w) [255; 255; 255; 0]) as [(-> & _) | (_ & Hneg)];
    simpl in *; [|lia].
  unfold ellipse. rewrite Hdraws by lia. simpl.
  by apply paste_thumbs_returned.
Qed.

(** C5: [_generate_user_searching_result_card] returns a card whenever
    the head picture is fetched and the fetched pictures decode, a failed
    fetch of a preview notwithstanding, provided PIL makes the card: the
    fonts load, the frames are drawn, and the width leaves the head
    picture and the previews a side that is positive.  On a card returned
    at most four previews are pasted, the first four of the user's; each
    stands in its box of the row and is a square of the width of a
    preview; where the slot of the fetch holds an exception the tile is a
    plain grey picture of that same size, and where it holds bytes the
    tile is the picture fetched, brought to that size and to RGB. *)
Theorem card_thumbnails env user width :
  let user_illusts_thumb :=
    map (λ url, _get_pixiv_resource env url None) (model.user.illusts_thumb_urls user) in
  let w := card_thumb_img_width env width in
  (∀ user_head,
     _get_pixiv_resource env (model.user.user_head_url user) None = Ok user_head →
     (∃ size, image_open env user_head = Ok size) →
     (∀ data, Ok data ∈ take 4 user_illusts_thumb → ∃ size, image_open env data = Ok size) →
     font_error env
       (PIL.truetype (default_font_file env) (int_div (card_height env width) 8)) = None →
     font_error env
       (PIL.truetype (default_font_file env) (int_div (card_height env width) 12)) = None →
     (∀ x0 y0 x1 y1, x0 <= x1 → y0 <= y1 → draws env (x0, y0, x1, y1) = true) →
     0 < w → card_spacing_width env width <= 2 * width →
     ∃ card, _generate_user_searching_result_card env user width = Ok card)
  ∧ ∀ card,
      _generate_user_searching_result_card env user width = Ok card →
      (length (PIL.tiles card) ≤ 4)%nat
      ∧ length (PIL.tiles card) = (length user_illusts_thumb `min` 4)%nat
      ∧ (∀ (i : nat) tile box, PIL.tiles card !! i = Some (tile, box) →
           PIL.size (decoded_size env) tile = (w, w)
           ∧ box = spec.thumb_box env width (Z.of_nat i))
      ∧ (∀ (i : nat) e, (i < 4)%nat → user_illusts_thumb !! i = Some (Raise e) →
           PIL.tiles card !! i
           = Some (PIL.New "RGB" (w, w) [127; 127; 127],
                   spec.thumb_box env width (Z.of_nat i)))
      ∧ (∀ (i : nat) data, (i < 4)%nat → user_illusts_thumb !! i = Some (Ok data) →
           PIL.tiles card !! i
           = Some (PIL.Convert (PIL.Resize (PIL.Open data) (w, w)) "RGB",
                   spec.thumb_box env width (Z.of_nat i))).
Proof.
  intros user_illusts_thumb w. split; [apply card_returned|].
  intros card Hcard. apply card_tiles in Hcard.
  fold user_illusts_thumb in Hcard. rewrite Hcard.
  rewrite thumb_tiles_length, length_take.
  split_and!; [lia | lia | | |].
  - intros i tile box. rewrite thumb_tiles_lookup.
    destruct (take 4 user_illusts_thumb !! i) as [slot|]; simpl; [|done].
    intros [= <- <-]. by rewrite thumb_tile_size.
  - intros i e Hi Hslot. rewrite thumb_tiles_lookup, lookup_take_lt by done.
    by rewrite Hslot.
  - intros i data Hi Hslot. rewrite thumb_tiles_lookup, lookup_take_lt by done.
    by rewrite Hslot.
Qed.

Lemma card_thumbnails_witness :
  ∃ card,
    _generate_user_searching_result_card (sample.env sample.no_doc) sample.user 1600
    = Ok card
    ∧ length (PIL.tiles card) = 4%nat
    ∧ PIL.tiles card !! 0%nat
      = Some (PIL.Convert (PIL.Resize (PIL.Open [Byte.x89; Byte.x50]) (197, 197)) "RGB",
              (672, 20))
    ∧ PIL.tiles card !! 1%nat
      = Some (PIL.New "RGB" (197, 197) [127; 127; 127], (889, 20)).
Proof.
  destruct (card_thumbnails (sample.env sample.no_doc) sample.user 1600)
    as [Hreturned Htiles].
  destruct (Hreturned [Byte.x89; Byte.x50] eq_refl) as [card Hcard].
  - by eexists.
  - intros data _. by eexists.
  - reflexivity.
  - reflexivity.
  - intros x0 y0 x1 y1 Hx Hy. simpl.
    apply andb_true_iff. split; by apply Z.leb_le.
  - by vm_compute.
  - by vm_compute.
  - exists card. split; [exact Hcard|].
    destruct (Htiles card Hcard) as (_ & Hlen & _ & Hfailed & Hfetched).
    split; [exact Hlen|]. split.
    + exact (Hfetched 0%nat [Byte.x89; Byte.x50]
               (le_n_S _ _ (le_S _ _ (le_S _ _ (le_S _ _ (le_n 0))))) eq_refl).
    + exact (Hfailed 1%nat (PixivNetworkError "PixivNetworkError, status code 404")
               (le_n_S _ _ (le_n_S _ _ (le_S _ _ (le_S _ _ (le_n 0))))) eq_refl).
Defined.

(** ** Markup extractors *)

Import bs4.

Lemma illusts_thumb_urls_filtered user_illust_elms :
  (∀ elm, elm ∈ user_illust_elms → is_Some (find elm "a" [])) →
  illusts_thumb_urls_of user_illust_elms
  = Ok (omap spec.thumb_data_src user_illust_elms).
Proof.
  unfold illusts_thumb_urls_of. intros Hlinks.
  assert (for_each illust_thumb_url user_illust_elms
          = Ok (spec.thumb_data_src <$> user_illust_elms)) as ->.
  { induction user_illust_elms as [|elm elms IH]; csimpl; [done|].
    destruct (Hlinks elm) as [a Ha]; [by left|].
    unfold illust_thumb_url at 1, spec.thumb_data_src at 1. rewrite Ha. simpl.
    rewrite IH; [done|]. intros elm' Hin. apply Hlinks. by right. }
  simpl. f_equal. clear. induction user_illust_elms as [|elm elms IH]; csimpl; [done|].
  destruct (spec.thumb_data_src elm); by rewrite IH.
Qed.

Lemma illusts_thumb_urls_returned user_illust_elms urls :
  illusts_thumb_urls_of user_illust_elms = Ok urls →
  urls = omap spec.thumb_data_src user_illust_elms.
Proof.
  intros Hurls.
  assert (∀ elm, elm ∈ user_illust_elms → is_Some (find elm "a" [])) as Hlinks.
  { revert urls Hurls. unfold illusts_thumb_urls_of.
    induction user_illust_elms as [|elm elms IH]; intros urls; csimpl.
    - intros _ elm Hin. by apply elem_of_nil in Hin.
    - unfold illust_thumb_url at 1. destruct (find elm "a" []) as [a|] eqn:Ha; [|done].
      simpl. destruct (for_each illust_thumb_url elms) as [found|] eqn:Hrest; [|done].
      intros _ elm' [-> | Hin]%elem_of_cons; [by rewrite Ha|].
      eapply IH; [|done]. by simpl. }
  rewrite (illusts_thumb_urls_filtered _ Hlinks) in Hurls. congruence.
Qed.

Lemma parse_tag_cases root_url tag :
  match get tag "href" with
  | Some href => ∃ t, parse_tag root_url tag = Ok t
                      ∧ model.pixivision.tag_url t = root_url +:+ href
                      ∧ model.pixivision.tag_name t = get tag "data-gtm-label"
  | None => parse_tag root_url tag = Raise TypeError
  end.
Proof.
  unfold parse_tag. destruct (get tag "href") as [href|]; simpl; [|done]. eauto.
Qed.

Lemma parse_tags_kept root_url tags :
  (∀ tag, tag ∈ tags → is_Some (get tag "href")) →
  ∃ tags_list, for_each (parse_tag root_url) tags = Ok tags_list
               ∧ model.pixivision.tag_name <$> tags_list
                 = (λ tag, get tag "data-gtm-label") <$> tags.
Proof.
  induction tags as [|tag tags IH]; intros Hhref; csimpl; [eauto|].
  pose proof (parse_tag_cases root_url tag) as Htag.
  destruct (Hhref tag) as [href Hh]; [by left|]. rewrite Hh in Htag.
  destruct Htag as (t & -> & _ & Hname).
  destruct IH as (l & -> & Hnames); [intros tag' Hin; apply Hhref; by right|].
  eexists. split; [done|]. csimpl. by rewrite Hname, Hnames.
Qed.

Lemma parse_tags_aborted root_url tags :
  (∃ tag, tag ∈ tags ∧ get tag "href" = None) →
  for_each (parse_tag root_url) tags = Raise TypeError.
Proof.
  induction tags as [|tag tags IH]; intros (bad & Hin & Hbad); csimpl.
  - by apply elem_of_nil in Hin.
  - pose proof (parse_tag_cases root_url tag) as Htag.
    destruct (get tag "href") as [href|] eqn:Hh.
    + destruct Htag as (t & -> & _).
      apply elem_of_cons in Hin as [-> | Hin]; [congruence|].
      rewrite IH; [done | eauto].
    + by rewrite Htag.
Qed.

(** C8: [parse_pixivision_article_page] tells the two layouts of an
    article apart by looking for the feature-article container inside the
    article body.  When the container is there, the description of the
    article is the text of the feature paragraph; when it is not, the
    description stays the text of the standard description block.  Nothing
    else in the page decides the branch. *)
Theorem article_description_by_layout env content root_url article :
  parse_pixivision_article_page env content root_url = Ok article →
  ∃ raw article_main article_body standard,
    validate_article env raw = Ok article
    ∧ find (BeautifulSoup env content) "div" [("class", Is "_article-main")]
      = Some article_main
    ∧ find article_main "div" [("class", Is "am__body")] = Some article_body
    ∧ find article_main "div" [("class", Is "am__description _medium-editor-text")]
      = Some standard
    ∧ match find article_body "div" [("class", Is "_feature-article-body")] with
      | Some _ =>
          ∃ paragraph,
            find article_main "div" [("class", Is "fab__paragraph _medium-editor-text")]
            = Some paragraph
            ∧ model.pixivision.description raw = get_text_strip paragraph
      | None => model.pixivision.description raw = get_text_strip standard
      end.
Proof.
  unfold parse_pixivision_article_page. intros H.
  repeat match type of H with
         | context [deref ?x] => destruct x eqn:?; simpl in H; [|discriminate]
         | context [for_each ?f ?l] => destruct (for_each f l) eqn:?; simpl in H; [|discriminate]
         | context [match ?x with Some _ => _ | None => _ end] =>
             destruct x eqn:?; simpl in H
         end.
  all: eexists _, _, _, _; split_and!; [exact H | reflexivity | eassumption | eassumption |].
  all: match goal with
       | Hp : find _ "div" [("class", Is "_feature-article-body")] = _ |- _ => rewrite Hp
       end.
  all: first [reflexivity | eexists; split; [eassumption | reflexivity]].
Qed.

Lemma article_description_by_layout_witness :
  (∃ article,
     parse_pixivision_article_page (sample.env sample.feature_article) ""
       "https://www.pixivision.net" = Ok article
     ∧ model.pixivision.description article = "feature text")
  ∧ (∃ article,
       parse_pixivision_article_page (sample.env sample.standard_article) ""
         "https://www.pixivision.net" = Ok article
       ∧ model.pixivision.description article = "standard text").
Proof.
  split.
  - eexists. split; [vm_compute; reflexivity|].
    destruct (article_description_by_layout (sample.env sample.feature_article) ""
                "https://www.pixivision.net" _ eq_refl)
      as (raw & article_main & article_body & standard & Hraw & _).
    reflexivity.
  - eexists. split; [vm_compute; reflexivity|].
    destruct (article_description_by_layout (sample.env sample.standard_article) ""
                "https://www.pixivision.net" _ eq_refl)
      as (raw & article_main & article_body & standard & Hraw & _).
    reflexivity.
Defined.

(** ** Nested items *)

(** C6, as the code has it: the preview items of a user are taken one by
    one, and an item whose link has no [data-src] is left out of the list
    while the others keep their order and the user record is returned.
    The tags of an article are not recovered in this way: they are all
    kept, in order, when every tag link has an [href], and a tag link
    without [href] ends the extraction with a [TypeError]. *)
Theorem nested_items_parsed user_bs root_url tags :
  let user_illust_elms := find_all user_bs "li" [("class", Is "action-open-thumbnail")] in
  (∀ user, parse_user user_bs = Ok user →
     model.user.illusts_thumb_urls user = omap spec.thumb_data_src user_illust_elms)
  ∧ ((∀ elm, elm ∈ user_illust_elms → is_Some (find elm "a" [])) →
     illusts_thumb_urls_of user_illust_elms
     = Ok (omap spec.thumb_data_src user_illust_elms))
  ∧ ((∀ tag, tag ∈ tags → is_Some (get tag "href")) →
     ∃ tags_list, for_each (parse_tag root_url) tags = Ok tags_list
                  ∧ model.pixivision.tag_name <$> tags_list
                    = (λ tag, get tag "data-gtm-label") <$> tags)
  ∧ ((∃ tag, tag ∈ tags ∧ get tag "href" = None) →
     for_each (parse_tag root_url) tags = Raise TypeError).
Proof.
  intros user_illust_elms. split_and!.
  - intros user. unfold parse_user. fold user_illust_elms. intros H.
    repeat match type of H with
           | context [deref ?x] => destruct x eqn:?; simpl in H; [|discriminate]
           | context [item ?t ?k] => destruct (item t k) eqn:?; simpl in H; [|discriminate]
           end.
    destruct (illusts_thumb_urls_of user_illust_elms) as [urls|] eqn:Hurls;
      simpl in H; [|discriminate].
    injection H as <-. simpl. by apply illusts_thumb_urls_returned.
  - apply illusts_thumb_urls_filtered.
  - apply parse_tags_kept.
  - apply parse_tags_aborted.
Qed.

Lemma nested_items_parsed_witness :
  ∃ user,
    parse_user sample.user_item = Ok user
    ∧ length (find_all sample.user_item "li" [("class", Is "action-open-thumbnail")])
      = 3%nat
    ∧ model.user.illusts_thumb_urls user = ["ok/1.jpg"; "ok/3.jpg"].
Proof.
  eexists. split; [vm_compute; reflexivity|]. split; [reflexivity|].
  destruct (nested_items_parsed sample.user_item "" []) as (Hthumbs & _).
  exact (Hthumbs _ eq_refl).
Defined.

(** C6 as the specification states it fails: a tag link without [href]
    among the tags of an article fails the whole article, not that tag
    alone. *)
Lemma tag_without_href_aborts_article :
  parse_pixivision_article_page (sample.env sample.article_with_bad_tag) ""
    "https://www.pixivision.net" = Raise TypeError
  ∧ ∃ article,
      parse_pixivision_article_page (sample.env sample.standard_article) ""
        "https://www.pixivision.net" = Ok article
      ∧ length (model.pixivision.tags_list article) = 1%nat.
Proof. split; [vm_compute; reflexivity|]. eexists. split; vm_compute; reflexivity. Qed.

(** * Further properties of the code *)

Import helper_rest.

(** ** [format_artwork_preview_desc], bounds and cuts *)

Lemma len_append a b : len (a +:+ b) = len a + len b.
Proof. unfold len. rewrite length_append. lia. Qed.

Lemma length_substring_0 k s :
  String.length (String.substring 0 k s) = (k `min` String.length s)%nat.
Proof.
  revert k. induction s as [|c s IH]; intros [|k]; simpl; try done.
  by rewrite IH.
Qed.

Lemma len_cut n s :
  0 <= n → len (if len s >? n then slice_to s n +:+ "..." else s) <= n + 3.
Proof.
  intros Hn. destruct (Z.gtb_spec (len s) n) as [Hgt|Hle]; [|lia].
  rewrite len_append. unfold slice_to. destruct (Z.leb_spec 0 n); [|lia].
  unfold len in *. rewrite length_substring_0. simpl. lia.
Qed.

(** X1: with a limit that is not negative, the title line and the
    author line each have at most [num_lmt + 3] characters, so the whole
    description has at most [13 + 2 * num_lmt] characters beside the text
    of the pid. *)
Theorem format_artwork_preview_desc_bounded pid title uname num_lmt :
  0 <= num_lmt →
  len (format_artwork_preview_desc pid title uname num_lmt)
  <= 13 + len (format_value pid) + 2 * num_lmt.
Proof.
  intros Hn. unfold format_artwork_preview_desc.
  pose proof (len_cut num_lmt title Hn) as Htitle.
  pose proof (len_cut num_lmt ("Author: " +:+ uname) Hn) as Hauthor.
  revert Htitle Hauthor.
  generalize (if len title >? num_lmt then slice_to title num_lmt +:+ "..." else title).
  generalize (if len ("Author: " +:+ uname) >? num_lmt
              then slice_to ("Author: " +:+ uname) num_lmt +:+ "..."
              else "Author: " +:+ uname).
  intros author_text title_text Htitle Hauthor. rewrite !len_append.
  change (len "Pid: ") with 5. change (len NL) with 1. lia.
Qed.

Lemma format_artwork_preview_desc_bounded_witness :
  len (format_artwork_preview_desc (Int 96574020)
         "A title of more than thirteen characters" "Ailitonia" 13) <= 13 + 8 + 2 * 13.
Proof.
  exact (format_artwork_preview_desc_bounded (Int 96574020)
           "A title of more than thirteen characters" "Ailitonia" 13 ltac:(discriminate)).
Defined.

Lemma substring_0_append_ge a b k :
  String.substring 0 (String.length a + k) (a +:+ b) = a +:+ String.substring 0 k b.
Proof.
  induction a as [|c a IH]; [done|]. rewrite !append_cons. simpl. by rewrite IH.
Qed.

Lemma substring_0_append_le a b k :
  (k ≤ String.length a)%nat → String.substring 0 k (a +:+ b) = String.substring 0 k a.
Proof.
  revert k. induction a as [|c a IH]; intros [|k] Hk.
  - by destruct b.
  - simpl in Hk. lia.
  - rewrite append_cons. done.
  - rewrite append_cons. simpl in *. rewrite IH; [done | lia].
Qed.

(** X2: the limit counts the label of the author line.  With a limit
    of at least 8 (13 by default), a name of more than [num_lmt - 8]
    characters is cut to its first [num_lmt - 8] characters and closed by
    three dots; with a limit below 8 the label itself is cut and the name
    does not appear. *)
Theorem format_artwork_preview_desc_author pid title uname num_lmt :
  let title_text :=
    if len title >? num_lmt then slice_to title num_lmt +:+ "..." else title in
  (8 <= num_lmt → num_lmt - 8 < len uname →
   ∃ first,
     spec.first_chars (num_lmt - 8) uname first
     ∧ format_artwork_preview_desc pid title uname num_lmt
       = ("Pid: " +:+ format_value pid) +:+ NL +:+ title_text +:+ NL
           +:+ "Author: " +:+ first +:+ "...")
  ∧ (0 <= num_lmt < 8 →
     format_artwork_preview_desc pid title uname num_lmt
     = ("Pid: " +:+ format_value pid) +:+ NL +:+ title_text +:+ NL
         +:+ String.substring 0 (Z.to_nat num_lmt) "Author: " +:+ "...").
Proof.
  intros title_text. unfold format_artwork_preview_desc. fold title_text.
  assert (len ("Author: " +:+ uname) = 8 + len uname) as Hlen
    by (by rewrite len_append).
  split.
  - intros Hn Hname.
    destruct (Z.gtb_spec (len ("Author: " +:+ uname)) num_lmt) as [_|]; [|lia].
    unfold slice_to. destruct (Z.leb_spec 0 num_lmt); [|lia].
    replace (Z.to_nat num_lmt)
      with (String.length "Author: " + Z.to_nat (num_lmt - 8))%nat by (simpl; lia).
    rewrite substring_0_append_ge.
    destruct (substring_0_split (Z.to_nat (num_lmt - 8)) uname) as (rest & Hs & Hl);
      [unfold len in *; lia|].
    exists (String.substring 0 (Z.to_nat (num_lmt - 8)) uname). split.
    + exists rest. split; [done | unfold len; lia].
    + by rewrite !append_assoc.
  - intros Hn.
    destruct (Z.gtb_spec (len ("Author: " +:+ uname)) num_lmt) as [_|];
      [|unfold len in *; lia].
    unfold slice_to. destruct (Z.leb_spec 0 num_lmt); [|lia].
    rewrite substring_0_append_le by (simpl; lia). done.
Qed.

Lemma format_artwork_preview_desc_author_witness :
  format_artwork_preview_desc (Int 1) "t" "Ailitonia" 13
  = "Pid: 1" +:+ NL +:+ "t" +:+ NL +:+ "Author: Ailit..."
  ∧ format_artwork_preview_desc (Int 1) "t" "Ailitonia" 5
    = "Pid: 1" +:+ NL +:+ "t" +:+ NL +:+ "Autho...".
Proof.
  destruct (format_artwork_preview_desc_author (Int 1) "t" "Ailitonia" 13) as [Hcut _].
  destruct (format_artwork_preview_desc_author (Int 1) "t" "Ailitonia" 5) as [_ Hlabel].
  split.
  - destruct Hcut as (first & _ & _); [discriminate | reflexivity | reflexivity].
  - apply Hlabel. split; [discriminate | reflexivity].
Defined.

(** X3: a negative limit cuts both lines whatever their length: each
    line loses its last [-num_lmt] characters (all of them when it has
    fewer) and is closed by three dots. *)
Theorem format_artwork_preview_desc_negative pid title uname num_lmt :
  num_lmt < 0 →
  ∃ title_kept title_lost author_kept author_lost,
    title = title_kept +:+ title_lost
    ∧ len title_lost = Z.min (- num_lmt) (len title)
    ∧ "Author: " +:+ uname = author_kept +:+ author_lost
    ∧ len author_lost = Z.min (- num_lmt) (len ("Author: " +:+ uname))
    ∧ format_artwork_preview_desc pid title uname num_lmt
      = ("Pid: " +:+ format_value pid) +:+ NL +:+ (title_kept +:+ "...") +:+ NL
          +:+ author_kept +:+ "...".
Proof.
  intros Hn.
  assert (∀ s, ∃ kept lost,
            s = kept +:+ lost ∧ len lost = Z.min (- num_lmt) (len s)
            ∧ (if len s >? num_lmt then slice_to s num_lmt +:+ "..." else s)
              = kept +:+ "...") as Hcut.
  { intros s. destruct (Z.gtb_spec (len s) num_lmt) as [_|]; [|unfold len in *; lia].
    unfold slice_to. destruct (Z.leb_spec 0 num_lmt); [lia|].
    destruct (substring_0_split (String.length s - Z.to_nat (- num_lmt)) s)
      as (rest & Hs & Hl); [lia|].
    exists (String.substring 0 (String.length s - Z.to_nat (- num_lmt)) s), rest.
    split; [done|]. split; [|done].
    apply (f_equal String.length) in Hs. rewrite length_append, Hl in Hs.
    unfold len. lia. }
  destruct (Hcut title) as (tk & tl & Ht & Htl & Htc).
  destruct (Hcut ("Author: " +:+ uname)) as (ak & al & Ha & Hal & Hac).
  exists tk, tl, ak, al. unfold format_artwork_preview_desc.
  rewrite Htc, Hac. by rewrite <- Ht, <- Ha.
Qed.

Lemma format_artwork_preview_desc_negative_witness :
  format_artwork_preview_desc (Int 9) "title" "u" (-2)
  = "Pid: 9" +:+ NL +:+ "tit..." +:+ NL +:+ "Author:...".
Proof.
  destruct (format_artwork_preview_desc_negative (Int 9) "title" "u" (-2))
    as (tk & tl & ak & al & _); [reflexivity|].
  reflexivity.
Defined.

(** ** Preview batches: how many previews *)

Lemma previews_length env requests :
  length (omap (spec.preview_of env) requests)
  = length (List.filter (spec.fetched env) requests).
Proof.
  induction requests as [|r requests IH]; csimpl; [done|].
  unfold spec.preview_of at 1, spec.fetched at 1.
  destruct (_get_pixiv_resource env _ None); csimpl; by rewrite IH.
Qed.

Lemma length_filter_le {A} (p : A → bool) (l : list A) :
  (length (List.filter p l) ≤ length l)%nat.
Proof. induction l as [|x l IH]; simpl; [done|]. destruct (p x); simpl; lia. Qed.

Lemma length_filter_all {A} (p : A → bool) (l : list A) :
  length (List.filter p l) = length l ↔ Forall (λ x, p x = true) l.
Proof.
  induction l as [|x l IH]; simpl; [by split|].
  pose proof (length_filter_le p l). destruct (p x) eqn:Hx; simpl.
  - rewrite Forall_cons. split; [intros [= Hl]; by apply IH in Hl|].
    intros [_ Hl]. f_equal. by apply IH.
  - split; [lia|]. intros [Hx' _]%Forall_cons. congruence.
Qed.

Lemma filter_all {A} (p : A → bool) (l : list A) :
  Forall (λ x, p x = true) l → List.filter p l = l.
Proof.
  induction 1 as [|x l Hx Hl IH]; simpl; [done|]. by rewrite Hx, IH.
Qed.

(** X4: the batch of [_request_preview_model] never counts more
    previews than it was given requests; it counts as many exactly when
    every fetch succeeded, and then the descriptions of the previews are
    those of the requests, one for one. *)
Theorem _request_preview_model_count env preview_name requests :
  ∃ batch,
    _request_preview_model env preview_name requests = Ok batch
    ∧ 0 <= model.artwork.count batch <= Z.of_nat (length requests)
    ∧ (model.artwork.count batch = Z.of_nat (length requests)
       ↔ Forall (λ request, spec.fetched env request = true) requests)
    ∧ (Forall (λ request, spec.fetched env request = true) requests →
       model.artwork.thumb_desc_text <$> model.artwork.previews batch
       = model.artwork.desc_text <$> requests).
Proof.
  rewrite preview_batch_returned. eexists. split; [reflexivity|]. simpl.
  rewrite previews_length.
  pose proof (length_filter_le (spec.fetched env) requests).
  split; [lia|]. split.
  - rewrite <- length_filter_all. lia.
  - intros Hall. by rewrite previews_texts, filter_all.
Qed.

(** X5: [emit_preview_model_from_searching_model] returns a batch with
    at most one preview per search result; the previews follow the order of
    the results whose picture was fetched, and each carries the description
    that [format_artwork_preview_desc] makes of the id, title and user name
    of its result with the default limit. *)
Theorem emit_preview_model_from_searching_model_previews env searching_name searching_model :
  let kept :=
    List.filter
      (λ data, match _get_pixiv_resource env (searching_url data) None with
               | Ok _ => true
               | Raise _ => false
               end)
      (searching_result searching_model) in
  ∃ batch,
    emit_preview_model_from_searching_model env searching_name searching_model = Ok batch
    ∧ model.artwork.preview_name batch = searching_name
    ∧ model.artwork.count batch = Z.of_nat (length kept)
    ∧ model.artwork.count batch <= Z.of_nat (length (searching_result searching_model))
    ∧ model.artwork.thumb_desc_text <$> model.artwork.previews batch
      = (λ data, format_artwork_preview_desc (id data) (searching_title data)
                   (userName data) 13) <$> kept.
Proof.
  intros kept. unfold emit_preview_model_from_searching_model.
  rewrite preview_batch_returned. eexists. split; [reflexivity|]. simpl.
  rewrite previews_length, previews_texts.
  assert (List.filter (spec.fetched env) (searching_request_list searching_model)
          = (λ data,
               {| model.artwork.desc_text :=
                    format_artwork_preview_desc (id data) (searching_title data)
                      (userName data) num_lmt_default;
                  model.artwork.request_url := searching_url data |}) <$> kept) as ->.
  { unfold kept, searching_request_list.
    induction (searching_result searching_model) as [|data l IH]; csimpl; [done|].
    unfold spec.fetched at 1. simpl.
    destruct (_get_pixiv_resource env (searching_url data) None); csimpl;
      by rewrite IH. }
  rewrite length_fmap. pose proof (length_filter_le
    (λ data, match _get_pixiv_resource env (searching_url data) None with
             | Ok _ => true | Raise _ => false end) (searching_result searching_model)).
  fold kept in H. split_and!; [done | done | lia |].
  rewrite <- list_fmap_compose. done.
Qed.

Lemma _request_preview_model_count_witness :
  ∃ batch,
    _request_preview_model (sample.env sample.no_doc) "search"
      [ {| model.artwork.desc_text := "Pid: 1"; model.artwork.request_url := "ok/1.jpg" |};
        {| model.artwork.desc_text := "Pid: 2"; model.artwork.request_url := "ok/2.jpg" |} ]
    = Ok batch
    ∧ model.artwork.thumb_desc_text <$> model.artwork.previews batch = ["Pid: 1"; "Pid: 2"].
Proof.
  destruct (_request_preview_model_count (sample.env sample.no_doc) "search"
    [ {| model.artwork.desc_text := "Pid: 1"; model.artwork.request_url := "ok/1.jpg" |};
      {| model.artwork.desc_text := "Pid: 2"; model.artwork.request_url := "ok/2.jpg" |} ])
    as (batch & Hbatch & _ & _ & Hall).
  exists batch. split; [exact Hbatch|].
  apply Hall. repeat constructor.
Defined.

(** ** [model/artwork.py] *)

Import artwork_py.

(** X6: [all_tags] lists the name of every tag, in order, and then the
    English translation of every tag that has one, in order; it holds as
    many entries as there are tags and translations, and every tag name and
    every translation is among them. *)
Theorem all_tags_complete (self : PixivArtworkTags) :
  let translated := omap (λ x, en <$> translation x) (tags self) in
  take (length (tags self)) (all_tags self) = tag <$> tags self
  ∧ drop (length (tags self)) (all_tags self) = translated
  ∧ length (all_tags self) = (length (tags self) + length translated)%nat
  ∧ (∀ x, x ∈ tags self → tag x ∈ all_tags self)
  ∧ (∀ x t, x ∈ tags self → translation x = Some t → en t ∈ all_tags self)
  ∧ (∀ name, name ∈ all_tags self →
       ∃ x, x ∈ tags self ∧ (name = tag x ∨ en <$> translation x = Some name)).
Proof.
  intros translated. unfold all_tags. fold translated.
  assert (length (map tag (tags self)) = length (tags self)) as Hlen
    by apply length_map.
  split_and!.
  - by rewrite take_app_length'.
  - by rewrite drop_app_length'.
  - by rewrite length_app, Hlen.
  - intros x Hx. apply elem_of_app. left. by apply list_elem_of_fmap_2.
  - intros x t Hx Ht. apply elem_of_app. right.
    apply list_elem_of_omap. exists x. by rewrite Ht.
  - intros name [Hname | Hname]%elem_of_app.
    + apply list_elem_of_fmap in Hname as (x & -> & Hx). eauto.
    + apply list_elem_of_omap in Hname as (x & Hx & Hname). eauto.
Qed.

Lemma index_dict_lookup body : ∀ index d k,
  index_dict index body d !! k
  = if decide (index <= k < index + Z.of_nat (length body))
    then urls <$> body !! Z.to_nat (k - index)
    else d !! k.
Proof.
  induction body as [|x body IH]; intros index d k; simpl.
  - case_decide; [lia | done].
  - rewrite IH. case_decide as Hin.
    + rewrite decide_True by lia.
      replace (Z.to_nat (k - index)) with (S (Z.to_nat (k - (index + 1)))) by lia.
      done.
    + destruct (decide (k = index)) as [->|Hne].
      * rewrite decide_True by lia. rewrite Z.sub_diag. simpl.
        by rewrite lookup_insert_eq.
      * rewrite decide_False by lia. by rewrite lookup_insert_ne.
Qed.

(** X7: [index_page] raises [ValueError] when the page data is marked
    as an error; otherwise it is a dict with exactly the keys [0] to
    [len(body) - 1], and the key [i] holds the urls of the [i]-th page. *)
Theorem index_page_lookup (self : PixivArtworkPageModel) :
  (error self = true → index_page self = Raise ValueError)
  ∧ (error self = false →
     ∃ pages,
       index_page self = Ok pages
       ∧ (∀ i : nat, pages !! Z.of_nat i = urls <$> body self !! i)
       ∧ (∀ k, is_Some (pages !! k) ↔ 0 <= k < Z.of_nat (length (body self)))
       ∧ size pages = length (body self)).
Proof.
  unfold index_page. split; intros ->; [done|].
  eexists. split; [reflexivity|].
  assert (∀ k, index_dict 0 (body self) ∅ !! k
               = if decide (0 <= k < Z.of_nat (length (body self)))
                 then urls <$> body self !! Z.to_nat k else None) as Hlook.
  { intros k. rewrite index_dict_lookup, Z.sub_0_r, lookup_empty. done. }
  split_and!.
  - intros i. rewrite Hlook. rewrite Nat2Z.id.
    case_decide as Hi; [done|].
    rewrite lookup_ge_None_2; [done | lia].
  - intros k. rewrite Hlook. case_decide as Hk; [|split; [by intros [? [=]] | done]].
    split; [done|]. intros _. rewrite fmap_is_Some. apply lookup_lt_is_Some. lia.
  - generalize (body self). intros l.
    assert (∀ index d, (∀ k, index <= k → d !! k = None) →
              size (index_dict index l d) = (size d + length l)%nat) as Hsize.
    { induction l as [|x l IH]; intros index d Hd; simpl; [lia|].
      rewrite IH.
      - rewrite map_size_insert_None by (apply Hd; lia). lia.
      - intros k Hk. rewrite lookup_insert_ne by lia. apply Hd. lia. }
    rewrite Hsize; [by rewrite map_size_empty | intros; apply lookup_empty].
Qed.

Lemma index_dict_nth body (i : nat) :
  index_dict 0 body ∅ !! Z.of_nat i = urls <$> body !! i.
Proof.
  rewrite index_dict_lookup, Z.sub_0_r, lookup_empty, Nat2Z.id.
  case_decide as Hi; [done|]. rewrite lookup_ge_None_2; [done | lia].
Qed.

(** X8: [type_page] and [index_page] agree.  Both raise [ValueError]
    on page data marked as an error; otherwise the four lists of
    [type_page] have one entry per page, and the entry [i] of each list is
    the url of that size in [index_page[i]]. *)
Theorem type_page_aligned (self : PixivArtworkPageModel) :
  (error self = true →
   type_page self = Raise ValueError ∧ index_page self = Raise ValueError)
  ∧ (error self = false →
     ∃ all pages,
       type_page self = Ok all ∧ index_page self = Ok pages
       ∧ length (all_original all) = length (body self)
       ∧ length (all_regular all) = length (body self)
       ∧ length (all_small all) = length (body self)
       ∧ length (all_thumb_mini all) = length (body self)
       ∧ ∀ (i : nat) page, pages !! Z.of_nat i = Some page →
           all_original all !! i = Some (original page)
           ∧ all_regular all !! i = Some (regular page)
           ∧ all_small all !! i = Some (small page)
           ∧ all_thumb_mini all !! i = Some (thumb_mini page)).
Proof.
  unfold type_page, index_page. split; intros ->; [done|].
  eexists _, _. split; [reflexivity|]. split; [reflexivity|]. simpl.
  rewrite !length_map. split_and!; [done..|].
  intros i page. rewrite index_dict_nth.
  change (map ?f ?l) with (f <$> l). rewrite !list_lookup_fmap.
  destruct (body self !! i) as [x|]; simpl; [|done]. by intros [= <-].
Qed.

Lemma type_page_aligned_witness :
  type_page {| body := [ {| urls := {| original := "o0"; regular := "r0"; small := "s0";
                                       thumb_mini := "t0" |};
                            width := 1; height := 2 |} ];
               error := false; message := "" |}
  = Ok {| all_original := ["o0"]; all_regular := ["r0"]; all_small := ["s0"];
          all_thumb_mini := ["t0"] |}.
Proof.
  destruct (type_page_aligned
    {| body := [ {| urls := {| original := "o0"; regular := "r0"; small := "s0";
                               thumb_mini := "t0" |};
                    width := 1; height := 2 |} ];
       error := false; message := "" |}) as [_ Hok].
  destruct (Hok eq_refl) as (all & pages & Hall & _). reflexivity.
Defined.

Lemma index_page_lookup_witness :
  ∃ pages,
    index_page {| body := [ {| urls := {| original := "o0"; regular := "r0"; small := "s0";
                                          thumb_mini := "t0" |};
                               width := 1; height := 2 |} ];
                  error := false; message := "" |} = Ok pages
    ∧ pages !! 0 = Some {| original := "o0"; regular := "r0"; small := "s0";
                          thumb_mini := "t0" |}
    ∧ pages !! 1 = None.
Proof.
  destruct (index_page_lookup
    {| body := [ {| urls := {| original := "o0"; regular := "r0"; small := "s0";
                               thumb_mini := "t0" |};
                    width := 1; height := 2 |} ];
       error := false; message := "" |}) as [_ Hok].
  destruct (Hok eq_refl) as (pages & Hpages & Hnth & _).
  exists pages. split; [exact Hpages|].
  split; [exact (Hnth 0%nat) | exact (Hnth 1%nat)].
Defined.

(** ** The grid of user cards, card by card *)

(** The cards that were rendered, among the users given. *)
Lemma gather_rendered {A B} (f : A → result B) (l : list A) n :
  process_utils.semaphore_gather (map f l) n true
  = Ok <$> omap (λ x, match f x with Ok v => Some v | Raise _ => None end) l.
Proof.
  unfold process_utils.semaphore_gather.
  induction l as [|x l IH]; csimpl; [done|].
  destruct (f x); csimpl; by rewrite IH.
Qed.

Lemma paste_cards_tiles sw th ch cards : ∀ index bg,
  ∃ bg',
    for_enumerate (paste_card sw th ch) index (Ok <$> cards) bg = Ok bg'
    ∧ PIL.tiles bg'
      = PIL.tiles bg
          ++ imap (λ i card, (card, (sw, sw * 2 + th + (ch + sw) * (index + Z.of_nat i))))
               cards.
Proof.
  induction cards as [|card cards IH]; intros index bg; csimpl.
  - eexists. split; [done|]. by rewrite app_nil_r.
  - destruct (IH (index + 1) (PIL.Paste bg card (sw, sw * 2 + th + (ch + sw) * index) None))
      as (bg' & -> & Htiles).
    exists bg'. split; [done|]. rewrite Htiles. simpl. rewrite <- app_assoc. simpl.
    rewrite Z.add_0_r. do 2 f_equal. apply imap_ext. intros i x _. simpl.
    do 3 f_equal. lia.
Qed.

Lemma length_omap_le {A B} (f : A → option B) (l : list A) :
  (length (omap f l) ≤ length l)%nat.
Proof. induction l as [|x l IH]; csimpl; [done|]. destruct (f x); simpl; lia. Qed.

Lemma length_list_slice_to {A} (l : list A) n :
  (length (list_slice_to l n) ≤ length l)%nat
  ∧ (0 <= n → Z.of_nat (length (list_slice_to l n)) <= n).
Proof.
  unfold list_slice_to. destruct (Z.leb_spec 0 n); rewrite length_take; lia.
Qed.

Lemma paste_thumbs_size env width slots : ∀ index bg card,
  for_enumerate (paste_illust_thumb env width) index slots bg = Ok card →
  PIL.size (decoded_size env) card = PIL.size (decoded_size env) bg.
Proof.
  induction slots as [|slot slots IH]; intros index bg card; simpl.
  - by intros [= <-].
  - destruct (paste_illust_thumb env width index slot bg) as [bg1|e] eqn:Hone; [|done].
    intros Hrest. apply IH in Hrest. rewrite Hrest.
    by apply paste_illust_thumb_ok in Hone as [[frame ->] _].
Qed.

(** A card that is returned has the size it was made with, and that
    size is not negative. *)
Lemma card_size env user width card :
  _generate_user_searching_result_card env user width = Ok card →
  PIL.size (decoded_size env) card = (width, card_height env width)
  ∧ 0 <= width ∧ 0 <= card_height env width.
Proof.
  intros (user_head & size & bg & _ & _ & _ & Hsize & Hw & Hh & Hloop)%card_before_previews.
  apply paste_thumbs_size in Hloop. by rewrite Hloop.
Qed.

Lemma elem_of_omap_rendered {A B} (f : A → result B) (l : list A) y :
  y ∈ omap (λ x, match f x with Ok v => Some v | Raise _ => None end) l →
  ∃ x, x ∈ l ∧ f x = Ok y.
Proof.
  intros (x & Hx & Hy)%list_elem_of_omap. exists x. split; [done|].
  destruct (f x); congruence.
Qed.

(** X9: the picture of [generate_user_searching_result_image].  A file
    that is returned holds the encoding of a canvas on which the cards
    that were rendered for the first [user_searching_card_num] users are
    pasted, in the order of the users, one below the other: card [i] at
    the spacing from the left and at
    [2 * spacing + title height + (card height + spacing) * i] from the
    top.  Every card has the size [(width, card height)]; the cards lie
    below the title line, do not overlap, and end two spacings above the
    lower edge of the canvas, whose width leaves one spacing on either side
    of a card. *)
Theorem grid_cards_placed env searching width file :
  let users := list_slice_to (model.user.users searching) (user_searching_card_num env) in
  let cards :=
    process_utils.semaphore_gather
      (map (λ user, _generate_user_searching_result_card env user width) users) 10 true in
  let rendered :=
    omap (λ user, match _generate_user_searching_result_card env user width with
                  | Ok card => Some card
                  | Raise _ => None
                  end) users in
  let _card_height := card_height env width in
  let _spacing_width := int_div _card_height 12 in
  let _title_text :=
    search_title_label +:+ model.user.search_name searching
      +:+ search_total_label +:+ model.user.count searching in
  let _title_text_h :=
    (getsize_multiline env (PIL.truetype (default_font_file env) (int_div _card_height 6))
       _title_text).2 in
  let top (i : nat) :=
    _spacing_width * 2 + _title_text_h + (_card_height + _spacing_width) * Z.of_nat i in
  generate_user_searching_result_image env searching width = Ok file →
  ∃ _background,
    _background_of_cards env searching width cards = Ok _background
    ∧ save env _background "JPEG" = Ok (local_resource.content file)
    ∧ PIL.tiles _background = imap (λ i card, (card, (_spacing_width, top i))) rendered
    ∧ (∀ card, card ∈ rendered →
         PIL.size (decoded_size env) card = (width, _card_height))
    ∧ (length rendered ≤ length (model.user.users searching))%nat
    ∧ (0 <= user_searching_card_num env →
       Z.of_nat (length rendered) <= user_searching_card_num env)
    ∧ (PIL.size (decoded_size env) _background).1
      = _spacing_width + width + _spacing_width
    ∧ ∀ i : nat, (i < length rendered)%nat →
        0 <= _spacing_width
        ∧ _spacing_width * 2 + _title_text_h <= top i
        ∧ top i + _card_height + 2 * _spacing_width
          <= (PIL.size (decoded_size env) _background).2
        ∧ ∀ j : nat, (i < j)%nat → top i + _card_height <= top j.
Proof.
  intros users cards rendered _card_height _spacing_width _title_text _title_text_h top.
  unfold generate_user_searching_result_image, _handle_generate_image.
  fold users cards.
  assert (cards = Ok <$> rendered) as Hcards by apply gather_rendered.
  destruct (_background_of_cards env searching width cards) as [_background|]
    eqn:Hbg; simpl; [|done].
  destruct (save env _background "JPEG") as [image_content|] eqn:Hsave; simpl; [|done].
  destruct (write env _ image_content); simpl; [|done].
  intros [= <-]. simpl. exists _background.
  destruct (_background_of_cards_cases env searching width cards) as [_ Hsize];
    [apply gather_filtered_ok|].
  destruct (Hsize _ Hbg) as (Hsz & _ & _ & _). clear Hsize.
  fold _card_height _spacing_width _title_text _title_text_h in Hsz.
  assert (PIL.tiles _background
          = imap (λ i card, (card, (_spacing_width, top i))) rendered) as Htiles.
  { revert Hbg. unfold _background_of_cards. rewrite Hcards.
    destruct (truetype env _ _) as [_font_title|] eqn:Hfont; simpl; [|done].
    assert (_font_title
            = PIL.truetype (default_font_file env) (int_div _card_height 6)) as ->.
    { revert Hfont. unfold truetype. destruct (font_error env _); [done | by intros [= <-]]. }
    destruct (PIL.new "RGB" _ _) as [canvas|] eqn:Hnew; simpl; [|done].
    assert (PIL.tiles canvas = []) as Hnone.
    { revert Hnew. unfold PIL.new. destruct (_ || _); [done | by intros [= <-]]. }
    match goal with
    | |- for_enumerate (paste_card ?sw ?th ?ch) 0 (Ok <$> rendered) ?bg = _ → _ =>
        destruct (paste_cards_tiles sw th ch rendered 0 bg) as (bg' & -> & Hbg')
    end.
    intros [= <-]. rewrite Hbg'. simpl. by rewrite Hnone. }
  pose proof (length_omap_le
    (λ user, match _generate_user_searching_result_card env user width with
             | Ok card => Some card
             | Raise _ => None
             end) users) as Hle.
  fold rendered in Hle.
  destruct (length_list_slice_to (model.user.users searching) (user_searching_card_num env))
    as [Hall Hnum]. fold users in Hall, Hnum.
  assert (∀ card, card ∈ rendered →
            PIL.size (decoded_size env) card = (width, _card_height)
            ∧ 0 <= _card_height) as Hcard.
  { intros card (user & _ & Huser)%elem_of_omap_rendered.
    apply card_size in Huser as (? & _ & ?). done. }
  rewrite Hsz, Hcards, length_fmap. simpl.
  split_and!; [done | done | done | by intros card [? _]%Hcard | lia | lia | lia |].
  intros i Hi.
  assert (0 <= _card_height) as Hheight.
  { destruct (lookup_lt_is_Some_2 rendered i Hi) as [card Hlook].
    apply list_elem_of_lookup_2 in Hlook. by apply Hcard in Hlook as [_ ?]. }
  assert (0 <= _spacing_width) as Hsp.
  { unfold _spacing_width, int_div. apply Z.quot_pos; lia. }
  unfold top. split_and!; [done | nia | nia | intros j Hj; nia].
Qed.

Lemma grid_cards_placed_witness :
  ∃ file _background,
    generate_user_searching_result_image (sample.env sample.no_doc)
      {| model.user.search_name := "Ailitonia"; model.user.count := "1";
         model.user.users := [sample.user] |} 1600 = Ok file
    ∧ save (sample.env sample.no_doc) _background "JPEG" = Ok (local_resource.content file)
    ∧ length (PIL.tiles _background) = 1%nat.
Proof.
  destruct (generate_user_searching_result_image (sample.env sample.no_doc)
      {| model.user.search_name := "Ailitonia"; model.user.count := "1";
         model.user.users := [sample.user] |} 1600) as [file|e] eqn:Hfile;
    [|by vm_compute in Hfile].
  destruct (grid_cards_placed (sample.env sample.no_doc)
    {| model.user.search_name := "Ailitonia"; model.user.count := "1";
       model.user.users := [sample.user] |} 1600 file Hfile)
    as (_background & _ & Hsave & Htiles & _).
  exists file, _background. split; [reflexivity|]. split; [exact Hsave|].
  rewrite Htiles. reflexivity.
Defined.

(** ** The user card: size and failures *)

(** The loop over the previews leaves with the exception of the first
    fetched preview that does not decode. *)
Lemma paste_thumbs_undecoded env width slots : ∀ index bg (i : nat) data e,
  (∀ x0 y0 x1 y1, x0 <= x1 → y0 <= y1 → draws env (x0, y0, x1, y1) = true) →
  0 < card_thumb_img_width env width →
  slots !! i = Some (Ok data) → image_open env data = Raise e →
  (∀ (j : nat) data', (j < i)%nat → slots !! j = Some (Ok data') →
     ∃ size, image_open env data' = Ok size) →
  for_enumerate (paste_illust_thumb env width) index slots bg = Raise e.
Proof.
  induction slots as [|slot slots IH]; intros index bg i data e Hdraws Hw Hslot Hdata Hbefore;
    [done|].
  simpl. destruct i as [|i]; simpl in Hslot.
  - injection Hslot as ->. unfold paste_illust_thumb, open_image. by rewrite Hdata.
  - destruct (paste_illust_thumb_returned env width index slot bg Hdraws Hw) as [bg1 ->].
    { intros data' ->. by apply (Hbefore 0%nat); [lia|]. }
    eapply IH; [done.. |]. intros j data' Hj Hj'. apply (Hbefore (S j)); [lia | done].
Qed.

(** X10: what [_generate_user_searching_result_card] does when a picture
    fails.  The exception of the fetch of the head picture is raised as it
    is.  When the fonts load and the card and its frame are made, a head
    picture that does not decode ends the card with the exception of the
    decoder; a head picture that decodes but is given no side, the width
    of the card being too small, ends it with the [ValueError] of
    [resize]; and the first preview among the first four that was fetched
    but does not decode ends it with the exception of the decoder: the
    grey placeholder stands in for a fetch that failed only.  So on every
    card returned the fetched previews among the first four decode, and
    the card has the size [(width, card height)]. *)
Theorem card_failures env user width :
  let user_illusts_thumb :=
    map (λ url, _get_pixiv_resource env url None) (model.user.illusts_thumb_urls user) in
  let card := _generate_user_searching_result_card env user width in
  let w := card_thumb_img_width env width in
  (∀ e, _get_pixiv_resource env (model.user.user_head_url user) None = Raise e →
        card = Raise e)
  ∧ (∀ user_head,
       _get_pixiv_resource env (model.user.user_head_url user) None = Ok user_head →
       font_error env
         (PIL.truetype (default_font_file env) (int_div (card_height env width) 8)) = None →
       font_error env
         (PIL.truetype (default_font_file env) (int_div (card_height env width) 12)) = None →
       (∀ x0 y0 x1 y1, x0 <= x1 → y0 <= y1 → draws env (x0, y0, x1, y1) = true) →
       0 <= card_height env width → card_spacing_width env width <= 2 * width →
       (∀ e, image_open env user_head = Raise e → card = Raise e)
       ∧ (∀ size, image_open env user_head = Ok size → size ≠ (w, w) → w <= 0 →
            card = Raise ValueError)
       ∧ (∀ size (i : nat) data e,
            image_open env user_head = Ok size → 0 < w →
            (i < 4)%nat → user_illusts_thumb !! i = Some (Ok data) →
            image_open env data = Raise e →
            (∀ (j : nat) data', (j < i)%nat → user_illusts_thumb !! j = Some (Ok data') →
               ∃ size', image_open env data' = Ok size') →
            card = Raise e))
  ∧ (∀ image, card = Ok image →
       PIL.size (decoded_size env) image = (width, card_height env width)
       ∧ ∀ (i : nat) data, (i < 4)%nat → user_illusts_thumb !! i = Some (Ok data) →
           ∃ size, image_open env data = Ok size).
Proof.
  intros user_illusts_thumb card w. subst card. split_and!.
  - intros e Hhead. unfold _generate_user_searching_result_card. by rewrite Hhead.
  - intros user_head Hhead Hmain Hdesc Hdraws Hh Hsp.
    unfold _generate_user_searching_result_card, _handle_generate_card,
      process_utils.semaphore_gather.
    fold user_illusts_thumb. rewrite Hhead. simpl.
    unfold truetype. rewrite Hmain, Hdesc. simpl.
    unfold w, card_thumb_img_width.
    set (h := card_height env width) in *.
    set (hw := card_user_head_width env width) in *.
    set (sp := card_spacing_width env width) in *.
    assert (0 <= sp ∧ hw + 2 * sp <= h) as (Hsp0 & Hfit).
    { unfold sp, hw, card_spacing_width, card_user_head_width, int_div in *.
      fold h in Hsp |- *.
      assert (0 <= h * 5 ÷ 6) by (apply Z.quot_pos; lia).
      assert (6 * (h * 5 ÷ 6) <= h * 5) by (apply Z.mul_quot_le; lia).
      assert (0 <= (h - h * 5 ÷ 6) ÷ 2) by (apply Z.quot_pos; lia).
      assert (2 * ((h - h * 5 ÷ 6) ÷ 2) <= h - h * 5 ÷ 6) by (apply Z.mul_quot_le; lia).
      lia. }
    assert (0 <= hw) as Hhw.
    { unfold hw, card_user_head_width, int_div. fold h. apply Z.quot_pos; lia. }
    destruct (new_cases "RGB" (width, h) [255; 255; 255]) as [(-> & _) | (_ & Hneg)];
      simpl in *; [|lia].
    unfold rounded_rectangle. rewrite Hdraws; [simpl | |].
    2, 3: unfold int_div; apply Z.quot_le_mono; lia.
    split_and!.
    + intros e Hopen. unfold open_image. by rewrite Hopen.
    + intros size Hopen Hsize Hw. unfold open_image. rewrite Hopen. simpl.
      unfold PIL.resize. simpl. unfold decoded_size. rewrite Hopen.
      case_decide; [done|]. simpl. by destruct (Z.leb_spec hw 0); [|lia].
    + intros size i data e Hopen Hw Hi Hslot Hdata Hbefore.
      unfold open_image at 1. rewrite Hopen. simpl.
      rewrite resize_positive by done. simpl.
      destruct (new_cases "RGBA" (hw, hw) [255; 255; 255; 0]) as [(-> & _) | (_ & Hneg)];
        simpl in *; [|lia].
      unfold ellipse. rewrite Hdraws by lia. simpl.
      eapply (paste_thumbs_undecoded env width _ _ _ i data e); [done | done | | done |].
      * by rewrite lookup_take_lt.
      * intros j data' Hj Hj'. apply (Hbefore j data'); [done|].
        by rewrite lookup_take_lt in Hj' by lia.
  - intros image Himage. split; [by apply card_size in Himage as [? _]|].
    intros i data Hi Hslot.
    apply card_before_previews in Himage
      as (user_head & size & bg & _ & _ & _ & _ & _ & _ & Hloop).
    fold user_illusts_thumb in Hloop.
    assert (take 4 user_illusts_thumb !! i = Some (Ok data)) as Hslot'
      by (by rewrite lookup_take_lt).
    clear Hslot. revert Hloop Hslot'. generalize (take 4 user_illusts_thumb) 0 bg i.
    induction l as [|slot slots IH]; intros index bg0 [|k]; simpl; try done.
    + intros Hloop [= ->].
      destruct (paste_illust_thumb env width index (Ok data) bg0) as [bg1|] eqn:Hone;
        [|done].
      apply paste_illust_thumb_ok in Hone as [_ Hdec]. by apply Hdec.
    + destruct (paste_illust_thumb env width index slot bg0) as [bg1|]; [|done].
      intros Hloop Hslot. by eapply IH.
Qed.

Lemma card_failures_witness :
  _generate_user_searching_result_card (sample.env sample.no_doc)
    {| model.user.user_id := "1"; model.user.user_name := "x";
       model.user.user_head_url := "gone/head.jpg";
       model.user.user_illust_count := "0"; model.user.user_desc := "";
       model.user.illusts_thumb_urls := [] |} 1600
  = Raise (PixivNetworkError "PixivNetworkError, status code 404")
  ∧ _generate_user_searching_result_card (sample.env sample.no_doc) sample.user 10
    = Raise ValueError.
Proof.
  split.
  - destruct (card_failures (sample.env sample.no_doc)
      {| model.user.user_id := "1"; model.user.user_name := "x";
         model.user.user_head_url := "gone/head.jpg";
         model.user.user_illust_count := "0"; model.user.user_desc := "";
         model.user.illusts_thumb_urls := [] |} 1600) as [Hhead _].
    apply Hhead. reflexivity.
  - destruct (card_failures (sample.env sample.no_doc) sample.user 10) as (_ & Hmade & _).
    destruct (Hmade [Byte.x89; Byte.x50]) as (_ & Hside & _).
    + reflexivity.
    + reflexivity.
    + reflexivity.
    + intros x0 y0 x1 y1 Hx Hy. simpl.
      apply andb_true_iff. split; by apply Z.leb_le.
    + by vm_compute.
    + by vm_compute.
    + apply (Hside (128, 128)); [reflexivity | by vm_compute | by vm_compute].
Defined.

(** ** The user-search page *)

Lemma for_each_ok {A B} (f : A → result B) l ys :
  for_each f l = Ok ys ↔ Forall2 (λ x y, f x = Ok y) l ys.
Proof.
  revert ys. induction l as [|x l IH]; intros ys; simpl.
  - split; [intros [= <-]; constructor | by intros ->%Forall2_nil_inv_l].
  - destruct (f x) as [y|e] eqn:Hx.
    + destruct (for_each f l) as [ys'|e].
      * split.
        -- intros [= <-]. constructor; [done | by apply IH].
        -- intros (y' & ys'' & Hy & Hys & ->)%Forall2_cons_inv_l.
           apply IH in Hys. congruence.
      * split; [done|].
        intros (y' & ys'' & Hy & Hys & ->)%Forall2_cons_inv_l.
        by apply IH in Hys.
    + split; [done|].
      intros (y' & ys'' & Hy & Hys & ->)%Forall2_cons_inv_l. congruence.
Qed.

(** What a loop raises is the exception of its first round that fails. *)
Lemma for_each_raise {A B} (f : A → result B) l e :
  for_each f l = Raise e ↔
  ∃ (i : nat) x, l !! i = Some x ∧ f x = Raise e
                 ∧ ∀ (j : nat) y, (j < i)%nat → l !! j = Some y → ∃ v, f y = Ok v.
Proof.
  induction l as [|x l IH]; simpl.
  - split; [done | by intros (i & x & Hx & _)].
  - destruct (f x) as [y|e'] eqn:Hx.
    + destruct (for_each f l) as [ys|e'] eqn:Hl.
      * split; [done|]. intros ([|i] & x' & Hi & Hx' & Hbefore); simpl in Hi.
        { congruence. }
        assert (Ok ys = Raise e :> result (list B)); [|done].
        apply IH. exists i, x'. split_and!; [done..|].
        intros j y' Hj Hy'. apply (Hbefore (S j)); [lia | done].
      * rewrite IH. split.
        -- intros (i & x' & Hi & Hx' & Hbefore). exists (S i), x'. split_and!; [done..|].
           intros [|j] y' Hj Hy'; simpl in Hy'; [by exists y; congruence|].
           apply (Hbefore j); [lia | done].
        -- intros ([|i] & x' & Hi & Hx' & Hbefore); simpl in Hi; [congruence|].
           exists i, x'. split_and!; [done..|].
           intros j y' Hj Hy'. apply (Hbefore (S j)); [lia | done].
    + split.
      * intros [= ->]. exists 0%nat, x. split_and!; [done..|]. intros; lia.
      * intros ([|i] & x' & Hi & Hx' & Hbefore); simpl in Hi; [congruence|].
        destruct (Hbefore 0%nat x) as [v Hv]; [lia | done | congruence].
Qed.

Lemma for_each_fails {A B} (f : A → result B) l x e :
  x ∈ l → f x = Raise e → ∃ e', for_each f l = Raise e'.
Proof.
  intros Hin Hx. destruct (for_each f l) as [ys|e'] eqn:Hl; [|eauto].
  apply for_each_ok in Hl. apply list_elem_of_lookup in Hin as [i Hi].
  destruct (Forall2_lookup_l _ _ _ _ _ Hl Hi) as (y & _ & Hy). congruence.
Qed.

(** X11: [parse_user_searching_result_page] is all or nothing.  A page
    without the [column-header] block is an [AttributeError]; a returned
    model is the validation of a record with the texts of the header and
    one user per [li.user-recommendation-item], in the order of the page,
    each parsed from its item; and one item that cannot be parsed makes
    the whole page fail, the users before it are not returned. *)
Theorem parse_user_searching_result_page_users env content :
  let search_page_bs := BeautifulSoup env content in
  let users_bs :=
    bs4.find_all search_page_bs "li" [("class", bs4.Is "user-recommendation-item")] in
  (bs4.find search_page_bs "div" [("class", bs4.Is "column-header")] = None →
   parse_user_searching_result_page env content = Raise AttributeError)
  ∧ (∀ searching, parse_user_searching_result_page env content = Ok searching →
       ∃ title_bs title count user_list,
         bs4.find search_page_bs "div" [("class", bs4.Is "column-header")] = Some title_bs
         ∧ bs4.find title_bs "h1" [("class", bs4.Is "column-title")] = Some title
         ∧ bs4.find title_bs "span" [("class", bs4.Is "count-badge")] = Some count
         ∧ Forall2 (λ user_bs user, parse_user user_bs = Ok user) users_bs user_list
         ∧ length user_list = length users_bs
         ∧ validate_user_searching env
             {| model.user.search_name := bs4.get_text title;
                model.user.count := bs4.get_text count;
                model.user.users := user_list |} = Ok searching)
  ∧ (∀ user_bs e, user_bs ∈ users_bs → parse_user user_bs = Raise e →
       ∃ e', parse_user_searching_result_page env content = Raise e').
Proof.
  intros search_page_bs users_bs. unfold parse_user_searching_result_page.
  fold search_page_bs. fold users_bs.
  split; [by intros ->|]. split.
  - intros searching.
    destruct (bs4.find search_page_bs "div" _) as [title_bs|]; simpl; [|done].
    destruct (bs4.find title_bs "h1" _) as [title|] eqn:Htitle; simpl; [|done].
    destruct (bs4.find title_bs "span" _) as [count|] eqn:Hcount; simpl; [|done].
    destruct (for_each parse_user users_bs) as [user_list|e] eqn:Hloop; simpl; [|done].
    intros Hvalid. apply for_each_ok in Hloop.
    exists title_bs, title, count, user_list.
    split_and!; [done.. | by apply Forall2_length in Hloop | done].
  - intros user_bs e Hin Hfail.
    destruct (for_each_fails parse_user users_bs user_bs e Hin Hfail) as [e' He'].
    destruct (bs4.find search_page_bs "div" _) as [title_bs|]; simpl; [|eauto].
    destruct (bs4.find title_bs "h1" _) as [title|]; simpl; [|eauto].
    destruct (bs4.find title_bs "span" _) as [count|]; simpl; [|eauto].
    rewrite He'. simpl. eauto.
Qed.

Lemma parse_user_searching_result_page_users_witness :
  ∃ searching,
    parse_user_searching_result_page (sample.env sample.search_page) "" = Ok searching
    ∧ length (model.user.users searching) = 1%nat.
Proof.
  destruct (parse_user_searching_result_page_users (sample.env sample.search_page) "")
    as (_ & Hok & _).
  destruct (parse_user_searching_result_page (sample.env sample.search_page) "")
    as [searching|e] eqn:Hpage; [|by vm_compute in Hpage].
  exists searching. split; [reflexivity|].
  destruct (Hok searching eq_refl) as (title_bs & title & count & user_list & _ & _ & _ & _
                                       & Hlen & Hvalid).
  injection Hvalid as <-. exact Hlen.
Defined.

(** *** [str.replace] *)

Lemma prefix_spec a s : String.prefix a s = true ↔ ∃ t, s = a +:+ t.
Proof.
  revert s. induction a as [|c a IH]; intros [|c' s]; simpl; try by (split; eauto).
  - split; [done | by intros [t [=]]].
  - destruct (ascii_dec c c') as [->|Hne].
    + rewrite IH. split; intros [t Ht]; exists t;
        [by rewrite append_cons, Ht | by rewrite append_cons in Ht; injection Ht].
    + split; [done|]. intros [t Ht]. rewrite append_cons in Ht. congruence.
Qed.

Lemma replace_from_skip old new a s :
  replace_from old new (String.length a) (a +:+ s) = replace_from old new 0 s.
Proof.
  induction a as [|c a IH]; [by destruct s|]. rewrite append_cons. simpl. apply IH.
Qed.

(** An occurrence at the start is replaced, and the scan goes on after
    it. *)
Lemma replace_prefix old new s :
  old ≠ "" → replace (old +:+ s) old new = new +:+ replace s old new.
Proof.
  intros Hne. destruct old as [|c old]; [done|].
  unfold replace. rewrite append_cons. cbn [replace_from].
  rewrite <- (append_cons c old s).
  assert (String.prefix (String c old) (String c old +:+ s) = true) as ->.
  { apply prefix_spec. by exists s. }
  f_equal.
  replace (String.length (String c old) - 1)%nat with (String.length old) by (simpl; lia).
  apply replace_from_skip.
Qed.

Lemma replace_cons old new c s :
  String.prefix old (String c s) = false →
  replace (String c s) old new = String c (replace s old new).
Proof. unfold replace. cbn [replace_from]. by intros ->. Qed.

(** A text in which the first character of [old] does not occur is left
    as it is. *)
Lemma replace_absent c old new s :
  all_chars (no_char c) s = true → replace s (String c old) new = s.
Proof.
  induction s as [|x s IH]; [done|]. simpl. intros [Hx Hs]%andb_true_iff.
  rewrite replace_cons, IH; [done..|].
  simpl. destruct (ascii_dec c x) as [->|]; [|done]. by rewrite no_char_self in Hx.
Qed.

(** After [replace(CRLF, ' ')] no [CRLF] is left. *)
Lemma replace_CRLF s : ∀ a b, replace s CRLF " " ≠ a +:+ CRLF +:+ b.
Proof.
  assert (∀ n s, (String.length s ≤ n)%nat →
            (∀ a b, replace s CRLF " " ≠ a +:+ CRLF +:+ b)
            ∧ (∀ t, replace s CRLF " " = String newline t → ∃ t', s = String newline t'))
    as Hall; [|intros a b; by eapply Hall].
  clear s. induction n as [|n IH]; intros s Hlen.
  { destruct s; [|simpl in Hlen; lia]. split; [by intros [|x a] b | done]. }
  destruct s as [|c s]; [split; [by intros [|x a] b | done]|].
  simpl in Hlen. destruct (String.prefix CRLF (String c s)) eqn:Hpre.
  - apply prefix_spec in Hpre as [s'' Hs]. rewrite Hs.
    rewrite replace_prefix by done.
    assert (String.length s'' ≤ n)%nat as Hlen''.
    { unfold CRLF in Hs. rewrite !append_cons, append_nil_l in Hs.
      injection Hs as -> ->. simpl in Hlen. lia. }
    destruct (IH s'' Hlen'') as [IH1 IH2]. split.
    + intros [|x a] b; [done|]. rewrite !append_cons, append_nil_l.
      intros [= _ Heq]. by eapply IH1.
    + intros t. by rewrite !append_cons, append_nil_l.
  - rewrite replace_cons by done.
    destruct (IH s) as [IH1 IH2]; [lia|]. split.
    + intros [|x a] b.
      * unfold CRLF. rewrite !append_cons, !append_nil_l. intros [= -> Heq].
        apply IH2 in Heq as [t' ->].
        assert (String.prefix CRLF (CRLF +:+ t') = true) as Hyes;
          [apply prefix_spec; by exists t'|].
        change (String.prefix CRLF (CRLF +:+ t') = false) in Hpre. congruence.
      * rewrite append_cons. intros [= _ Heq]. by eapply IH1.
    + intros t [= -> _]. eauto.
Qed.

(** X12: the fields of a user that [parse_user_searching_result_page]
    returns.  The name is the text of the link of the first [h1] of the
    item and the id is the [href] of that link without its occurrences of
    [/users/]: for an [href] [/users/{id}] with no other slash, the id.
    The description holds no CRLF, each one having become a blank. *)
Theorem parse_user_fields user_bs user :
  parse_user user_bs = Ok user →
  ∃ user_name_elm a href,
    bs4.find user_bs "h1" [] = Some user_name_elm
    ∧ bs4.find user_name_elm "a" [] = Some a
    ∧ bs4.get a "href" = Some href
    ∧ model.user.user_name user = bs4.get_text a
    ∧ model.user.user_id user = replace href "/users/" ""
    ∧ (∀ id, href = "/users/" +:+ id → all_chars (no_char "/") id = true →
         model.user.user_id user = id)
    ∧ ∀ a b, model.user.user_desc user ≠ a +:+ CRLF +:+ b.
Proof.
  unfold parse_user, bs4.item, bs4.get.
  destruct (bs4.find user_bs "a" _) as [user_head_elm|]; simpl; [|done].
  destruct (bs4.attrs_of user_head_elm !! "data-src"); simpl; [|done].
  destruct (bs4.find user_bs "h1" []) as [user_name_elm|]; simpl; [|done].
  destruct (bs4.find user_name_elm "a" []) as [a|] eqn:Ha; simpl; [|done].
  destruct (bs4.attrs_of a !! "href") as [href|] eqn:Hhref; simpl; [|done].
  destruct (bs4.find user_bs "dl" _) as [dl|]; simpl; [|done].
  destruct (bs4.find dl "dd" []) as [dd|]; simpl; [|done].
  destruct (bs4.find dd "a" []) as [dd_a|]; simpl; [|done].
  destruct (bs4.find user_bs "p" _) as [p|]; simpl; [|done].
  destruct (illusts_thumb_urls_of _) as [urls|]; simpl; [|done].
  intros [= <-]. simpl. exists user_name_elm, a, href.
  split_and!; [done.. | | apply replace_CRLF].
  intros id -> Hid.
  rewrite (replace_prefix "/users/" "" id) by done.
  by rewrite append_nil_l, replace_absent.
Qed.

Lemma parse_user_fields_witness :
  ∃ user, parse_user sample.user_item = Ok user ∧ model.user.user_id user = "1234567".
Proof.
  destruct (parse_user sample.user_item) as [user|e] eqn:Huser; [|by vm_compute in Huser].
  exists user. split; [reflexivity|].
  destruct (parse_user_fields sample.user_item user Huser)
    as (user_name_elm & a & href & Hh1 & Ha & Hhref & _ & _ & Hid & _).
  vm_compute in Hh1. injection Hh1 as <-.
  vm_compute in Ha. injection Ha as <-.
  vm_compute in Hhref. injection Hhref as <-.
  apply Hid; reflexivity.
Defined.

(** ** The tags of pixivision *)

Lemma match_at_not_start r i s : match_at (Cat Bol r) (S i) s = None.
Proof. reflexivity. Qed.

(** [re.sub] with a pattern that begins with [^] changes nothing after
    the start of the text. *)
Lemma sub_from_anchored r repl s : ∀ i, sub_from (Cat Bol r) repl (S i) 0 s = s.
Proof.
  induction s as [|c s IH]; intros i; simpl; [done|]. by rewrite IH.
Qed.

Lemma sub_from_skip r repl a s : ∀ i,
  sub_from r repl i (String.length a) (a +:+ s)
  = sub_from r repl (i + String.length a) 0 s.
Proof.
  induction a as [|c a IH]; intros i.
  - rewrite append_nil_l, Nat.add_0_r. done.
  - rewrite append_cons. cbn [String.length sub_from]. rewrite IH.
    by rewrite Nat.add_succ_comm.
Qed.

Lemma star_greedy_const p i s (caps : captures) :
  star_greedy p (λ _ _ caps', Some caps') i s caps = Some caps.
Proof.
  revert i. induction s as [|c s IH]; intros i; simpl; [done|].
  destruct (p c); [by rewrite IH | done].
Qed.

(** The id of a tag: the [href] without [/zh/t/] when digits follow it,
    the [href] itself otherwise. *)
Lemma tag_id_of_href href :
  ∃ tag_id,
    re.sub tag_id_prefix "" (Some href) = Ok tag_id
    ∧ (∀ d rest, digit d = true → href = "/zh/t/" +:+ String d rest →
         tag_id = String d rest)
    ∧ ((∀ d rest, digit d = true → href ≠ "/zh/t/" +:+ String d rest) → tag_id = href).
Proof.
  unfold re.sub. eexists. split; [reflexivity|]. split.
  - intros d rest Hd ->. rewrite !append_cons, append_nil_l.
    unfold tag_id_prefix, seq, Plus.
    cbn [sub_from foldr match_at run strip_prefix Ascii.eqb Bool.eqb Nat.eqb
         String.length Nat.add].
    rewrite Hd, star_greedy_const. cbn [strip_prefix m_end Nat.sub].
    rewrite append_nil_l.
    apply (sub_from_anchored _ "" (String d rest) 5).
  - intros Hno. destruct (match_at tag_id_prefix 0 href) as [m|] eqn:Hm.
    + exfalso. apply match_at_sound in Hm as (j & s' & Hm).
      unfold tag_id_prefix, seq, Plus in Hm. cbn [foldr matches] in Hm.
      destruct Hm as (j1 & s1 & caps1 & (_ & -> & -> & ->) & Hm).
      destruct Hm as (j2 & s2 & caps2 & (-> & -> & ->) & Hm).
      destruct Hm as (j3 & s3 & caps3 & (Hlook & -> & ->) & _).
      apply run_sound in Hlook as (j4 & s4 & caps4 & Hlook & _).
      destruct Hlook as (j5 & s5 & caps5 & ((d & -> & Hd) & _) & _).
      by eapply Hno.
    + destruct href as [|c s]; cbn [sub_from]; rewrite Hm; [done|].
      unfold tag_id_prefix, seq. cbn [foldr]. by rewrite sub_from_anchored.
Qed.

(** X13: the tags of the two pixivision pages.  A tag is returned only
    for a link with an [href]; its url is the root url followed by the
    [href], and its id is the [href] without the prefix [/zh/t/] when a
    digit follows the prefix, the whole [href] when none does.  On an
    article page the name is the [data-gtm-label] of the link, on the show
    page the stripped text of the list item. *)
Theorem pixivision_tag_fields root_url :
  let id_of (href tag_id : string) :=
    (∀ d rest, digit d = true → href = "/zh/t/" +:+ String d rest →
       tag_id = String d rest)
    ∧ ((∀ d rest, digit d = true → href ≠ "/zh/t/" +:+ String d rest) → tag_id = href) in
  (∀ tag t, parse_tag root_url tag = Ok t →
     ∃ href, bs4.get tag "href" = Some href
             ∧ model.pixivision.tag_url t = root_url +:+ href
             ∧ model.pixivision.tag_name t = bs4.get tag "data-gtm-label"
             ∧ id_of href (model.pixivision.tag_id t))
  ∧ (∀ tag t, parse_card_tag root_url tag = Ok t →
       ∃ tag_a href, bs4.find tag "a" [] = Some tag_a
                     ∧ bs4.get tag_a "href" = Some href
                     ∧ model.pixivision.tag_url t = root_url +:+ href
                     ∧ model.pixivision.tag_name t = Some (bs4.get_text_strip tag)
                     ∧ id_of href (model.pixivision.tag_id t)).
Proof.
  intros id_of. split.
  - intros tag t. unfold parse_tag.
    destruct (bs4.get tag "href") as [href|]; [|done].
    destruct (tag_id_of_href href) as (tag_id & -> & Hid). simpl.
    intros [= <-]. by exists href.
  - intros tag t. unfold parse_card_tag.
    destruct (bs4.find tag "a" []) as [tag_a|]; [|done]. simpl.
    destruct (bs4.get tag_a "href") as [href|] eqn:Hhref; [|done].
    destruct (tag_id_of_href href) as (tag_id & -> & Hid). simpl.
    intros [= <-]. by exists tag_a, href.
Qed.

Lemma pixivision_tag_fields_witness :
  ∃ t, parse_tag "https://www.pixivision.net" sample.tag_link = Ok t
       ∧ model.pixivision.tag_id t = "27".
Proof.
  destruct (parse_tag "https://www.pixivision.net" sample.tag_link) as [t|e] eqn:Ht;
    [|by vm_compute in Ht].
  exists t. split; [reflexivity|].
  destruct (pixivision_tag_fields "https://www.pixivision.net") as [Htag _].
  destruct (Htag sample.tag_link t Ht) as (href & Hhref & _ & _ & Hid & _).
  vm_compute in Hhref. injection Hhref as <-.
  apply Hid; reflexivity.
Defined.

(** ** The cards of the show page *)

Lemma thumbnail_style_inv text j s' caps' :
  matches thumbnail_style 0 text ∅ j s' caps' →
  ∃ c1 c2 g,
    text = "background-image:" +:+ String c1 (String c2 ("url(" +:+ g +:+ ")" +:+ s'))
    ∧ space c1 = true ∧ space c2 = true
    ∧ g ≠ "" ∧ all_chars dot g = true ∧ at_end s' = true
    ∧ caps' !! 1%nat = Some g.
Proof.
  unfold thumbnail_style, seq, Plus. simpl. intros H. inv_matches.
  match goal with
  | Hc : dot ?c = true, Hg : all_chars dot ?g = true |- _ =>
      exists x30, x29, (String c g)
  end.
  split_and!; [done.. | by simpl; apply andb_true_iff | done |].
  rewrite lookup_insert_eq. f_equal.
  lazymatch goal with
  | |- String.substring 0 _ (String ?c (?g +:+ ?rest)) = _ =>
      apply (substring_group _ (String c g) rest)
  end.
  simpl. lia.
Qed.

Lemma thumbnail_style_intro c1 c2 g :
  space c1 = true → space c2 = true → g ≠ "" → all_chars dot g = true →
  ∃ j caps',
    matches thumbnail_style 0
      ("background-image:" +:+ String c1 (String c2 ("url(" +:+ g +:+ ")"))) ∅ j "" caps'.
Proof.
  intros Hc1 Hc2 Hne Hg.
  destruct g as [|c g]; [done|]. simpl in Hg. apply andb_true_iff in Hg as [Hc Hg].
  unfold thumbnail_style, seq, Plus. simpl. intro_matches.
Qed.

Lemma thumbnail_style_search text m :
  search thumbnail_style text = Some m →
  ∃ c1 c2 g s',
    text = "background-image:" +:+ String c1 (String c2 ("url(" +:+ g +:+ ")" +:+ s'))
    ∧ space c1 = true ∧ space c2 = true
    ∧ g ≠ "" ∧ all_chars dot g = true ∧ at_end s' = true
    ∧ group m 1 = Some g.
Proof.
  unfold thumbnail_style, seq. simpl foldr. rewrite search_anchored.
  intros (j & s' & Hm)%match_at_sound.
  apply thumbnail_style_inv in Hm as (c1 & c2 & g & Hm). eauto 10.
Qed.

(** X14: the thumbnail of a card of the show page.  A [_thumbnail] block
    without [style] is a [TypeError]; a style that does not begin with
    [background-image:] is an [AttributeError]; for the style
    [background-image:], two blanks, [url(U)] with [U] on one line the
    thumbnail is [U], closing brackets inside [U] included; and every
    thumbnail returned is such a non-empty text, never [None]. *)
Theorem card_thumbnail_style :
  card_thumbnail None = Raise TypeError
  ∧ (∀ style, strip_prefix "background-image:" style = None →
       card_thumbnail (Some style) = Raise AttributeError)
  ∧ (∀ c1 c2 U,
       space c1 = true → space c2 = true → U ≠ "" → all_chars dot U = true →
       card_thumbnail
         (Some ("background-image:" +:+ String c1 (String c2 ("url(" +:+ U +:+ ")"))))
       = Ok (Some U))
  ∧ (∀ style thumbnail, card_thumbnail (Some style) = Ok thumbnail →
       ∃ U, thumbnail = Some U ∧ U ≠ "" ∧ all_chars dot U = true
            ∧ ∃ c1 c2 s',
                style = "background-image:"
                          +:+ String c1 (String c2 ("url(" +:+ U +:+ ")" +:+ s'))
                ∧ space c1 = true ∧ space c2 = true ∧ at_end s' = true).
Proof.
  unfold card_thumbnail. split; [done|]. split_and!.
  - intros style Hpre. simpl.
    destruct (search thumbnail_style style) as [m|] eqn:Hm; [|done].
    apply thumbnail_style_search in Hm as (c1 & c2 & g & s' & -> & _).
    by rewrite strip_prefix_append in Hpre.
  - intros c1 c2 U Hc1 Hc2 Hne HU. simpl.
    destruct (thumbnail_style_intro c1 c2 U Hc1 Hc2 Hne HU) as (j & caps' & Hm).
    apply match_at_progress in Hm as [m Hm].
    assert (search thumbnail_style
              ("background-image:" +:+ String c1 (String c2 ("url(" +:+ U +:+ ")")))
            = Some m) as Hs.
    { unfold thumbnail_style, seq in *. simpl foldr in *. by rewrite search_anchored. }
    rewrite Hs. simpl. f_equal.
    apply thumbnail_style_search in Hs
      as (c1' & c2' & g & s' & Heq & _ & _ & Hg & Hdot & Hs' & ->).
    apply append_inv_head in Heq. injection Heq as _ _ Heq.
    apply append_inv_head in Heq. f_equal.
    apply at_end_spec in Hs' as [-> | ->].
    + rewrite append_nil_r in Heq.
      by apply (split_last_unique (λ _, false) (λ _, false)) in Heq as (-> & _ & _).
    + exfalso. rewrite <- append_assoc in Heq. by apply ends_differ in Heq.
  - intros style thumbnail. simpl.
    destruct (search thumbnail_style style) as [m|] eqn:Hm; [|done]. simpl.
    intros [= <-].
    apply thumbnail_style_search in Hm
      as (c1 & c2 & g & s' & -> & Hc1 & Hc2 & Hg & Hdot & Hs' & ->).
    exists g. split_and!; [done..|]. by exists c1, c2, s'.
Qed.

Lemma card_thumbnail_style_witness :
  card_thumbnail (Some "background-image:  url(https://i.pximg.net/c/a(1).jpg)")
  = Ok (Some "https://i.pximg.net/c/a(1).jpg").
Proof.
  destruct card_thumbnail_style as (_ & _ & Hurl & _).
  apply (Hurl " "%char " "%char "https://i.pximg.net/c/a(1).jpg"); reflexivity || done.
Defined.

(** X15: [parse_pixivision_show_page] is all or nothing over the cards
    [li.article-card-container] of the page.  What it hands to the
    validation holds one illustration per card, in the order of the page,
    none for a page without cards; one card that cannot be parsed makes
    the page fail.  Of a card that is parsed, the url is the root url
    followed by the [href] of the link of its title, the aid is the
    [data-gtm-label] of that link, the title is the stripped text of the
    [h2], the thumbnail is a non-empty text, and there is one tag per [li]
    of its tag list. *)
Theorem parse_pixivision_show_page_cards {M : Type}
    (parse_obj : list illustration → result M) env content root_url :
  let illustration_cards :=
    bs4.find_all (BeautifulSoup env content) "li"
      [("class", bs4.Is "article-card-container")] in
  (∀ m, parse_pixivision_show_page parse_obj env content root_url = Ok m →
     ∃ result_list,
       Forall2 (λ card data, parse_card root_url card = Ok data)
         illustration_cards result_list
       ∧ length result_list = length illustration_cards
       ∧ parse_obj result_list = Ok m)
  ∧ (illustration_cards = [] →
     parse_pixivision_show_page parse_obj env content root_url = parse_obj [])
  ∧ (∀ card e, card ∈ illustration_cards → parse_card root_url card = Raise e →
       ∃ e', parse_pixivision_show_page parse_obj env content root_url = Raise e')
  ∧ (∀ card data, parse_card root_url card = Ok data →
       ∃ title_h2 title_a href U tag_ul,
         bs4.find card "h2" [("class", bs4.Is "arc__title")] = Some title_h2
         ∧ bs4.find title_h2 "a" [] = Some title_a
         ∧ bs4.get title_a "href" = Some href
         ∧ url data = root_url +:+ href
         ∧ aid data = bs4.get title_a "data-gtm-label"
         ∧ title data = bs4.get_text_strip title_h2
         ∧ thumbnail data = Some U ∧ U ≠ ""
         ∧ bs4.find card "ul" [("class", bs4.Is "_tag-list")] = Some tag_ul
         ∧ Forall2 (λ tag t, parse_card_tag root_url tag = Ok t)
             (bs4.find_all tag_ul "li" []) (helper_rest.tags data)).
Proof.
  intros illustration_cards. unfold parse_pixivision_show_page.
  fold illustration_cards. split_and!.
  - intros m.
    destruct (for_each (parse_card root_url) illustration_cards)
      as [result_list|e] eqn:Hloop; simpl; [|done].
    intros Hm. apply for_each_ok in Hloop. exists result_list.
    split_and!; [done | by apply Forall2_length in Hloop | done].
  - by intros ->.
  - intros card e Hin Hfail.
    destruct (for_each_fails (parse_card root_url) illustration_cards card e Hin Hfail)
      as [e' ->].
    simpl. eauto.
  - intros card data. unfold parse_card.
    destruct (bs4.find card "h2" _) as [title_h2|]; simpl; [|done].
    destruct (bs4.find title_h2 "a" []) as [title_a|] eqn:Ha; simpl; [|done].
    destruct (bs4.find card "div" _) as [thumbnail_div|]; simpl; [|done].
    destruct (card_thumbnail _) as [found|] eqn:Hthumb; simpl; [|done].
    destruct (bs4.get title_a "href") as [href|] eqn:Hhref; simpl; [|done].
    destruct (bs4.find card "ul" _) as [tag_ul|]; simpl; [|done].
    destruct (for_each _ _) as [tag_list|] eqn:Htags; simpl; [|done].
    intros [= <-]. simpl.
    assert (∃ U, found = Some U ∧ U ≠ "") as (U & -> & HU).
    { revert Hthumb. unfold card_thumbnail.
      destruct (bs4.get thumbnail_div "style") as [style|]; simpl; [|done].
      destruct (search thumbnail_style style) as [m|] eqn:Hm; simpl; [|done].
      intros [= <-].
      apply thumbnail_style_search in Hm as (c1 & c2 & g & s' & _ & _ & _ & Hg & _ & _ & ->).
      eauto. }
    apply for_each_ok in Htags.
    exists title_h2, title_a, href, U, tag_ul. split_and!; done.
Qed.

Lemma parse_pixivision_show_page_cards_witness :
  (∃ data,
     parse_pixivision_show_page (M := list illustration) Ok
       (sample.env (sample.show_page [sample.show_card])) "" "https://www.pixivision.net"
     = Ok [data]
     ∧ url data = "https://www.pixivision.net/zh/a/7000"
     ∧ aid data = Some "7000"
     ∧ title data = "Spring"
     ∧ thumbnail data = Some "https://i.pximg.net/c/a.jpg"
     ∧ length (helper_rest.tags data) = 1%nat)
  ∧ (∃ e,
       parse_pixivision_show_page (M := list illustration) Ok
         (sample.env (sample.show_page [sample.show_card; sample.show_card_no_style])) ""
         "https://www.pixivision.net"
       = Raise e)
  ∧ parse_pixivision_show_page (M := nat) (λ l, Ok (length l)) (sample.env sample.no_doc) ""
      "https://www.pixivision.net"
    = Ok 0%nat.
Proof.
  split_and!.
  - destruct (parse_pixivision_show_page_cards (M := list illustration) Ok
                (sample.env (sample.show_page [sample.show_card])) ""
                "https://www.pixivision.net")
      as (Hall & _ & _ & Hcard).
    destruct (parse_pixivision_show_page (M := list illustration) Ok
                (sample.env (sample.show_page [sample.show_card])) ""
                "https://www.pixivision.net") as [m|] eqn:Hpage; [|by vm_compute in Hpage].
    destruct (Hall m eq_refl) as (result_list & Hcards & Hlen & [= ->]).
    change (bs4.find_all _ "li" [("class", bs4.Is "article-card-container")])
      with [sample.show_card] in Hcards, Hlen.
    destruct m as [|data [|]]; [done | | done].
    exists data. split; [done|].
    apply Forall2_cons_1 in Hcards as [Hdata _].
    destruct (Hcard sample.show_card data Hdata)
      as (title_h2 & title_a & href & U & tag_ul
          & Hh2 & Ha & Hhref & -> & -> & -> & HU & _ & Hul & Htags).
    vm_compute in Hh2. injection Hh2 as <-.
    vm_compute in Ha. injection Ha as <-.
    vm_compute in Hhref. injection Hhref as <-.
    vm_compute in Hul. injection Hul as <-.
    apply Forall2_length in Htags. rewrite <- Htags.
    split_and!; [reflexivity | reflexivity | by vm_compute | | reflexivity].
    rewrite HU. vm_compute in Hdata. injection Hdata as <-. simpl in HU. by rewrite <- HU.
  - destruct (parse_pixivision_show_page_cards (M := list illustration) Ok
                (sample.env (sample.show_page [sample.show_card; sample.show_card_no_style]))
                "" "https://www.pixivision.net")
      as (_ & _ & Hfail & _).
    apply (Hfail sample.show_card_no_style TypeError).
    + apply list_elem_of_lookup_2 with 1%nat. reflexivity.
    + reflexivity.
  - destruct (parse_pixivision_show_page_cards (M := nat) (λ l, Ok (length l))
                (sample.env sample.no_doc) "" "https://www.pixivision.net")
      as (_ & Hempty & _).
    rewrite Hempty; reflexivity.
Defined.

(** ** The artworks of an article *)

(** X16: the artworks of [parse_pixivision_article_page].  A work block
    that has nothing before it is an [AttributeError], one that follows a
    run of text a [TypeError], and a link without [href] a [TypeError]:
    no artwork is returned with an [artwork_url] that is [None].  The
    [artwork_id] of an artwork returned is what [parse_pid_from_url] finds
    in the [href] in strict mode: the id of a page url of path style, and
    [None], without an error, for an [href] that does not begin with
    [http]. *)
Theorem parse_artwork_id item :
  parse_artwork (item, None) = Raise AttributeError
  ∧ (∀ text, parse_artwork (item, Some (bs4.NavigableString text)) = Raise TypeError)
  ∧ ∀ artwork_info artwork,
      parse_artwork (item, artwork_info) = Ok artwork →
      ∃ link artwork_url,
        bs4.find item "a" [("class", bs4.Is "inner-link")] = Some link
        ∧ bs4.get link "href" = Some artwork_url
        ∧ model.pixivision.artwork_url artwork = Some artwork_url
        ∧ parse_pid_from_url artwork_url true = Ok (model.pixivision.artwork_id artwork)
        ∧ (strip_prefix "http" artwork_url = None →
           model.pixivision.artwork_id artwork = None)
        ∧ (∀ sch host kind id,
             url_shape.scheme_ok sch → url_shape.one_line host → url_shape.kind_ok kind →
             url_shape.id_ok id →
             artwork_url = url_shape.path_style sch host kind id →
             model.pixivision.artwork_id artwork = Some (digits_value 0 id)).
Proof.
  split; [done|]. split; [done|].
  intros artwork_info artwork. unfold parse_artwork.
  remember parse_pid_from_url as pid_of eqn:Hpid_of. simpl.
  destruct (bs4.find_in_sibling artwork_info "p" _) as [[user_p|]|]; simpl; [|done..].
  destruct (bs4.find user_p "a" _) as [user_a|]; simpl; [|done].
  destruct (bs4.find_in_sibling artwork_info "h3" _) as [[title_h3|]|]; simpl; [|done..].
  destruct (bs4.find item "a" _) as [link|]; simpl; [|done].
  destruct (bs4.get link "href") as [artwork_url|] eqn:Hhref; simpl; [|done].
  destruct (pid_of artwork_url true) as [artwork_id|] eqn:Hid; simpl; [|done].
  destruct (bs4.find item "img" _) as [img|]; simpl; [|done].
  intros [= <-]. simpl. subst pid_of. exists link, artwork_url.
  split_and!; [done..| |].
  - intros Hpre. apply strict_needs_scheme in Hpre. congruence.
  - intros sch host kind id Hsch Hhost Hkind Hidok ->.
    rewrite strict_path_int in Hid by done.
    destruct (int_group id Hidok) as [[Heq _] | [Heq _]]; rewrite Heq in Hid; congruence.
Qed.

Lemma parse_artwork_id_witness :
  ∃ artwork,
    parse_artwork
      (sample.el "div" [("class", "am__work__main")]
         [ sample.el "a" [("class", "inner-link"); ("href", "/artworks/12345")]
             [sample.el "img" [("class", "am__work__illust"); ("src", "ok/12345.jpg")] []] ],
       Some (sample.el "div" [("class", "am__work__info")]
               [ sample.el "p" [("class", "am__work__user-name")]
                   [sample.el "a" [("class", "author-img-container inner-link");
                                   ("target", "_blank")] [sample.txt "artist"]];
                 sample.el "h3" [("class", "am__work__title")] [sample.txt "work"] ]))
    = Ok artwork
    ∧ model.pixivision.artwork_id artwork = None.
Proof.
  match goal with
  | |- ∃ artwork, parse_artwork (?item, ?info) = Ok artwork ∧ _ =>
      destruct (parse_artwork (item, info)) as [artwork|e] eqn:Hart;
        [|by vm_compute in Hart];
      exists artwork; split; [reflexivity|];
      destruct (parse_artwork_id item) as (_ & _ & Hok);
      destruct (Hok info artwork Hart)
        as (link & artwork_url & Hlink & Hhref & _ & _ & Hnone & _)
  end.
  vm_compute in Hlink. injection Hlink as <-.
  vm_compute in Hhref. injection Hhref as <-.
  apply Hnone. reflexivity.
Defined.

(** X17: the parts of an article besides its description.  A page
    without the [_article-main] block is an [AttributeError].  An article
    returned is the validation of a record whose title is the stripped
    text of the [am__title] heading, whose artworks are one per
    [am__work__main] block of the body, in the order of the page, each
    parsed from the block and what stands before it, whose tag list is
    empty on a page without a [_tag-list], and whose eyecatch image is
    [None] without an eyecatch block and the [src] of the first picture of
    the block otherwise. *)
Theorem parse_pixivision_article_page_parts env content root_url :
  let page_bs := BeautifulSoup env content in
  (bs4.find page_bs "div" [("class", bs4.Is "_article-main")] = None →
   parse_pixivision_article_page env content root_url = Raise AttributeError)
  ∧ ∀ article,
      parse_pixivision_article_page env content root_url = Ok article →
      ∃ article_main title_h1 article_body raw,
        bs4.find page_bs "div" [("class", bs4.Is "_article-main")] = Some article_main
        ∧ bs4.find article_main "h1" [("class", bs4.Is "am__title")] = Some title_h1
        ∧ bs4.find article_main "div" [("class", bs4.Is "am__body")] = Some article_body
        ∧ validate_article env raw = Ok article
        ∧ model.pixivision.title raw = bs4.get_text_strip title_h1
        ∧ Forall2 (λ item_prev artwork, parse_artwork item_prev = Ok artwork)
            (bs4.find_all_with_previous article_body "div"
               [("class", bs4.Is "am__work__main")])
            (model.pixivision.artwork_list raw)
        ∧ (bs4.find page_bs "ul" [("class", bs4.Is "_tag-list")] = None →
           model.pixivision.tags_list raw = [])
        ∧ match bs4.find article_main "div"
                  [("class", bs4.Is "_article-illust-eyecatch")] with
          | None => model.pixivision.eyecatch_image raw = None
          | Some article_eyecatch =>
              ∃ img, bs4.find article_eyecatch "img" [] = Some img
                     ∧ model.pixivision.eyecatch_image raw = bs4.get img "src"
          end.
Proof.
  intros page_bs. unfold parse_pixivision_article_page. fold page_bs.
  split; [by intros ->|]. intros article.
  destruct (bs4.find page_bs "div" _) as [article_main|]; [|done].
  remember parse_artwork as artwork_of eqn:Hartwork_of.
  remember (parse_tag root_url) as tag_of eqn:Htag_of. simpl.
  destruct (bs4.find article_main "h1" _) as [title_h1|] eqn:Htitle; simpl; [|done].
  destruct (bs4.find article_main "div"
              [("class", bs4.Is "am__description _medium-editor-text")])
    as [description_div|]; simpl; [|done].
  destruct (bs4.find article_main "div" [("class", bs4.Is "_article-illust-eyecatch")])
    as [article_eyecatch|] eqn:Heye; simpl.
  - destruct (bs4.find article_eyecatch "img" []) as [img|] eqn:Himg; simpl; [|done].
    destruct (for_each tag_of _) as [tags_list|] eqn:Htags; simpl; [|done].
    destruct (bs4.find article_main "div" [("class", bs4.Is "am__body")])
      as [article_body|] eqn:Hbody; simpl; [|done].
    destruct (match bs4.find article_body "div" _ with Some _ => _ | None => _ end)
      as [article_description|]; simpl; [|done].
    destruct (for_each artwork_of _) as [artwork_list|] eqn:Hworks; simpl; [|done].
    intros Hvalid. apply for_each_ok in Hworks.
    eexists article_main, title_h1, article_body, _.
    rewrite Heye.
    split_and!; [done | done | done | exact Hvalid | done | done | | by exists img].
    simpl. intros Hno. rewrite Hno in Htags. by injection Htags as <-.
  - destruct (for_each tag_of _) as [tags_list|] eqn:Htags; simpl; [|done].
    destruct (bs4.find article_main "div" [("class", bs4.Is "am__body")])
      as [article_body|] eqn:Hbody; simpl; [|done].
    destruct (match bs4.find article_body "div" _ with Some _ => _ | None => _ end)
      as [article_description|]; simpl; [|done].
    destruct (for_each artwork_of _) as [artwork_list|] eqn:Hworks; simpl; [|done].
    intros Hvalid. apply for_each_ok in Hworks.
    eexists article_main, title_h1, article_body, _.
    rewrite Heye.
    split_and!; [done | done | done | exact Hvalid | done | done | | done].
    simpl. intros Hno. rewrite Hno in Htags. by injection Htags as <-.
Qed.

Lemma parse_pixivision_article_page_parts_witness :
  ∃ article,
    parse_pixivision_article_page (sample.env sample.standard_article) ""
      "https://www.pixivision.net" = Ok article
    ∧ length (model.pixivision.artwork_list article) = 1%nat.
Proof.
  destruct (parse_pixivision_article_page (sample.env sample.standard_article) ""
              "https://www.pixivision.net") as [article|e] eqn:Hpage;
    [|by vm_compute in Hpage].
  exists article. split; [reflexivity|].
  destruct (parse_pixivision_article_page_parts (sample.env sample.standard_article) ""
              "https://www.pixivision.net") as [_ Hok].
  destruct (Hok article Hpage)
    as (article_main & title_h1 & article_body & raw & Hmain & _ & Hbody & Hvalid & _
        & Hworks & _).
  injection Hvalid as <-. apply Forall2_length in Hworks. rewrite <- Hworks.
  vm_compute in Hmain. injection Hmain as <-.
  vm_compute in Hbody. injection Hbody as <-.
  reflexivity.
Defined.

(** ** [parse_pid_from_url], both modes *)

Lemma match_at_sound_at r i text m :
  match_at r i text = Some m →
  ∃ j s', matches r i text ∅ j s' (m_groups m).
Proof.
  unfold match_at. intros (j & s' & caps' & Hm & [= <-])%run_sound. eauto.
Qed.

(** [re.search] returns the match at the first position that has one. *)
Lemma search_from_sound r s : ∀ i m,
  search_from r i s = Some m →
  ∃ pre s0, s = pre +:+ s0 ∧ match_at r (i + String.length pre) s0 = Some m
            ∧ ∀ a b, s = a +:+ b → (String.length a < String.length pre)%nat →
                match_at r (i + String.length a) b = None.
Proof.
  induction s as [|c s IH]; intros i m; simpl.
  - destruct (match_at r i "") eqn:Hm; [|done]. intros [= ->].
    exists "", "". rewrite Nat.add_0_r. split_and!; [done..|]. simpl. intros; lia.
  - destruct (match_at r i (String c s)) eqn:Hm.
    + intros [= ->]. exists "", (String c s). rewrite Nat.add_0_r.
      split_and!; [done..|]. simpl. intros; lia.
    + intros (pre & s0 & -> & Hs0 & Hfirst)%IH.
      exists (String c pre), s0. rewrite append_cons. simpl.
      rewrite <- Nat.add_succ_comm. split_and!; [done..|].
      intros [|x a] b; rewrite ?append_nil_l, ?append_cons.
      * intros <- _. by rewrite Nat.add_0_r.
      * intros [= <- Heq] Hlen. simpl in *. rewrite <- Nat.add_succ_comm.
        apply Hfirst; [done | lia].
Qed.

Lemma search_from_progress r pre s0 : ∀ i,
  is_Some (match_at r (i + String.length pre) s0) →
  is_Some (search_from r i (pre +:+ s0)).
Proof.
  induction pre as [|c pre IH]; intros i; rewrite ?append_nil_l, ?append_cons; simpl.
  - rewrite Nat.add_0_r. intros [m Hm]. destruct s0; simpl; by rewrite Hm.
  - intros Hm. destruct (match_at r i (String c (pre +:+ s0))); [done|].
    apply IH. by rewrite Nat.add_succ_comm.
Qed.

Lemma url_new_loose_inv i text j s' caps' :
  matches url_new_loose i text ∅ j s' caps' →
  ∃ sch pre kind ds,
    text = sch +:+ "://" +:+ pre +:+ "pixiv.net/" +:+ kind +:+ "/" +:+ ds +:+ s'
    ∧ url_shape.scheme_ok sch
    ∧ ds ≠ "" ∧ all_chars digit ds = true
    ∧ caps' !! 2%nat = Some ds.
Proof.
  unfold url_new_loose, seq, Plus. simpl. intros H. inv_matches.
  1: pick_url "https" "artworks".
  2: pick_url "http" "artworks".
  3: pick_url "https" "i".
  4: pick_url "http" "i".
  all: rewrite ?append_nil_l.
  all: split; [reflexivity|].
  all: split; [first [by left | by right]|].
  all: split; [done|].
  all: split; [by simpl; apply andb_true_iff|].
  all: rewrite lookup_insert_eq; f_equal.
  all: lazymatch goal with |- _ = ?a => apply (substring_group _ a s') end; simpl; lia.
Qed.

Lemma url_old_loose_inv i text j s' caps' :
  matches url_old_loose i text ∅ j s' caps' →
  ∃ sch pre mid ds,
    text = sch +:+ "://" +:+ pre +:+ "pixiv.net" +:+ mid +:+ "illust_id=" +:+ ds +:+ s'
    ∧ url_shape.scheme_ok sch
    ∧ ds ≠ "" ∧ all_chars digit ds = true
    ∧ caps' !! 1%nat = Some ds.
Proof.
  unfold url_old_loose, seq, Plus. simpl. intros H. inv_matches.
  all: rewrite ?append_nil_l.
  all: match goal with
       | Hp : all_chars dot ?pre = true, Hm : all_chars dot ?mid = true,
         Hd : digit ?d = true, Hds : all_chars digit ?ds = true |- _ =>
           match goal with
           | |- ∃ _ _ _ _, "http" +:+ "s" +:+ "://" +:+ pre +:+ "pixiv.net" +:+ mid +:+ _ = _ ∧ _ =>
               exists "https", pre, mid, (String d ds)
           | |- ∃ _ _ _ _, "http" +:+ "://" +:+ pre +:+ "pixiv.net" +:+ mid +:+ _ = _ ∧ _ =>
               exists "http", pre, mid, (String d ds)
           end
       end.
  all: split; [reflexivity|].
  all: split; [first [by left | by right]|].
  all: split; [done|].
  all: split; [by simpl; apply andb_true_iff|].
  all: rewrite lookup_insert_eq; f_equal.
  all: lazymatch goal with |- _ = ?a => apply (substring_group _ a s') end; simpl; lia.
Qed.

Lemma url_new_loose_search text m :
  search url_new_loose text = Some m →
  ∃ ds, group m 2 = Some ds ∧ url_shape.id_ok ds ∧ len ds <= len text.
Proof.
  intros (pre & s0 & -> & (j & s' & Hm)%match_at_sound_at & _)%search_from_sound.
  apply url_new_loose_inv in Hm as (sch & pre' & kind & ds & -> & _ & Hne & Hds & Hg).
  exists ds. split_and!; [done..|]. unfold len. rewrite !length_append. lia.
Qed.

Lemma url_old_loose_search text m :
  search url_old_loose text = Some m →
  ∃ ds, group m 1 = Some ds ∧ url_shape.id_ok ds ∧ len ds <= len text.
Proof.
  intros (pre & s0 & -> & (j & s' & Hm)%match_at_sound_at & _)%search_from_sound.
  apply url_old_loose_inv in Hm as (sch & pre' & mid & ds & -> & _ & Hne & Hds & Hg).
  exists ds. split_and!; [done..|]. unfold len. rewrite !length_append. lia.
Qed.

(** The order of the two attempts of loose mode, on any text. *)
Lemma loose_order text :
  match search url_new_loose text with
  | Some url_new =>
      ∃ ds, group url_new 2 = Some ds ∧ url_shape.id_ok ds ∧ len ds <= len text
            ∧ parse_pid_from_url text false = (pid ← int (Some ds); Ok (Some pid))
  | None =>
      match search url_old_loose text with
      | Some url_old =>
          ∃ ds, group url_old 1 = Some ds ∧ url_shape.id_ok ds ∧ len ds <= len text
                ∧ parse_pid_from_url text false = (pid ← int (Some ds); Ok (Some pid))
      | None => parse_pid_from_url text false = Ok None
      end
  end.
Proof.
  unfold parse_pid_from_url.
  destruct (search url_new_loose text) as [m|] eqn:Hnew.
  { apply url_new_loose_search in Hnew as (ds & Hg & Hds & Hlen).
    exists ds. by rewrite Hg. }
  destruct (search url_old_loose text) as [m|] eqn:Hold; [|done].
  apply url_old_loose_search in Hold as (ds & Hg & Hds & Hlen).
  exists ds. by rewrite Hg.
Qed.

Lemma digits_value_nonneg ds : ∀ acc,
  0 <= acc → all_chars digit ds = true → 0 <= digits_value acc ds.
Proof.
  induction ds as [|c ds IH]; intros acc Hacc; simpl; [done|].
  intros [Hc Hds]%andb_true_iff. apply IH; [|done].
  unfold digit, is_digit in Hc. apply andb_true_iff in Hc as [Hc _].
  apply Nat.leb_le in Hc. unfold digit_value. lia.
Qed.

(** What the conversion of a group of a text gives: an id that is not
    negative, or the [ValueError] of [int], and that only in a text of
    more than 4300 characters. *)
Lemma int_group_of_text text ds :
  url_shape.id_ok ds → len ds <= len text →
  (∃ n, (pid ← int (Some ds); Ok (Some pid)) = Ok (Some n) ∧ 0 <= n)
  ∨ ((pid ← int (Some ds); Ok (Some pid)) = (Raise ValueError : result (option Z))
     ∧ int_max_str_digits < len text).
Proof.
  intros Hds Hlen. destruct (int_group ds Hds) as [[-> _] | [-> Hlong]].
  - left. eexists. split; [done|]. destruct Hds as [_ Hds]. by apply digits_value_nonneg.
  - right. split; [done | lia].
Qed.

(** A pattern that has matched leaves mode [url_mode] with an id or
    with the [ValueError] of [int]; without a match the result is [None]. *)
Lemma parse_pid_from_url_cases text url_mode :
  parse_pid_from_url text url_mode = Ok None
  ∨ (∃ n, parse_pid_from_url text url_mode = Ok (Some n) ∧ 0 <= n)
  ∨ (parse_pid_from_url text url_mode = Raise ValueError
     ∧ int_max_str_digits < len text).
Proof.
  destruct url_mode.
  - pose proof (strict_order text) as Ho.
    destruct (search url_new_strict text); [|destruct (search url_old_strict text)];
      [| |by left].
    all: destruct Ho as (ds & _ & Hds & Hlen & ->); right.
    all: by apply int_group_of_text.
  - pose proof (loose_order text) as Ho.
    destruct (search url_new_loose text); [|destruct (search url_old_loose text)];
      [| |by left].
    all: destruct Ho as (ds & _ & Hds & Hlen & ->); right.
    all: by apply int_group_of_text.
Qed.

(** X18: what [parse_pid_from_url] raises.  On a text of at most 4300
    characters it raises nothing, whatever the mode: the group it
    converts is a non-empty run of digits whenever a pattern has matched.
    On any text it raises nothing but the [ValueError] of [int], for a
    group of more than 4300 digits.  A result is [None] or an id that is
    not negative. *)
Theorem parse_pid_from_url_total text url_mode :
  ((∃ pid, parse_pid_from_url text url_mode = Ok pid ∧ ∀ n, pid = Some n → 0 <= n)
   ∨ (parse_pid_from_url text url_mode = Raise ValueError
      ∧ int_max_str_digits < len text))
  ∧ (len text <= int_max_str_digits →
     ∃ pid, parse_pid_from_url text url_mode = Ok pid ∧ ∀ n, pid = Some n → 0 <= n).
Proof.
  assert ((∃ pid, parse_pid_from_url text url_mode = Ok pid ∧ ∀ n, pid = Some n → 0 <= n)
          ∨ (parse_pid_from_url text url_mode = Raise ValueError
             ∧ int_max_str_digits < len text)) as Hcases.
  { destruct (parse_pid_from_url_cases text url_mode) as [-> | [(n & -> & Hn) | Hraise]].
    - left. by eexists.
    - left. eexists. split; [done|]. by intros ? [= <-].
    - by right. }
  split; [done|]. intros Hlen.
  destruct Hcases as [Hok | [_ Hlong]]; [done | lia].
Qed.

Lemma parse_pid_from_url_total_witness :
  ∃ pid, parse_pid_from_url "https://www.pixiv.net/artworks/12345" false = Ok pid
         ∧ ∀ n, pid = Some n → 0 <= n.
Proof.
  destruct (parse_pid_from_url_total "https://www.pixiv.net/artworks/12345" false)
    as [_ Hshort].
  apply Hshort. vm_compute. discriminate.
Defined.

(** A text the strict path pattern matches from its start is matched by
    the loose one there too, and so for the legacy pattern. *)
Lemma url_new_strict_loose text j s' caps' :
  matches url_new_strict 0 text ∅ j s' caps' →
  ∃ j' s'' caps'', matches url_new_loose 0 text ∅ j' s'' caps''.
Proof.
  unfold url_new_strict, url_new_loose, seq, Plus. simpl. intros H. inv_matches.
  all: intro_matches.
Qed.

Lemma url_old_strict_loose text j s' caps' :
  matches url_old_strict 0 text ∅ j s' caps' →
  ∃ j' s'' caps'', matches url_old_loose 0 text ∅ j' s'' caps''.
Proof.
  unfold url_old_strict, url_old_loose, seq, Plus. simpl. intros H. inv_matches.
  all: intro_matches.
Qed.

Lemma search_at_start r text j s' caps' :
  matches r 0 text ∅ j s' caps' → is_Some (search r text).
Proof.
  intros [m Hm]%match_at_progress. unfold search.
  destruct text; simpl; by rewrite Hm.
Qed.

(** X19: loose mode finds a match wherever strict mode does.  A text
    from which [parse_pid_from_url] returns an id with [url_mode=True]
    gives an id with [url_mode=False] as well, unless the digits loose
    mode reads are more than [int] converts, which is a [ValueError] and
    needs a text of more than 4300 characters; and a text in which loose
    mode finds nothing gives [None] in strict mode. *)
Theorem parse_pid_from_url_strict_loose text :
  (∀ pid, parse_pid_from_url text true = Ok (Some pid) →
     (∃ pid', parse_pid_from_url text false = Ok (Some pid'))
     ∨ (parse_pid_from_url text false = Raise ValueError
        ∧ int_max_str_digits < len text))
  ∧ (∀ pid, len text <= int_max_str_digits →
       parse_pid_from_url text true = Ok (Some pid) →
       ∃ pid', parse_pid_from_url text false = Ok (Some pid'))
  ∧ (parse_pid_from_url text false = Ok None → parse_pid_from_url text true = Ok None).
Proof.
  assert (parse_pid_from_url text true = Ok None
          ∨ (∃ pid', parse_pid_from_url text false = Ok (Some pid'))
          ∨ (parse_pid_from_url text false = Raise ValueError
             ∧ int_max_str_digits < len text)) as Hcases.
  { assert (is_Some (search url_new_loose text) ∨ is_Some (search url_old_loose text) →
            (∃ pid', parse_pid_from_url text false = Ok (Some pid'))
            ∨ (parse_pid_from_url text false = Raise ValueError
               ∧ int_max_str_digits < len text)) as Hfound.
    { intros Hsome. pose proof (loose_order text) as Hl.
      destruct (search url_new_loose text) as [m|].
      - destruct Hl as (ds & _ & Hds & Hlen & ->).
        destruct (int_group_of_text text ds Hds Hlen) as [(n & -> & _) | ?]; eauto.
      - destruct Hsome as [[? [=]] | [m Hm]]. rewrite Hm in Hl.
        destruct Hl as (ds & _ & Hds & Hlen & ->).
        destruct (int_group_of_text text ds Hds Hlen) as [(n & -> & _) | ?]; eauto. }
    pose proof (strict_order text) as Hs.
    destruct (search url_new_strict text) as [m|] eqn:Hnew.
    - right. apply Hfound. left. revert Hnew. unfold url_new_strict, seq. simpl foldr.
      rewrite search_anchored. intros (j & s' & Hm)%match_at_sound.
      apply (url_new_strict_loose text) in Hm as (j' & s'' & caps'' & Hm).
      by apply search_at_start in Hm.
    - destruct (search url_old_strict text) as [m|] eqn:Hold; [|by left].
      right. apply Hfound. right. revert Hold. unfold url_old_strict, seq. simpl foldr.
      rewrite search_anchored. intros (j & s' & Hm)%match_at_sound.
      apply (url_old_strict_loose text) in Hm as (j' & s'' & caps'' & Hm).
      by apply search_at_start in Hm. }
  split_and!.
  - intros pid Hpid. destruct Hcases as [Hnone | Hsome]; [congruence | done].
  - intros pid Hlen Hpid.
    destruct Hcases as [Hnone | [Hsome | [_ Hlong]]]; [congruence | done | lia].
  - intros Hnone.
    destruct Hcases as [? | [[pid' Hsome] | [Hraise _]]]; [done | congruence..].
Qed.

Lemma parse_pid_from_url_strict_loose_witness :
  ∃ pid', parse_pid_from_url "https://www.pixiv.net/artworks/12345" false = Ok (Some pid').
Proof.
  destruct (parse_pid_from_url_strict_loose "https://www.pixiv.net/artworks/12345")
    as (_ & Hsome & _).
  apply (Hsome 12345); [vm_compute; discriminate | reflexivity].
Defined.

(** *** Loose mode on a URL inside a text *)

Section Priorities.
Context {R : Type}.
Implicit Types (k : cont R) (caps : captures).

(** A lazy star stops where what follows it matches. *)
Lemma star_lazy_stop p k i s caps :
  is_Some (k i s caps) → star_lazy p k i s caps = k i s caps.
Proof. intros [x Hx]. destruct s; simpl; by rewrite Hx. Qed.

(** A lazy star walks over the characters at which what follows it
    fails. *)
Lemma star_lazy_skip p (q : ascii → bool) k a s : ∀ i caps,
  (∀ j c t caps', q c = true → k j (String c t) caps' = None) →
  all_chars p a = true → all_chars q a = true →
  star_lazy p k i (a +:+ s) caps = star_lazy p k (i + String.length a)%nat s caps.
Proof.
  intros i caps Hfail. revert i.
  induction a as [|c a IH]; intros i; rewrite ?append_nil_l, ?append_cons.
  - by rewrite Nat.add_0_r.
  - simpl. intros [Hc Ha]%andb_true_iff [Hqc Hqa]%andb_true_iff.
    rewrite Hfail, Hc by done. rewrite IH by done. by rewrite Nat.add_succ_comm.
Qed.

(** A greedy star takes the whole run of its class when what follows it
    matches after the run. *)
Lemma star_greedy_run p k a s : ∀ i caps,
  all_chars p a = true →
  s = "" ∨ (∃ c t, s = String c t ∧ p c = false) →
  is_Some (k (i + String.length a)%nat s caps) →
  star_greedy p k i (a +:+ s) caps = k (i + String.length a)%nat s caps.
Proof.
  intros i caps Ha Hs. revert i.
  induction a as [|c a IH]; intros i; rewrite ?append_nil_l, ?append_cons.
  - rewrite Nat.add_0_r. intros _.
    destruct Hs as [-> | (c & t & -> & Hc)]; simpl; [done | by rewrite Hc].
  - simpl in Ha. apply andb_true_iff in Ha as [Hc Ha]. simpl. rewrite Hc.
    rewrite <- Nat.add_succ_comm. intros Hk. rewrite IH by done.
    by destruct Hk as [x ->].
Qed.
End Priorities.

Lemma run_Lit {R} l i s caps (k : cont R) :
  run (Lit l) i (l +:+ s) caps k = k (i + String.length l)%nat s caps.
Proof. simpl. by rewrite strip_prefix_append. Qed.

Lemma search_from_here r i s m : match_at r i s = Some m → search_from r i s = Some m.
Proof. intros Hm. destruct s; simpl; by rewrite Hm. Qed.

Lemma search_from_junk r (q : ascii → bool) junk s : ∀ i,
  (∀ j c t, q c = true → match_at r j (String c t) = None) →
  all_chars q junk = true →
  search_from r i (junk +:+ s) = search_from r (i + String.length junk)%nat s.
Proof.
  intros i Hfail Hjunk. revert i.
  induction junk as [|c junk IH]; intros i; rewrite ?append_nil_l, ?append_cons.
  - by rewrite Nat.add_0_r.
  - simpl in Hjunk. apply andb_true_iff in Hjunk as [Hc Hjunk]. simpl.
    rewrite Hfail by done. rewrite IH by done. by rewrite Nat.add_succ_comm.
Qed.

Lemma no_char_eqb c x : spec.no_char c x = true → Ascii.eqb c x = false.
Proof.
  unfold spec.no_char. destruct (Ascii.eqb_spec x c) as [->|Hne]; [done|].
  intros _. by destruct (Ascii.eqb_spec c x).
Qed.

Lemma run_Cat {R} r1 r2 i s caps (k : cont R) :
  run (Cat r1 r2) i s caps k = run r1 i s caps (λ j s' caps', run r2 j s' caps' k).
Proof. reflexivity. Qed.

Lemma run_Group {R} n r1 i s caps (k : cont R) :
  run (Group n r1) i s caps k
  = run r1 i s caps (λ j s' caps', k j s' (<[n := String.substring 0 (j - i) s]> caps')).
Proof. reflexivity. Qed.

Lemma run_Lit_no {R} l i s caps (k : cont R) :
  strip_prefix l s = None → run (Lit l) i s caps k = None.
Proof. simpl. by intros ->. Qed.

Lemma run_Alt_l {R} r1 r2 i s caps (k : cont R) x :
  run r1 i s caps k = Some x → run (Alt r1 r2) i s caps k = Some x.
Proof. simpl. by intros ->. Qed.

Lemma run_Alt_r {R} r1 r2 i s caps (k : cont R) :
  run r1 i s caps k = None → run (Alt r1 r2) i s caps k = run r2 i s caps k.
Proof. simpl. by intros ->. Qed.

Lemma run_Opt_l {R} r1 i s caps (k : cont R) x :
  run r1 i s caps k = Some x → run (Opt r1) i s caps k = Some x.
Proof. simpl. by intros ->. Qed.

Lemma run_Opt_r {R} r1 i s caps (k : cont R) :
  run r1 i s caps k = None → run (Opt r1) i s caps k = k i s caps.
Proof. simpl. by intros ->. Qed.

(** The digits of the id and the end of the loose path pattern. *)
Lemma loose_id_run i0 i id trail caps :
  url_shape.id_ok id →
  trail = "" ∨ (∃ c t, trail = String c t ∧ digit c = false) →
  run (Cat (Group 2 (Plus true digit)) (Lit "")) i (id +:+ trail) caps
    (λ j _ caps', Some {| m_start := i0; m_end := j; m_groups := caps' |})
  = Some {| m_start := i0; m_end := (i + String.length id)%nat;
            m_groups := <[2%nat := id]> caps |}.
Proof.
  intros [Hne Hid] Htrail. destruct id as [|d ds]; [done|].
  simpl in Hid. apply andb_true_iff in Hid as [Hd Hds].
  unfold Plus. rewrite append_cons. cbn [run]. rewrite Hd.
  rewrite star_greedy_run; [|done..|by cbn].
  cbn. f_equal. f_equal; [lia|]. f_equal.
  apply (substring_group _ (String d ds) trail). simpl. lia.
Qed.

(** The loose path pattern from [pixiv.net/] on. *)
Lemma loose_tail_run i0 i kind id trail caps :
  url_shape.kind_ok kind → url_shape.id_ok id →
  trail = "" ∨ (∃ c t, trail = String c t ∧ digit c = false) →
  ∃ m,
    run (Cat (Lit "pixiv.net/")
           (Cat (Group 1 (Alt (Lit "artworks") (Lit "i")))
              (Cat (Lit "/") (Cat (Group 2 (Plus true digit)) (Lit "")))))
      i ("pixiv.net/" +:+ kind +:+ "/" +:+ id +:+ trail) caps
      (λ j _ caps', Some {| m_start := i0; m_end := j; m_groups := caps' |})
    = Some m
    ∧ group m 2 = Some id.
Proof.
  intros Hkind Hid Htrail.
  rewrite run_Cat, run_Lit. cbv beta. rewrite run_Cat, run_Group.
  destruct Hkind as [-> | ->].
  - eexists. split.
    + apply run_Alt_l. rewrite run_Lit. cbv beta. rewrite run_Cat, run_Lit. cbv beta.
      by apply loose_id_run.
    + unfold group. cbn [m_groups]. by rewrite lookup_insert_eq.
  - eexists. split.
    + rewrite run_Alt_r by (by apply run_Lit_no).
      rewrite run_Lit. cbv beta. rewrite run_Cat, run_Lit. cbv beta.
      by apply loose_id_run.
    + unfold group. cbn [m_groups]. by rewrite lookup_insert_eq.
Qed.

(** The loose path pattern at the start of a page URL whose host part
    holds no [p]: the lazy [.*?] stops at the first [pixiv.net/], the
    greedy [\d+] takes all the digits. *)
Lemma loose_path_match i sch host kind id trail :
  url_shape.scheme_ok sch → url_shape.one_line host →
  all_chars (spec.no_char "p") host = true →
  url_shape.kind_ok kind → url_shape.id_ok id →
  trail = "" ∨ (∃ c t, trail = String c t ∧ digit c = false) →
  ∃ m, match_at url_new_loose i (url_shape.path_style sch host kind id +:+ trail) = Some m
       ∧ group m 2 = Some id.
Proof.
  intros Hsch Hhost Hnop Hkind Hid Htrail.
  unfold match_at, url_new_loose, seq, url_shape.path_style. cbn [foldr].
  rewrite !append_assoc.
  assert (∀ j, ∃ m,
            star_lazy dot
              (λ j s' caps',
                 run (Cat (Lit "pixiv.net/")
                        (Cat (Group 1 (Alt (Lit "artworks") (Lit "i")))
                           (Cat (Lit "/") (Cat (Group 2 (Plus true digit)) (Lit "")))))
                   j s' caps'
                   (λ j _ caps', Some {| m_start := i; m_end := j; m_groups := caps' |}))
              j (host +:+ "pixiv.net/" +:+ kind +:+ "/" +:+ id +:+ trail) ∅ = Some m
            ∧ group m 2 = Some id) as Hstar.
  { intros j.
    destruct (loose_tail_run i (j + String.length host) kind id trail ∅ Hkind Hid Htrail)
      as (m & Hm & Hg).
    exists m. split; [|done].
    rewrite (star_lazy_skip dot (spec.no_char "p")); [| |done..].
    - rewrite star_lazy_stop; [done | by rewrite Hm].
    - intros j' c t caps' Hc. rewrite run_Cat. apply run_Lit_no.
      cbn [strip_prefix]. apply no_char_eqb in Hc. by rewrite Hc. }
  destruct Hsch as [-> | ->].
  - destruct (Hstar (i + String.length "http" + String.length "://")%nat)
      as (m & Hm & Hg).
    exists m. split; [|done].
    rewrite run_Cat, run_Lit. cbv beta. rewrite run_Cat.
    rewrite run_Opt_r by (by apply run_Lit_no).
    rewrite run_Cat, run_Lit. cbv beta. rewrite run_Cat. exact Hm.
  - destruct (Hstar (i + String.length "http" + String.length "s" + String.length "://")%nat)
      as (m & Hm & Hg).
    exists m. split; [|done].
    change ("https" +:+ ?x) with ("http" +:+ "s" +:+ x).
    rewrite run_Cat, run_Lit. cbv beta. rewrite run_Cat.
    apply run_Opt_l. rewrite run_Lit. cbv beta.
    rewrite run_Cat, run_Lit. cbv beta. rewrite run_Cat. exact Hm.
Qed.

(** The loose path pattern matches nowhere in a text without [h]. *)
Lemma loose_needs_h j c t :
  spec.no_char "h" c = true → match_at url_new_loose j (String c t) = None.
Proof.
  intros Hc%no_char_eqb. unfold match_at, url_new_loose, seq. cbn [foldr].
  rewrite run_Cat. apply run_Lit_no. cbn [strip_prefix]. by rewrite Hc.
Qed.

(** In loose mode the id of a page URL of path style is found inside a
    text. *)
Lemma loose_embedded_id junk sch host kind id trail :
  all_chars (spec.no_char "h") junk = true →
  url_shape.scheme_ok sch → url_shape.one_line host →
  all_chars (spec.no_char "p") host = true →
  url_shape.kind_ok kind → url_shape.id_ok id → len id <= int_max_str_digits →
  trail = "" ∨ (∃ c t, trail = String c t ∧ digit c = false) →
  parse_pid_from_url (junk +:+ url_shape.path_style sch host kind id +:+ trail) false
  = Ok (Some (digits_value 0 id)).
Proof.
  intros Hjunk Hsch Hhost Hnop Hkind Hid Hlen Htrail.
  destruct (loose_path_match (0 + String.length junk) sch host kind id trail)
    as (m & Hm & Hg); [done..|].
  unfold parse_pid_from_url, search.
  rewrite (search_from_junk _ (spec.no_char "h"));
    [| apply loose_needs_h | done].
  rewrite (search_from_here _ _ _ m Hm), Hg.
  destruct Hid as [Hne Hid]. by rewrite int_digits.
Qed.

Lemma digit_dot c : digit c = true → dot c = true.
Proof.
  unfold digit, is_digit, dot. intros [H1 H2]%andb_true_iff.
  destruct (Ascii.eqb_spec c newline) as [->|]; [|done]. done.
Qed.

(** X20: loose mode reads the id of a page URL of path style out of
    the text around it.  The text before the URL holds no [h], the part of
    the URL before [pixiv.net] no [p] and no line break, the id has no
    more digits than [int] converts (4300), and what follows the id does
    not begin with a digit; then [parse_pid_from_url] with
    [url_mode=False] returns the id, and with [url_mode=True] it returns
    [None] as soon as there is text before the URL. *)
Theorem parse_pid_from_url_loose_embedded junk sch host kind id trail :
  all_chars (spec.no_char "h") junk = true →
  url_shape.scheme_ok sch → url_shape.one_line host →
  all_chars (spec.no_char "p") host = true →
  url_shape.kind_ok kind → url_shape.id_ok id → len id <= int_max_str_digits →
  trail = "" ∨ (∃ c t, trail = String c t ∧ digit c = false) →
  parse_pid_from_url (junk +:+ url_shape.path_style sch host kind id +:+ trail) false
  = Ok (Some (digits_value 0 id))
  ∧ (junk ≠ "" →
     parse_pid_from_url (junk +:+ url_shape.path_style sch host kind id +:+ trail) true
     = Ok None).
Proof.
  intros Hjunk Hsch Hhost Hnop Hkind Hid Hlen Htrail.
  split; [by apply loose_embedded_id|].
  intros Hne. apply strict_needs_scheme.
  destruct junk as [|c junk]; [done|]. simpl in Hjunk.
  apply andb_true_iff in Hjunk as [Hc%no_char_eqb _].
  rewrite append_cons. cbn [strip_prefix]. by rewrite Hc.
Qed.

Lemma parse_pid_from_url_loose_embedded_witness :
  parse_pid_from_url "see: https://www.pixiv.net/artworks/12345 ok" false = Ok (Some 12345)
  ∧ parse_pid_from_url "see: https://www.pixiv.net/artworks/12345 ok" true = Ok None.
Proof.
  destruct (parse_pid_from_url_loose_embedded "see: " "https" "www." "artworks" "12345" " ok")
    as [Hloose Hstrict];
    [ reflexivity | by right | reflexivity | reflexivity | by left | by split
    | by vm_compute | right; by exists " "%char, "ok" |].
  split; [exact Hloose | by apply Hstrict].
Defined.

(** X21: the two modes may read different ids from one text.  In a URL
    that holds two page paths, one after the other, each with an id of no
    more digits than [int] converts (4300), strict mode returns the id at
    the end of the text and loose mode the id of the first path. *)
Theorem parse_pid_from_url_modes_differ sch host kind1 id1 rest kind2 id2 :
  url_shape.scheme_ok sch → url_shape.one_line host →
  all_chars (spec.no_char "p") host = true →
  url_shape.kind_ok kind1 → url_shape.id_ok id1 → len id1 <= int_max_str_digits →
  url_shape.one_line rest →
  url_shape.kind_ok kind2 → url_shape.id_ok id2 → len id2 <= int_max_str_digits →
  let text :=
    url_shape.path_style sch host kind1 id1
      +:+ "/" +:+ rest +:+ "pixiv.net/" +:+ kind2 +:+ "/" +:+ id2 in
  parse_pid_from_url text true = Ok (Some (digits_value 0 id2))
  ∧ parse_pid_from_url text false = Ok (Some (digits_value 0 id1)).
Proof.
  intros Hsch Hhost Hnop Hkind1 Hid1 Hlen1 Hrest Hkind2 Hid2 Hlen2 text. split.
  - assert (text = url_shape.path_style sch
                     (host +:+ "pixiv.net/" +:+ kind1 +:+ "/" +:+ id1 +:+ "/" +:+ rest)
                     kind2 id2) as ->.
    { unfold text, url_shape.path_style. by rewrite !append_assoc. }
    apply strict_path_id; [done | | done..].
    unfold url_shape.one_line in *. destruct Hid1 as [_ Hid1].
    rewrite !all_chars_append, Hhost, Hrest.
    rewrite (all_chars_impl digit dot id1 digit_dot Hid1).
    by destruct Hkind1 as [-> | ->].
  - apply (loose_embedded_id "" sch host kind1 id1); [done..|].
    right. by exists "/"%char, (rest +:+ "pixiv.net/" +:+ kind2 +:+ "/" +:+ id2).
Qed.

Lemma parse_pid_from_url_modes_differ_witness :
  parse_pid_from_url "https://www.pixiv.net/artworks/12/pixiv.net/i/34" true
  = Ok (Some 34)
  ∧ parse_pid_from_url "https://www.pixiv.net/artworks/12/pixiv.net/i/34" false
    = Ok (Some 12).
Proof.
  apply (parse_pid_from_url_modes_differ "https" "www." "artworks" "12" "" "i" "34");
    first [ reflexivity | by left | by right | by split | by vm_compute ].
Defined.

(** ** From the answer of the site to the batch *)

(** X22: which requests reach the batch, read off the answers of the
    site.  The previews of [_request_preview_model] are, in the order of
    the requests, those whose picture the site answered with status 200,
    each with the description of its request and the bytes of the answer;
    a request answered with any other status, or whose transport failed,
    leaves no trace in the batch. *)
Theorem _request_preview_model_by_status env preview_name requests :
  let answered (request : model.artwork.PixivArtworkPreviewRequestModel) :=
    match get_bytes env (model.artwork.request_url request) None with
    | Ok _content =>
        if model.fetcher.status _content =? 200
        then Some {| model.artwork.thumb_desc_text := model.artwork.desc_text request;
                     model.artwork.preview_thumb := model.fetcher.result _content |}
        else None
    | Raise _ => None
    end in
  ∃ batch,
    _request_preview_model env preview_name requests = Ok batch
    ∧ model.artwork.previews batch = omap answered requests
    ∧ model.artwork.count batch = Z.of_nat (length (omap answered requests)).
Proof.
  intros answered. rewrite preview_batch_returned. eexists. split; [reflexivity|]. simpl.
  assert (omap (spec.preview_of env) requests = omap answered requests) as ->; [|done].
  assert (∀ request, spec.preview_of env request = answered request) as Hsame.
  { intros request. unfold spec.preview_of, answered, _get_pixiv_resource.
    destruct (get_bytes env _ None) as [_content|e]; simpl; [|done].
    by destruct (model.fetcher.status _content =? 200). }
  induction requests as [|request requests IH]; csimpl; [done|].
  by rewrite Hsame, IH.
Qed.

(** ** The previews inside the card *)

Lemma card_lengths env width :
  0 <= card_height env width →
  0 <= card_thumb_img_width env width
  ∧ 0 <= card_spacing_width env width
  ∧ card_thumb_img_width env width + 2 * card_spacing_width env width
    <= card_height env width.
Proof.
  intros Hh. unfold card_spacing_width, card_thumb_img_width, card_user_head_width, int_div.
  set (h := card_height env width) in *.
  assert (0 <= h * 5 ÷ 6) as Hw by (apply Z.quot_pos; lia).
  assert (6 * (h * 5 ÷ 6) <= h * 5) as Hw6 by (apply Z.mul_quot_le; lia).
  assert (0 <= (h - h * 5 ÷ 6) ÷ 2) as Hsp by (apply Z.quot_pos; lia).
  assert (2 * ((h - h * 5 ÷ 6) ÷ 2) <= h - h * 5 ÷ 6) as Hsp2
    by (apply Z.mul_quot_le; lia).
  lia.
Qed.

(** X23: where the previews stand on a card.  For a card height that is
    not negative the width of a preview and the spacing are not negative,
    and every preview pasted on a returned card stands one spacing below
    the upper edge, ends at least one spacing above the lower edge, and
    begins at least one spacing to the right of the end of the preview
    before it. *)
Theorem card_thumbnails_fit env user width card :
  let w := card_thumb_img_width env width in
  let _spacing_width := card_spacing_width env width in
  0 <= card_height env width →
  _generate_user_searching_result_card env user width = Ok card →
  0 <= w ∧ 0 <= _spacing_width
  ∧ ∀ (i : nat) tile x y,
      PIL.tiles card !! i = Some (tile, (x, y)) →
      y = _spacing_width
      ∧ y + w + _spacing_width <= card_height env width
      ∧ card_thumbs_left env width <= x
      ∧ ∀ (j : nat) tile' x' y',
          (i < j)%nat → PIL.tiles card !! j = Some (tile', (x', y')) →
          x + w + _spacing_width <= x'.
Proof.
  intros w _spacing_width Hh Hcard.
  destruct (card_lengths env width Hh) as (Hw & Hsp & Hfit).
  fold w _spacing_width in Hw, Hsp, Hfit.
  split; [exact Hw|]. split; [exact Hsp|].
  apply card_tiles in Hcard. rewrite Hcard.
  intros i tile x y. rewrite thumb_tiles_lookup.
  destruct (take 4 _ !! i) as [slot|]; simpl; [|done].
  unfold spec.thumb_box. fold w _spacing_width. intros [= <- <- <-].
  split_and!; [done | lia | nia |].
  intros j tile' x' y' Hij. rewrite thumb_tiles_lookup.
  destruct (take 4 _ !! j) as [slot'|]; simpl; [|done].
  unfold spec.thumb_box. fold w _spacing_width. intros [= <- <- <-]. nia.
Qed.

Lemma card_thumbnails_fit_witness :
  ∃ card,
    _generate_user_searching_result_card (sample.env sample.no_doc) sample.user 1600
    = Ok card
    ∧ 0 <= card_spacing_width (sample.env sample.no_doc) 1600.
Proof.
  destruct (_generate_user_searching_result_card (sample.env sample.no_doc) sample.user 1600)
    as [card|e] eqn:Hcard; [|by vm_compute in Hcard].
  exists card. split; [reflexivity|].
  destruct (card_thumbnails_fit (sample.env sample.no_doc) sample.user 1600 card)
    as (_ & Hsp & _); [by vm_compute | exact Hcard | exact Hsp].
Defined.

(** ** [parsed_description] *)

Lemma Tag_forall_ind (P : Tag → Prop) :
  (∀ text, P (NavigableString text)) →
  (∀ name attrs contents, Forall P contents → P (Element name attrs contents)) →
  ∀ t, P t.
Proof.
  intros Htext Helement. fix IH 1. intros [name attrs contents|text]; [|apply Htext].
  apply Helement. induction contents as [|c contents IHc]; constructor; [apply IH | exact IHc].
Qed.

(** The nodes below an element are its children, each followed by the
    nodes below it. *)
Lemma descendants_nodes name attrs contents :
  (descendants (Element name attrs contents)).*1
  = flat_map (λ c, c :: (descendants c).*1) contents.
Proof.
  simpl. generalize (@None Tag).
  induction contents as [|c contents IH]; intros prev; [done|].
  csimpl. rewrite fmap_app. by rewrite IH.
Qed.

Lemma find_all_nodes t name attrs :
  find_all t name attrs = List.filter (tag_matches name attrs) (descendants t).*1.
Proof.
  unfold find_all, find_all_with_previous.
  induction (descendants t) as [|[c prev] l IH]; csimpl; [done|].
  destruct (tag_matches name attrs c); csimpl; by rewrite IH.
Qed.

Lemma find_all_element name attrs n a contents :
  find_all (Element n a contents) name attrs
  = flat_map (λ c, (if tag_matches name attrs c then [c] else []) ++ find_all c name attrs)
      contents.
Proof.
  rewrite find_all_nodes, descendants_nodes.
  induction contents as [|c contents IH]; [done|].
  cbn [flat_map]. rewrite List.filter_app, IH, find_all_nodes. simpl.
  by destruct (tag_matches name attrs c).
Qed.

(** Replacing the line breaks leaves no [br]. *)
Lemma replace_line_breaks_none t : find_all (replace_line_breaks t) "br" [] = [].
Proof.
  induction t as [text|name attrs contents IH] using Tag_forall_ind; [done|].
  cbn [replace_line_breaks]. rewrite find_all_element.
  induction IH as [|c contents Hc _ IH]; [done|].
  cbn [map flat_map]. rewrite IH, app_nil_r.
  destruct (tag_matches "br" [] c) eqn:Hbr; [done|].
  rewrite Hc, app_nil_r.
  destruct c as [n a cs|text]; [|done]. cbn [replace_line_breaks]. simpl in *.
  by rewrite Hbr.
Qed.

(** A document without [br] is left as it is. *)
Lemma replace_line_breaks_id t : find_all t "br" [] = [] → replace_line_breaks t = t.
Proof.
  induction t as [text|name attrs contents IH] using Tag_forall_ind; [done|].
  rewrite find_all_element. cbn [replace_line_breaks]. intros Hno. f_equal.
  induction IH as [|c contents Hc _ IH]; [done|].
  cbn [map flat_map] in *. apply app_eq_nil in Hno as [Hc' Hno].
  apply app_eq_nil in Hc' as [Hbr Hc'].
  rewrite IH by done. destruct (tag_matches "br" [] c); [done|]. by rewrite Hc.
Qed.

Lemma concat_app a b : String.concat "" (a ++ b) = String.concat "" a +:+ String.concat "" b.
Proof.
  induction a as [|x a IH]; [done|].
  destruct a as [|y a].
  - simpl. destruct b; simpl; [by rewrite append_nil_r | done].
  - cbn [app String.concat] in *. rewrite IH. by rewrite append_nil_l, !append_assoc.
Qed.

Lemma concat_cons x l : String.concat "" (x :: l) = x +:+ String.concat "" l.
Proof. destruct l; simpl; [by rewrite append_nil_r | done]. Qed.

Lemma concat_flat_map {A} (f : A → list string) l :
  String.concat "" (flat_map f l) = String.concat "" (map (λ x, String.concat "" (f x)) l).
Proof.
  induction l as [|x l IH]; [done|].
  cbn [flat_map map]. by rewrite concat_app, concat_cons, IH.
Qed.

(** X24: [parsed_description].  Once the line breaks are replaced the
    document holds no [br]; the text of a description without [br] is the
    text of the parsed document, unchanged; and the text is put together
    child by child: one line break for a child that is a [br], whatever
    the [br] holds, and the text of the child, its own line breaks
    replaced, for any other. *)
Theorem parsed_description_line_breaks env self :
  let _description_bs := BeautifulSoup env (description self) in
  find_all (replace_line_breaks _description_bs) "br" [] = []
  ∧ (find_all _description_bs "br" [] = [] →
     parsed_description env self = get_text _description_bs)
  ∧ (∀ name attrs contents, _description_bs = Element name attrs contents →
       parsed_description env self
       = String.concat ""
           (map (λ c, if tag_matches "br" [] c then NL
                      else get_text (replace_line_breaks c)) contents)).
Proof.
  intros _description_bs. unfold parsed_description. fold _description_bs.
  split_and!.
  - apply replace_line_breaks_none.
  - intros Hno. by rewrite replace_line_breaks_id.
  - intros name attrs contents ->. cbn [replace_line_breaks]. unfold get_text at 1.
    cbn [strings]. rewrite concat_flat_map, map_map. f_equal.
    apply map_ext. intros c. by destruct (tag_matches "br" [] c).
Qed.

Lemma parsed_description_line_breaks_witness :
  parsed_description
    (sample.env (sample.el "p" [] [sample.txt "a"; sample.el "br" [] []; sample.txt "b"]))
    {| description := "a<br>b" |}
  = "a" +:+ NL +:+ "b".
Proof.
  destruct (parsed_description_line_breaks
    (sample.env (sample.el "p" [] [sample.txt "a"; sample.el "br" [] []; sample.txt "b"]))
    {| description := "a<br>b" |}) as (_ & _ & Htext).
  rewrite (Htext _ _ _ eq_refl). reflexivity.
Defined.

(** ** Strict mode at the end of the text *)

Lemma string_snoc (p : ascii → bool) s :
  s ≠ "" → all_chars p s = true →
  ∃ init c, s = init +:+ String c "" ∧ p c = true.
Proof.
  induction s as [|x s IH]; [done|]. intros _. simpl. intros [Hx Hs]%andb_true_iff.
  destruct s as [|y s].
  - by exists "", x.
  - destruct IH as (init & c & Heq & Hc); [done..|].
    exists (String x init), c. by rewrite append_cons, <- Heq.
Qed.

Lemma append_inv_last a b c : a +:+ String c "" = b +:+ String c "" → a = b.
Proof.
  intros Heq.
  by apply (split_last_unique (λ _, false) (λ _, false)) in Heq as (-> & _ & _).
Qed.

(** A text that ends in a line break, as a pattern that ends in [$]
    reads it. *)
Lemma line_break_end (p : ascii → bool) body a ds s' :
  body +:+ NL = a +:+ ds +:+ s' →
  ds ≠ "" → all_chars p ds = true → p newline = false → at_end s' = true →
  s' = NL ∧ body = a +:+ ds.
Proof.
  intros Heq Hne Hds Hp [-> | ->]%at_end_spec.
  - exfalso. destruct (string_snoc p ds Hne Hds) as (init & c & -> & Hc).
    rewrite append_nil_r, <- append_assoc in Heq.
    apply (split_last_unique (λ _, false) (λ _, false)) in Heq as (_ & <- & _); [|done..].
    congruence.
  - split; [done|]. rewrite <- append_assoc in Heq. by apply append_inv_last in Heq.
Qed.

(** X25: the end of the text in strict mode.  The patterns end in [$],
    which stands at the end of the text and before a line break that ends
    it: a page URL of path style, with an id of no more digits than [int]
    converts (4300), followed by one line break still gives its id.  And
    an id is found in strict mode only in a text that ends in a word
    character, followed by one line break at most. *)
Theorem parse_pid_from_url_strict_end :
  (∀ sch host kind id,
     url_shape.scheme_ok sch → url_shape.one_line host → url_shape.kind_ok kind →
     url_shape.id_ok id → len id <= int_max_str_digits →
     parse_pid_from_url (url_shape.path_style sch host kind id +:+ NL) true
     = Ok (Some (digits_value 0 id)))
  ∧ (∀ text pid,
       parse_pid_from_url text true = Ok (Some pid) →
       ∃ body c s', text = body +:+ String c s' ∧ word c = true ∧ (s' = "" ∨ s' = NL)).
Proof.
  split.
  - intros sch host kind id Hsch Hhost Hkind [Hne Hid] Hlen.
    destruct (url_new_strict_intro sch host kind id NL Hsch Hhost Hkind Hne Hid eq_refl)
      as (j & caps' & Hm).
    apply search_at_start in Hm as [m Hm].
    assert (url_shape.path_style sch host kind id +:+ NL
            = sch +:+ "://" +:+ host +:+ "pixiv.net/" +:+ kind +:+ "/" +:+ id +:+ NL) as Htext.
    { unfold url_shape.path_style. by rewrite !append_assoc. }
    rewrite <- Htext in Hm. unfold parse_pid_from_url. rewrite Hm.
    apply url_new_strict_search in Hm
      as (sch' & pre' & kind' & ds' & s' & Heq & _ & Hne' & Hds' & Hs' & ->).
    replace (sch' +:+ "://" +:+ pre' +:+ "pixiv.net/" +:+ kind' +:+ "/" +:+ ds' +:+ s')
      with ((sch' +:+ "://" +:+ pre' +:+ "pixiv.net/" +:+ kind' +:+ "/") +:+ ds' +:+ s')
      in Heq by (by rewrite !append_assoc).
    apply (line_break_end digit) in Heq as [-> Heq]; [|done..].
    rewrite <- (append_nil_r ds') in Heq. rewrite !append_assoc in Heq.
    apply path_id_unique in Heq as ->; [|done..].
    by rewrite int_digits.
  - intros text pid Hpid. pose proof (strict_order text) as Ho.
    destruct (search url_new_strict text) as [m|] eqn:Hnew.
    + apply url_new_strict_search in Hnew
        as (sch & pre & kind & ds & s' & -> & _ & Hne & Hds & Hs' & _).
      destruct (string_snoc digit ds Hne Hds) as (init & c & -> & Hc).
      exists (sch +:+ "://" +:+ pre +:+ "pixiv.net/" +:+ kind +:+ "/" +:+ init), c, s'.
      split_and!; [by rewrite !append_assoc | by apply digit_word | by apply at_end_spec].
    + destruct (search url_old_strict text) as [m|] eqn:Hold; [|congruence].
      apply url_old_strict_search in Hold
        as (sch & pre & mid & ds & tail & s' & -> & _ & Hne & Hds & Htail & Hs' & _).
      destruct Htail as [-> | (w & -> & Hwne & Hw)].
      * destruct (string_snoc digit ds Hne Hds) as (init & c & -> & Hc).
        exists (sch +:+ "://" +:+ pre +:+ "pixiv.net" +:+ mid +:+ "illust_id=" +:+ init), c, s'.
        split_and!; [by rewrite !append_assoc | by apply digit_word | by apply at_end_spec].
      * destruct (string_snoc word w Hwne Hw) as (init & c & -> & Hc).
        exists (sch +:+ "://" +:+ pre +:+ "pixiv.net" +:+ mid +:+ "illust_id=" +:+ ds
                  +:+ "&mode=" +:+ init), c, s'.
        split_and!; [by rewrite !append_assoc | done | by apply at_end_spec].
Qed.

Lemma parse_pid_from_url_strict_end_witness :
  parse_pid_from_url ("https://www.pixiv.net/artworks/12345" +:+ NL) true = Ok (Some 12345).
Proof.
  destruct parse_pid_from_url_strict_end as [Hbreak _].
  apply (Hbreak "https" "www." "artworks" "12345");
    first [ reflexivity | by left | by right | by split | by vm_compute ].
Defined.
